(** * configmanager: the [Config] section class of [configmanager/managers.py]

    A shallow embedding of the section tree of configmanager and of the
    operations of [Config]: key and path resolution, the iterators,
    [dump_values], [load_values], [reset], [is_default], [add_item] and
    [add_section].

    Python objects are mutable and shared, so sections and items live in an
    object store and are named by references; every method is a computation
    over that store which either returns a value or raises an exception. *)

From Stdlib Require Import ZArith Ascii String List Bool Lia.
From stdpp Require Import base option list strings.

Open Scope string_scope.
Open Scope list_scope.

(** ** Python values *)

(** Object identity ([id(obj)]): an index into the object store. *)
Abbreviation ref := nat (only parsing).

(** The values that cross the interface of [Config]: plain data, the
    [not_set] sentinel of unset item fields, and references to [Item] and
    [Config] instances.  Dictionaries keep their insertion order. *)
#[local] Unset Elimination Schemes.
Inductive pyval : Type :=
| VNone
| VNotSet
| VBool (b : bool)
| VInt (n : Z)
| VStr (s : string)
| VTuple (xs : list pyval)
| VList (xs : list pyval)
| VDict (kvs : list (pyval * pyval))
| VRef (r : ref).
#[local] Set Elimination Schemes.

(** Induction over values that reaches inside tuples, lists and
    dictionaries. *)
Section PyvalInd.
Variable P : pyval -> Prop.
Hypothesis HNone : P VNone.
Hypothesis HNotSet : P VNotSet.
Hypothesis HBool : forall b, P (VBool b).
Hypothesis HInt : forall n, P (VInt n).
Hypothesis HStr : forall s, P (VStr s).
Hypothesis HTuple : forall xs, Forall P xs -> P (VTuple xs).
Hypothesis HList : forall xs, Forall P xs -> P (VList xs).
Hypothesis HDict :
  forall kvs, Forall (fun kv => P (fst kv) /\ P (snd kv)) kvs -> P (VDict kvs).
Hypothesis HRef : forall r, P (VRef r).

Fixpoint pyval_nested_ind (v : pyval) : P v :=
  match v with
  | VNone => HNone
  | VNotSet => HNotSet
  | VBool b => HBool b
  | VInt n => HInt n
  | VStr s => HStr s
  | VTuple xs =>
      HTuple xs
        ((fix go (l : list pyval) : Forall P l :=
            match l with
            | [] => @List.Forall_nil _ P
            | x :: l' => @List.Forall_cons _ P x l' (pyval_nested_ind x) (go l')
            end) xs)
  | VList xs =>
      HList xs
        ((fix go (l : list pyval) : Forall P l :=
            match l with
            | [] => @List.Forall_nil _ P
            | x :: l' => @List.Forall_cons _ P x l' (pyval_nested_ind x) (go l')
            end) xs)
  | VDict kvs =>
      HDict kvs
        ((fix go (l : list (pyval * pyval))
            : Forall (fun kv => P (fst kv) /\ P (snd kv)) l :=
            match l with
            | [] => @List.Forall_nil _ _
            | (k, x) :: l' =>
                @List.Forall_cons _ _ (k, x) l'
                  (conj (pyval_nested_ind k) (pyval_nested_ind x)) (go l')
            end) kvs)
  | VRef r => HRef r
  end.
End PyvalInd.

(** Structural equality test on values, used for dictionary keys.  On the
    keys this development puts into dictionaries (strings and [not_set]) it
    coincides with Python's [==]. *)
Fixpoint pyval_eqb (a b : pyval) {struct a} : bool :=
  match a, b with
  | VNone, VNone => true
  | VNotSet, VNotSet => true
  | VBool x, VBool y => Bool.eqb x y
  | VInt x, VInt y => Z.eqb x y
  | VStr x, VStr y => String.eqb x y
  | VTuple xs, VTuple ys =>
      (fix go (l m : list pyval) {struct l} : bool :=
         match l, m with
         | [], [] => true
         | x :: l', y :: m' => pyval_eqb x y && go l' m'
         | _, _ => false
         end) xs ys
  | VList xs, VList ys =>
      (fix go (l m : list pyval) {struct l} : bool :=
         match l, m with
         | [], [] => true
         | x :: l', y :: m' => pyval_eqb x y && go l' m'
         | _, _ => false
         end) xs ys
  | VDict xs, VDict ys =>
      (fix go (l m : list (pyval * pyval)) {struct l} : bool :=
         match l, m with
         | [], [] => true
         | (k, x) :: l', (k', y) :: m' =>
             pyval_eqb k k' && pyval_eqb x y && go l' m'
         | _, _ => false
         end) xs ys
  | VRef x, VRef y => Nat.eqb x y
  | _, _ => false
  end.

(** [isinstance(v, six.string_types)] *)
Definition is_str (v : pyval) : bool :=
  match v with VStr _ => true | _ => false end.

(** [isinstance(v, dict)] *)
Definition is_dict (v : pyval) : bool :=
  match v with VDict _ => true | _ => false end.

(** [v is None] *)
Definition is_none (v : pyval) : bool :=
  match v with VNone => true | _ => false end.

(** ** Dictionaries

    A [dict] (or the [OrderedDict] behind [_cm__configs]) is an association
    list in insertion order with at most one entry per key: assigning to a
    bound key replaces its value and keeps its position, assigning to a new
    key appends. *)
Section Dict.
Context {K V : Type} (eqb : K -> K -> bool).

Fixpoint dict_get (k : K) (d : list (K * V)) : option V :=
  match d with
  | [] => None
  | (k', v) :: d' => if eqb k k' then Some v else dict_get k d'
  end.

Fixpoint dict_set (k : K) (v : V) (d : list (K * V)) : list (K * V) :=
  match d with
  | [] => [(k, v)]
  | (k', v') :: d' =>
      if eqb k k' then (k', v) :: d' else (k', v') :: dict_set k v d'
  end.

Definition dict_mem (k : K) (d : list (K * V)) : bool :=
  match dict_get k d with Some _ => true | None => false end.
End Dict.

(** Section mappings are keyed by strings, exported dictionaries by values. *)
Definition cfg_get {V} := @dict_get string V String.eqb.
Definition cfg_set {V} := @dict_set string V String.eqb.
Definition cfg_mem {V} := @dict_mem string V String.eqb.

Definition pydict := list (pyval * pyval).
Definition py_get : pyval -> pydict -> option pyval := dict_get pyval_eqb.
Definition py_set : pyval -> pyval -> pydict -> pydict := dict_set pyval_eqb.

(** Truth value of a dictionary: non-empty. *)
Definition dict_truthy {K V} (d : list (K * V)) : bool :=
  match d with [] => false | _ :: _ => true end.

(** ** Exceptions *)

Inductive exn : Type :=
| NotFound (key : string) (section : ref)
                            (* configmanager.exceptions.NotFound *)
| TypeError
| KeyError (key : pyval)    (* a dictionary has no entry under [key] *)
| AttributeError
| NoValue
| RecursionError            (* recursion deeper than the interpreter allows *)
| NoSuchObject.             (* a reference outside the store; Python's
                               references never dangle, the store's can *)

Inductive outcome (A : Type) : Type :=
| Ok (a : A)
| Raise (e : exn).
Arguments Ok {A} a.
Arguments Raise {A} e.

(** ** Subscripting plain values *)

(** [hash(v)] is defined: lists and dictionaries are unhashable, and so is
    a tuple that holds an unhashable value. *)
Fixpoint hashable (v : pyval) : bool :=
  match v with
  | VList _ | VDict _ => false
  | VTuple xs => forallb hashable xs
  | _ => true
  end.

(** Python's [==] between hashable values, as a dictionary lookup applies
    it: numbers compare by value, [True] and [False] counting as [1] and
    [0]; strings compare by content and tuples element by element; [None],
    [not_set] and instances are equal to themselves only. *)
Fixpoint py_eq (a b : pyval) {struct a} : bool :=
  match a, b with
  | VNone, VNone => true
  | VNotSet, VNotSet => true
  | VBool x, VBool y => Bool.eqb x y
  | VInt x, VInt y => Z.eqb x y
  | VBool x, VInt y => Z.eqb (Z.b2z x) y
  | VInt x, VBool y => Z.eqb x (Z.b2z y)
  | VStr x, VStr y => String.eqb x y
  | VTuple xs, VTuple ys =>
      (fix go (l m : list pyval) {struct l} : bool :=
         match l, m with
         | [], [] => true
         | x :: l', y :: m' => py_eq x y && go l' m'
         | _, _ => false
         end) xs ys
  | VRef x, VRef y => Nat.eqb x y
  | _, _ => false
  end.

(** Python's [x[key]] on a value [x] that is plain data.  A dictionary
    hashes the key, which fails with a [TypeError] for an unhashable one,
    and returns the entry whose key equals it or fails with
    [KeyError(key)].  Strings, tuples and lists take integers and slices
    only, and the remaining values are not subscriptable: with a tuple or a
    list as the key, which is what a path leaves, they fail with a
    [TypeError]. *)
Definition py_subscript (x key : pyval) : outcome pyval :=
  match x with
  | VDict entries =>
      if hashable key then
        match dict_get py_eq key entries with
        | Some v => Ok v
        | None => Raise (KeyError key)
        end
      else Raise TypeError
  | _ => Raise TypeError
  end.

(** ** Items

    The [Item] class of [configmanager/items.py]: a named, typed leaf with a
    default and an optional overriding value (spec, sections 3 and 4.1). *)

(** Modelled from the spec: the semantic types of [Item.type]; an item
    without one is untyped. *)
Inductive pytype : Type := TBool | TInt | TStr | TTuple | TList | TDict.

(** Modelled from the spec: the type an [Item] takes from a value
    ("type of default value or untyped"). *)
Definition type_of (v : pyval) : option pytype :=
  match v with
  | VBool _ => Some TBool
  | VInt _ => Some TInt
  | VStr _ => Some TStr
  | VTuple _ => Some TTuple
  | VList _ => Some TList
  | VDict _ => Some TDict
  | VNone | VNotSet | VRef _ => None
  end.

(** Modelled from the spec: the attributes of an [Item] (spec 3). *)
Record Item : Type := mkItem {
  item_name : option string;      (* [None]: the name is not set *)
  item_type : option pytype;      (* [None]: untyped *)
  item_default : option pyval;    (* [None]: no default *)
  item_value : option pyval       (* the override; [None]: use the default *)
}.

(** Modelled from the spec: [Item.name], read as a value; the [not_set]
    sentinel when the name is unset. *)
Definition name_of (it : Item) : pyval :=
  match item_name it with Some n => VStr n | None => VNotSet end.

(** Modelled from the spec: [Item.has_value], true if an override or a
    default is present. *)
Definition has_value (it : Item) : bool :=
  match item_value it, item_default it with
  | None, None => false
  | _, _ => true
  end.

(** Modelled from the spec: [Item.is_default], true if no override is
    present, whatever the default. *)
Definition item_is_default (it : Item) : bool :=
  match item_value it with None => true | Some _ => false end.

(** Modelled from the spec: reading [Item.value] gives the override if
    present, else the default, else fails with [NoValue]. *)
Definition get_value (it : Item) : outcome pyval :=
  match item_value it, item_default it with
  | Some v, _ => Ok v
  | None, Some d => Ok d
  | None, None => Raise NoValue
  end.

(** Modelled from the spec: [Item.reset()] clears the override. *)
Definition item_reset (it : Item) : Item :=
  mkItem (item_name it) (item_type it) (item_default it) None.

(** Modelled from the spec: an untyped [Item] takes the type of the first
    value or default it is given; a typed one keeps its type. *)
Definition infer_type (t : option pytype) (v : pyval) : option pytype :=
  match t with Some _ => t | None => type_of v end.

Section ItemCoercion.
(** The conversion of a value to a semantic type by the item class in use,
    [None] when the value is incompatible with the type. *)
Variable coerce : pytype -> pyval -> option pyval.

(** Modelled from the spec: the coercion an [Item] applies to what it is
    given; an untyped item accepts any value as it is. *)
Definition coerce_to (t : option pytype) (v : pyval) : option pyval :=
  match t with
  | Some ty => coerce ty v
  | None => Some v
  end.

(** Modelled from the spec: writing [Item.value] coerces the value to the
    item's type and stores it as the override; it fails with a [TypeError]
    when the value is incompatible. *)
Definition set_value (v : pyval) (it : Item) : outcome Item :=
  match coerce_to (item_type it) v with
  | Some v' =>
      Ok (mkItem (item_name it) (infer_type (item_type it) v')
            (item_default it) (Some v'))
  | None => Raise TypeError
  end.

(** Modelled from the spec: writing [Item.default] applies the same
    coercion and stores the result as the default. *)
Definition set_default (v : pyval) (it : Item) : outcome Item :=
  match coerce_to (item_type it) v with
  | Some v' =>
      Ok (mkItem (item_name it) (infer_type (item_type it) v')
            (Some v') (item_value it))
  | None => Raise TypeError
  end.
End ItemCoercion.

(** Modelled from the spec: the constructor [Item(name, default=default)],
    which gives a detached item.  A name that is neither a string nor left
    out is refused; the type is that of the default. *)
Definition Item_init (name default : pyval) : outcome Item :=
  let d := match default with VNotSet => None | _ => Some default end in
  let t := match d with Some v => type_of v | None => None end in
  match name with
  | VStr n => Ok (mkItem (Some n) t d None)
  | VNotSet => Ok (mkItem None t d None)
  | _ => Raise TypeError
  end.

(** Lower case of an ASCII letter, and of a string. *)
Definition lower_ascii (c : ascii) : ascii :=
  let n := nat_of_ascii c in
  if (65 <=? n)%nat && (n <=? 90)%nat then ascii_of_nat (n + 32) else c.

Fixpoint lower (s : string) : string :=
  match s with
  | EmptyString => EmptyString
  | String c s' => String (lower_ascii c) (lower s')
  end.

(** Modelled from the spec: the boolean tokens of [Item]'s coercion
    (spec 4.1), in any letter case. *)
Definition bool_of_token (s : string) : option bool :=
  let t := lower s in
  if existsb (String.eqb t) ["yes"; "true"; "1"; "on"] then Some true
  else if existsb (String.eqb t) ["no"; "false"; "0"; "off"] then Some false
  else None.

(** The number written by a string of decimal digits. *)
Fixpoint digits_value (s : string) (acc : Z) : option Z :=
  match s with
  | EmptyString => Some acc
  | String c s' =>
      let n := nat_of_ascii c in
      if (48 <=? n)%nat && (n <=? 57)%nat
      then digits_value s' (10 * acc + Z.of_nat (n - 48))
      else None
  end.

(** Modelled from the spec: the textual parse of an integer by [Item]'s
    coercion (spec 4.1): an optional sign and decimal digits. *)
Definition int_of_text (s : string) : option Z :=
  match s with
  | EmptyString => None
  | String "-" (String _ _ as ds) => Z.opp <$> digits_value ds 0
  | String "+" (String _ _ as ds) => digits_value ds 0
  | _ => digits_value s 0
  end.

Definition pytype_eqb (a b : pytype) : bool :=
  match a, b with
  | TBool, TBool | TInt, TInt | TStr, TStr
  | TTuple, TTuple | TList, TList | TDict, TDict => true
  | _, _ => false
  end.

(** Modelled from the spec: the coercion of the [Item] class as far as
    section 4.1 fixes it.  Boolean items accept booleans and the listed
    tokens, integer items accept integers and decimal text; every other
    value is accepted when it already has the type asked for. *)
Definition spec_coerce (t : pytype) (v : pyval) : option pyval :=
  match t, v with
  | TBool, VBool _ => Some v
  | TBool, VStr s => VBool <$> bool_of_token s
  | TInt, VInt _ => Some v
  | TInt, VStr s => VInt <$> int_of_text s
  | _, _ =>
      match type_of v with
      | Some t' => if pytype_eqb t' t then Some v else None
      | None => None
      end
  end.

(** ** Sections and the object store *)

(** The state of a [Config] instance that the operations below read or
    write: its ordered mapping of keys to children, and the back-reference
    and alias it received when it was attached to a parent.  The persistence
    adapters and the click extension of [__init__] play no part here. *)
Record Config : Type := mkConfig {
  _cm__configs : list (string * ref);
  _cm__section : option ref;
  _cm__section_alias : option string
}.

Inductive obj : Type :=
| OItem (it : Item)
| OConfig (c : Config).

(** The object store: [h !! r] is the object with identity [r]; a new object
    takes the next free index. *)
Abbreviation heap := (list obj) (only parsing).

(** A computation reads and writes the store and returns or raises; the
    store it leaves behind is kept in both cases. *)
Definition M (A : Type) : Type := heap -> outcome A * heap.

#[global] Instance M_ret : MRet M := fun A a h => (Ok a, h).

#[global] Instance M_bind : MBind M := fun A B f m h =>
  match m h with
  | (Ok a, h') => f a h'
  | (Raise e, h') => (Raise e, h')
  end.

Definition raise {A} (e : exn) : M A := fun h => (Raise e, h).

(** Lifts a result computed without touching the store. *)
Definition lift {A} (o : outcome A) : M A := fun h => (o, h).

Definition get_obj (r : ref) : M obj := fun h =>
  match h !! r with
  | Some o => (Ok o, h)
  | None => (Raise NoSuchObject, h)
  end.

Definition put_obj (r : ref) (o : obj) : M unit := fun h =>
  (Ok tt, <[r := o]> h).

Definition alloc (o : obj) : M ref := fun h =>
  (Ok (length h), h ++ [o]).

(** Reads the state of the section [self]; anything else has no section
    attributes. *)
Definition get_config (self : ref) : M Config :=
  o ← get_obj self;
  match o with
  | OConfig c => mret c
  | OItem _ => raise AttributeError
  end.

Definition get_item (r : ref) : M Item :=
  o ← get_obj r;
  match o with
  | OItem it => mret it
  | OConfig _ => raise AttributeError
  end.

(** Modelled from the spec: [is_config_item] of [configmanager/base.py],
    which tells items from everything else. *)
Definition is_config_item (x : pyval) (h : heap) : bool :=
  match x with
  | VRef r => match h !! r with Some (OItem _) => true | _ => false end
  | _ => false
  end.

(** Modelled from the spec: [is_config_section] of
    [configmanager/base.py]. *)
Definition is_config_section (x : pyval) (h : heap) : bool :=
  match x with
  | VRef r => match h !! r with Some (OConfig _) => true | _ => false end
  | _ => false
  end.

(** ** Hooks *)

(** The events [Config] dispatches, with the keyword arguments of each call
    site in [managers.py]. *)
Inductive hook_event : Type :=
| NOT_FOUND (name : string) (section : ref)
| ITEM_ADDED_TO_SECTION (alias : pyval) (section : ref) (subject : pyval)
| SECTION_ADDED_TO_SECTION (alias : pyval) (section : ref) (subject : pyval).

(** Modelled from the spec: [Hooks.handle] of [configmanager/hooks.py]
    when no handler is registered; nothing happens and the result is
    [None]. *)
Definition no_hooks (ev : hook_event) : M pyval := mret VNone.

(** ** The section class *)

Section Managers.
(** The coercion of the item class in use ([cm__item_cls]). *)
Variable coerce : pytype -> pyval -> option pyval.

(** [self.hooks.handle(event, **kwargs)], the dispatch of
    [configmanager/hooks.py], taken as a parameter: it runs the registered
    handlers, which may read and write the store, and returns their result
    ([None] when no handler gives one). *)
Variable hooks_handle : hook_event -> M pyval.

(** [object.__setattr__(self, name, value)], Python's plain attribute
    assignment, taken as a parameter: of the attributes it can write only
    the mapping, the parent and the alias of a section are part of the
    state kept here. *)
Variable object_setattr : string -> pyval -> ref -> M unit.

(** [x[key]] on an intermediate result [x] (line 144).  A section is
    subscripted by [continue], the subscript read of [SimpleSection] with
    [key]; modelled from the spec: an item is not subscriptable, resolving
    through it fails (spec 4.2).  A result that is no object of the store,
    which only a handler of the not-found event can supply, is subscripted
    as Python subscripts plain data. *)
Definition subscript (x key : pyval) (continue : ref -> M pyval) : M pyval :=
  match x with
  | VRef r =>
      o ← get_obj r;
      match o with
      | OConfig _ => continue r
      | OItem _ => raise TypeError
      end
  | _ => lift (py_subscript x key)
  end.

(** The string branch of [_resolve_config_key] (lines 131-138). *)
Definition resolve_name (key : string) (self : ref) : M pyval :=
  c ← get_config self;
  match cfg_get key (_cm__configs c) with
  | Some child => mret (VRef child)
  | None =>
      result ← hooks_handle (NOT_FOUND key self);
      if is_none result then raise (NotFound key self) else mret result
  end.

(** [Config._resolve_config_key] (lines 130-146).  A path of two or more
    segments resolves its head and subscripts the result with the rest,
    [key[1:]], which is again a non-empty path and a tuple or a list as the
    key is. *)
Fixpoint _resolve_config_key (key : pyval) (self : ref) {struct key}
  : M pyval :=
  match key with
  | VStr k => resolve_name k self
  | VTuple segments =>
      (fix path (l : list pyval) (self : ref) {struct l} : M pyval :=
         match l with
         | [] => raise TypeError
         | k0 :: rest =>
             match rest with
             | [] => _resolve_config_key k0 self
             | _ :: _ =>
                 x ← _resolve_config_key k0 self;
                 subscript x (VTuple rest) (path rest)
             end
         end) segments self
  | VList segments =>
      (fix path (l : list pyval) (self : ref) {struct l} : M pyval :=
         match l with
         | [] => raise TypeError
         | k0 :: rest =>
             match rest with
             | [] => _resolve_config_key k0 self
             | _ :: _ =>
                 x ← _resolve_config_key k0 self;
                 subscript x (VList rest) (path rest)
             end
         end) segments self
  | _ => raise TypeError
  end.

(** Modelled from the spec: the subscript read [self[key]] of
    [SimpleSection], and the attribute read [self.name] of a name that is
    no attribute of the instance, are the resolution of the key (spec 4.2,
    [resolve]). *)
Definition getitem (key : pyval) (self : ref) : M pyval :=
  _resolve_config_key key self.

(** Modelled from the spec: the membership test of [SimpleSection]
    ([name in self]) looks at the direct children only; a key that is not
    a string is bound to nothing. *)
Definition contains (name : pyval) (self : ref) : M bool :=
  c ← get_config self;
  mret (match name with
        | VStr k => cfg_mem k (_cm__configs c)
        | _ => false
        end).

(** Modelled from the spec: [SimpleSection.add_item] (spec 4.2).  It
    stores a deep copy of [item], a new object, whose name is the item's
    own when set and [alias] otherwise, and binds the copy under its name
    and under [alias], so that both resolve.  An alias that is not a
    string is refused. *)
Definition SimpleSection_add_item (alias item : pyval) (self : ref)
  : M unit :=
  match alias with
  | VStr a =>
      match item with
      | VRef r =>
          it ← get_item r;
          let n := default a (item_name it) in
          copy ← alloc (OItem (mkItem (Some n) (item_type it)
                                 (item_default it) (item_value it)));
          c ← get_config self;
          put_obj self
            (OConfig (mkConfig
                        (cfg_set a copy (cfg_set n copy (_cm__configs c)))
                        (_cm__section c) (_cm__section_alias c)))
      | _ => raise AttributeError
      end
  | _ => raise TypeError
  end.

(** Modelled from the spec: [SimpleSection.add_section] (spec 4.2).  It
    binds [section] itself, not a copy, under [alias] and records the
    alias and the parent in it. *)
Definition SimpleSection_add_section (alias section : pyval) (self : ref)
  : M unit :=
  match alias with
  | VStr a =>
      match section with
      | VRef r =>
          get_config r;;
          c ← get_config self;
          put_obj self
            (OConfig (mkConfig (cfg_set a r (_cm__configs c))
                        (_cm__section c) (_cm__section_alias c)));;
          s ← get_config r;
          put_obj r (OConfig (mkConfig (_cm__configs s) (Some self) (Some a)))
      | _ => raise AttributeError
      end
  | _ => raise TypeError
  end.

(** [Config.add_item] (lines 386-396). *)
Definition add_item (alias item : pyval) (self : ref) : M unit :=
  SimpleSection_add_item alias item self;;
  item ← getitem alias self;
  hooks_handle (ITEM_ADDED_TO_SECTION alias self item);;
  mret tt.

(** [Config.add_section] (lines 398-403). *)
Definition add_section (alias section : pyval) (self : ref) : M unit :=
  SimpleSection_add_section alias section self;;
  hooks_handle (SECTION_ADDED_TO_SECTION alias self section);;
  mret tt.

(** Modelled from the spec: the subscript write [self[key] = value] of
    [SimpleSection].  An item is added with [add_item], a section with
    [add_section]; a bare value is refused with a type error (spec 4.2). *)
Definition setitem (key value : pyval) (self : ref) : M unit := fun h =>
  (if is_config_item value h then add_item key value self
   else if is_config_section value h then add_section key value self
   else raise TypeError) h.

(** A name with one of the prefixes that configmanager keeps for its own
    attributes, as in [self._cm__json_adapter] and [self.cm__item_cls]
    (lines 110-122). *)
Definition reserved (name : string) : bool :=
  String.prefix "cm__" name || String.prefix "_cm__" name.

(** Modelled from the spec: the attribute write [self.name = value] of
    [SimpleSection].  A reserved name is an attribute of the instance and
    is assigned as such, which is how [__init__] sets its adapters to
    [None] (lines 110-113); any other name is the subscript write under the
    key [name]. *)
Definition setattr (name : string) (value : pyval) (self : ref) : M unit :=
  if reserved name then object_setattr name value self
  else setitem (VStr name) value self.

(** Modelled from the spec: [x.value = v] on the object [x], the write of
    [Item.value] in the store. *)
Definition item_set_value (x v : pyval) : M unit :=
  match x with
  | VRef r =>
      it ← get_item r;
      it' ← lift (set_value coerce v it);
      put_obj r (OItem it')
  | _ => raise AttributeError
  end.

(** Modelled from the spec: [x.default = v] on the object [x]. *)
Definition item_set_default (x v : pyval) : M unit :=
  match x with
  | VRef r =>
      it ← get_item r;
      it' ← lift (set_default coerce v it);
      put_obj r (OItem it')
  | _ => raise AttributeError
  end.

(** [self[key].value = v]: the write through the item bound under
    [key]. *)
Definition write_through_value (key v : pyval) (self : ref) : M unit :=
  x ← getitem key self;
  item_set_value x v.

(** [Config.create_item] (lines 372-377) with the arguments [load_values]
    gives it: [cm__item_cls(name, default=default)]. *)
Definition create_item (name default : pyval) : M pyval :=
  it ← lift (Item_init name default);
  r ← alloc (OItem it);
  mret (VRef r).

(** [Config.create_section] (lines 379-384) without arguments:
    [self.__class__()], an empty detached section. *)
Definition create_section : M pyval :=
  r ← alloc (OConfig (mkConfig [] None None));
  mret (VRef r).

(** [x.load_values(...)] on the object [x]: only sections have the
    method. *)
Definition call_on_section {A} (x : pyval) (method : ref -> M A) : M A :=
  match x with
  | VRef r =>
      o ← get_obj r;
      match o with
      | OConfig _ => method r
      | OItem _ => raise AttributeError
      end
  | _ => raise AttributeError
  end.

(** One turn of the loop of [load_values] (lines 258-274), for the entry
    [name: value]; [recur] is [load_values(value, as_defaults)] on the
    section it is given. *)
Definition load_entry (recur : ref -> M unit) (name value : pyval)
    (as_defaults : bool) (self : ref) : M unit :=
  known ← contains name self;
  if negb known then
    if as_defaults then
      if is_dict value then
        s ← create_section;
        setitem name s self;;
        x ← getitem name self;
        call_on_section x recur
      else
        it ← create_item name value;
        setitem name it self
    else
      mret tt
  else
    x ← getitem name self;
    is_item ← (fun h => (Ok (is_config_item x h), h));
    if is_item : bool then
      x ← getitem name self;
      if as_defaults then item_set_default x value
      else item_set_value x value
    else
      x ← getitem name self;
      call_on_section x recur.

(** [Config.load_values] (lines 242-274).  [dictionary.items()] needs a
    dictionary; the recursion goes into the values of its entries. *)
Fixpoint load_values (dictionary : pyval) (as_defaults : bool) (self : ref)
    {struct dictionary} : M unit :=
  match dictionary with
  | VDict entries =>
      (fix loop (l : list (pyval * pyval)) : M unit :=
         match l with
         | [] => mret tt
         | (name, value) :: l' =>
             load_entry (load_values value as_defaults) name value
               as_defaults self;;
             loop l'
         end) entries
  | _ => raise AttributeError
  end.

(** The turn of the loop for a string key [name], as [load_values] runs
    it. *)
Definition load_key (name : string) (value : pyval) (as_defaults : bool)
    (self : ref) : M unit :=
  load_entry (load_values value as_defaults) (VStr name) value as_defaults
    self.
End Managers.

(** ** Export: [dump_values] *)

(** The loop of [dump_values] (lines 231-239) over the entries of
    [_cm__configs]; [values] is the dictionary built so far and [dump_child]
    is [dump_values] of a child section. *)
Fixpoint dump_entries (dump_child : ref -> outcome pydict)
    (with_defaults : bool) (h : heap) (entries : list (string * ref))
    (values : pydict) : outcome pydict :=
  match entries with
  | [] => Ok values
  | (item_name, r) :: rest =>
      match h !! r with
      | Some (OConfig _) =>
          match dump_child r with
          | Ok section_values =>
              dump_entries dump_child with_defaults h rest
                (if dict_truthy section_values
                 then py_set (VStr item_name) (VDict section_values) values
                 else values)
          | Raise e => Raise e
          end
      | Some (OItem it) =>
          if has_value it then
            if with_defaults || negb (item_is_default it) then
              match get_value it with
              | Ok v =>
                  dump_entries dump_child with_defaults h rest
                    (py_set (name_of it) v values)
              | Raise e => Raise e
              end
            else dump_entries dump_child with_defaults h rest values
          else dump_entries dump_child with_defaults h rest values
      | None => Raise NoSuchObject
      end
  end.

(** [Config.dump_values] (lines 219-240), with [dict_cls] left at [dict].  It
    only reads the store.  [fuel] bounds the depth of the recursion into
    sub-sections, as the interpreter's recursion limit does. *)
Fixpoint dump_values (fuel : nat) (with_defaults : bool) (self : ref)
    (h : heap) : outcome pydict :=
  match fuel with
  | 0 => Raise RecursionError
  | S fuel' =>
      match h !! self with
      | Some (OConfig c) =>
          dump_entries (fun r => dump_values fuel' with_defaults r h)
            with_defaults h (_cm__configs c) []
      | Some (OItem _) => Raise AttributeError
      | None => Raise NoSuchObject
      end
  end.

(** [items_within P n h r]: [r] is a section, every reference at or below
    it is live, sections nest at most [n] levels deep from [r] on, and every
    item met on the way satisfies [P]. *)
Fixpoint items_within (P : Item -> bool) (n : nat) (h : heap) (r : ref)
  : bool :=
  match n with
  | 0 => false
  | S n' =>
      match h !! r with
      | Some (OConfig c) =>
          forallb (fun kr : string * ref =>
                     match h !! kr.2 with
                     | Some (OItem it) => P it
                     | Some (OConfig _) => items_within P n' h kr.2
                     | None => false
                     end) (_cm__configs c)
      | _ => false
      end
  end.

(** A section tree of depth at most [n], whatever its items. *)
Definition tree_within : nat -> heap -> ref -> bool :=
  items_within (fun _ => true).

(** [reaches h s r]: the object [r] is a child of the section [s] or of a
    section below it, at any depth. *)
Inductive reaches (h : heap) : ref -> ref -> Prop :=
| reaches_child s c k r :
    h !! s = Some (OConfig c) -> In (k, r) (_cm__configs c) -> reaches h s r
| reaches_below s c k m r :
    h !! s = Some (OConfig c) -> In (k, m) (_cm__configs c) ->
    reaches h m r -> reaches h s r.

(** ** Traversal: [iter_all], [iter_items] *)

(** Modelled from the spec: the [key=] modes of the iterators (spec 4.3). *)
Inductive iter_key : Type :=
| KeyPath                         (* [key='path'], the default *)
| KeyStrPath (separator : string) (* [key='str_path'] *)
| KeyName                         (* [key='name'] or [key='alias'] *)
| KeyNone.                        (* [key=None] *)

(** What an iterator yields: a bare child, or a [(key, child)] pair. *)
Inductive yielded : Type :=
| Bare (child : ref)
| Keyed (key : pyval) (child : ref).

Definition child_of (x : yielded) : ref :=
  match x with Bare c => c | Keyed _ c => c end.

(** Modelled from the spec: the path joined with the separator, for
    [key='str_path'] (spec 4.3). *)
Fixpoint join_path (separator : string) (path : list pyval) : option string :=
  match path with
  | [] => Some ""
  | [VStr s] => Some s
  | VStr s :: rest =>
      (fun t => s ++ separator ++ t)%string <$> join_path separator rest
  | _ => None
  end.

(** Modelled from the spec: the result key [iter_all] gives a child
    reached by [path] (spec 4.3). *)
Definition result_key (key : iter_key) (path : list pyval) (child : ref)
  : outcome yielded :=
  match key with
  | KeyPath => Ok (Keyed (VTuple path) child)
  | KeyStrPath separator =>
      match join_path separator path with
      | Some s => Ok (Keyed (VStr s) child)
      | None => Raise TypeError
      end
  | KeyName => Ok (Keyed (List.last path VNotSet) child)
  | KeyNone => Ok (Bare child)
  end.

Definition seen_before (r : ref) (seen : list ref) : bool :=
  existsb (Nat.eqb r) seen.

(** Modelled from the spec: the traversal behind [SimpleSection.iter_all]
    (spec 4.3) without a [path=] scope.  Each child is met once, in the order
    in which it was first bound, with the path of explicit names that leads
    to it: an item is named by its own name, a section by the key it is
    bound under.  With [recursive] the walk descends into each section right
    after meeting it (depth first, pre-order). *)
Fixpoint walk_entries
    (walk_child : list pyval -> ref -> outcome (list (list pyval * ref)))
    (recursive : bool) (h : heap) (prefix : list pyval)
    (entries : list (string * ref)) (seen : list ref)
    : outcome (list (list pyval * ref)) :=
  match entries with
  | [] => Ok []
  | (k, r) :: rest =>
      if seen_before r seen then
        walk_entries walk_child recursive h prefix rest seen
      else
        match h !! r with
        | Some (OItem it) =>
            match walk_entries walk_child recursive h prefix rest
                    (r :: seen) with
            | Ok more => Ok ((prefix ++ [name_of it], r) :: more)
            | Raise e => Raise e
            end
        | Some (OConfig _) =>
            let here := prefix ++ [VStr k] in
            match (if recursive then walk_child here r else Ok []) with
            | Ok below =>
                match walk_entries walk_child recursive h prefix rest
                        (r :: seen) with
                | Ok more => Ok ((here, r) :: below ++ more)
                | Raise e => Raise e
                end
            | Raise e => Raise e
            end
        | None => Raise NoSuchObject
        end
  end.

(** Modelled from the spec: the walk of [SimpleSection.iter_all] from the
    section [self]; [fuel] bounds the depth of the recursion. *)
Fixpoint walk (fuel : nat) (recursive : bool) (h : heap)
    (prefix : list pyval) (self : ref) : outcome (list (list pyval * ref)) :=
  match fuel with
  | 0 => Raise RecursionError
  | S fuel' =>
      match h !! self with
      | Some (OConfig c) =>
          walk_entries (walk fuel' recursive h) recursive h prefix
            (_cm__configs c) []
      | Some (OItem _) => Raise AttributeError
      | None => Raise NoSuchObject
      end
  end.

(** Modelled from the spec: the walk put in the form the [key=] mode asks
    for (spec 4.3). *)
Fixpoint key_all (key : iter_key) (l : list (list pyval * ref))
  : outcome (list yielded) :=
  match l with
  | [] => Ok []
  | (path, child) :: l' =>
      match result_key key path child, key_all key l' with
      | Ok x, Ok xs => Ok (x :: xs)
      | Raise e, _ => Raise e
      | _, Raise e => Raise e
      end
  end.

(** Modelled from the spec: [SimpleSection.iter_all(recursive, key=key)]
    (spec 4.3).  The generator is taken as the list of what it yields over
    an unchanging section structure. *)
Definition iter_all (fuel : nat) (recursive : bool) (key : iter_key)
    (self : ref) (h : heap) : outcome (list yielded) :=
  match walk fuel recursive h [] self with
  | Ok l => key_all key l
  | Raise e => Raise e
  end.

(** Modelled from the spec: [x.is_item] of a yielded child. *)
Definition is_item (h : heap) (r : ref) : bool :=
  is_config_item (VRef r) h.

(** [Config.iter_items] (lines 148-171): with [key=None] the bare children
    that are items, otherwise the pairs whose second component is one. *)
Definition iter_items (fuel : nat) (recursive : bool) (key : iter_key)
    (self : ref) (h : heap) : outcome (list yielded) :=
  match iter_all fuel recursive key self h with
  | Ok xs =>
      Ok (List.filter
            (fun x =>
               match key with
               | KeyNone => is_item h (child_of x)
               | _ => is_item h (child_of x)
               end) xs)
  | Raise e => Raise e
  end.

(** ** [reset] and [is_default] *)

(** The loop of [reset]: [item.reset()] on each yielded item. *)
Fixpoint reset_each (xs : list yielded) : M unit :=
  match xs with
  | [] => mret tt
  | x :: rest =>
      it ← get_item (child_of x);
      put_obj (child_of x) (OItem (item_reset it));;
      reset_each rest
  end.

(** [Config.reset] (lines 276-282).  Resetting an item does not change
    which children a section has, so the items are enumerated first. *)
Definition reset (fuel : nat) (self : ref) : M unit := fun h =>
  match iter_items fuel true KeyPath self h with
  | Ok xs => reset_each xs h
  | Raise e => (Raise e, h)
  end.

(** The loop of [is_default], leaving at the first item that is not at its
    default. *)
Fixpoint all_default (h : heap) (xs : list yielded) : outcome bool :=
  match xs with
  | [] => Ok true
  | x :: rest =>
      match h !! child_of x with
      | Some (OItem it) =>
          if negb (item_is_default it) then Ok false else all_default h rest
      | Some (OConfig _) => Raise AttributeError
      | None => Raise NoSuchObject
      end
  end.

(** [Config.is_default] (lines 284-293). *)
Definition is_default (fuel : nat) (self : ref) (h : heap) : outcome bool :=
  match iter_items fuel true KeyPath self h with
  | Ok xs => all_default h xs
  | Raise e => Raise e
  end.

(** ** Construction from a declaration *)

(** The truth value of a value, as in [if config_declaration:].  A
    section is true when it has children, by its [len] (class docstring,
    lines 94-97); any other instance is true. *)
Definition truthy (v : pyval) (h : heap) : bool :=
  match v with
  | VNone => false
  | VNotSet => true
  | VBool b => b
  | VInt n => negb (n =? 0)%Z
  | VStr s => negb (s =? "")%string
  | VTuple xs | VList xs => match xs with [] => false | _ => true end
  | VDict kvs => dict_truthy kvs
  | VRef r =>
      match h !! r with
      | Some (OConfig c) => dict_truthy (_cm__configs c)
      | _ => true
      end
  end.

Section Declaration.
Variable hooks_handle : hook_event -> M pyval.

(** Modelled from the spec: the [ConfigDeclarationParser] of
    [configmanager/parsers.py], for dictionary declarations (spec 3,
    lifecycle of a section).  A nested dictionary becomes a section built
    from it and attached by reference; an [Item] or [Config] instance is
    added as it is; any other value becomes the default of a new item.
    Declarations of other kinds (lists, classes, modules) are not
    modelled. *)
Fixpoint process_declaration (declaration : pyval) (self : ref)
    {struct declaration} : M unit :=
  match declaration with
  | VDict entries =>
      (fix loop (l : list (pyval * pyval)) : M unit :=
         match l with
         | [] => mret tt
         | (k, v) :: l' =>
             match v with
             | VDict sub =>
                 s ← alloc (OConfig (mkConfig [] None None));
                 (if dict_truthy sub then process_declaration v s
                  else mret tt);;
                 add_section hooks_handle k (VRef s) self
             | VRef _ => setitem hooks_handle k v self
             | _ =>
                 it ← create_item VNotSet v;
                 add_item hooks_handle k it self
             end;;
             loop l'
         end) entries
  | _ => raise TypeError
  end.

(** [Config.__init__] (lines 108-125) with [item_cls] and
    [configparser_factory] left out: an empty section, then the
    declaration, if there is one, handed to the parser. *)
Definition Config_init (config_declaration : pyval) : M pyval :=
  self ← alloc (OConfig (mkConfig [] None None));
  given ← (fun h => (Ok (truthy config_declaration h), h));
  (if given : bool
   then process_declaration config_declaration self
   else mret tt);;
  mret (VRef self).
End Declaration.

(** ** Notions used to state the properties *)

(** A key that [_resolve_config_key] takes as a path: a non-empty tuple or
    list. *)
Definition is_path (key : pyval) : bool :=
  match key with
  | VTuple (_ :: _) | VList (_ :: _) => true
  | _ => false
  end.


(** [contributes fuel with_defaults h k r key v]: the child [r], bound under
    [k], puts the entry [key: v] into the dictionary that [dump_values]
    builds.  An item does so under its own name when it has a value and
    either defaults are asked for or it is not at its default; a section
    does so under the key it is bound to when its own dump is not empty. *)
Definition contributes (fuel : nat) (with_defaults : bool) (h : heap)
    (k : string) (r : ref) (key v : pyval) : Prop :=
  (exists it,
      h !! r = Some (OItem it) /\ has_value it = true /\
      (with_defaults = true \/ item_is_default it = false) /\
      key = name_of it /\ get_value it = Ok v)
  \/
  (exists c d,
      h !! r = Some (OConfig c) /\ dump_values fuel with_defaults r h = Ok d /\
      d <> [] /\ key = VStr k /\ v = VDict d).

(** The declaration [{'a': 1, 'b': {'c': 2}}]. *)
Definition declaration_ab : pyval :=
  VDict [(VStr "a", VInt 1); (VStr "b", VDict [(VStr "c", VInt 2)])].

(** A handler of the "item added" event that writes to the item it is
    notified of: [subject.value = v]. *)
Definition overwrite_subject (coerce : pytype -> pyval -> option pyval)
    (v : pyval) (ev : hook_event) : M pyval :=
  match ev with
  | ITEM_ADDED_TO_SECTION _ _ subject =>
      item_set_value coerce subject v;; mret VNone
  | _ => mret VNone
  end.

(** A dispatch whose handlers, on "item added", write to nothing but the
    item they are notified of. *)
Definition writes_subject_only (hooks_handle : hook_event -> M pyval) : Prop :=
  forall alias section subject h r,
    r <> subject ->
    (hooks_handle (ITEM_ADDED_TO_SECTION alias section (VRef subject)) h).2 !! r
    = h !! r.

(** The store that [Config({'a': 1, 'b': {'c': 2}})] adds to a store of
    [n] objects: the section, then, for each item, the detached item the
    parser creates and the copy the section keeps. *)
Definition built_ab (n : nat) : heap :=
  [ OConfig (mkConfig [("a", n + 2); ("b", n + 3)] None None);
    OItem (mkItem None (Some TInt) (Some (VInt 1)) None);
    OItem (mkItem (Some "a") (Some TInt) (Some (VInt 1)) None);
    OConfig (mkConfig [("c", n + 5)] (Some (n + 0)) (Some "b"));
    OItem (mkItem None (Some TInt) (Some (VInt 2)) None);
    OItem (mkItem (Some "c") (Some TInt) (Some (VInt 2)) None) ].

(** A small store: the section [0] holds the integer item [x] (object [1])
    and the section [s] (object [2]) with the boolean item [flag]
    (object [3]), which is bound under the alias [f] as well. *)
Definition section_x : Config :=
  mkConfig [("x", 1); ("s", 2)] None None.

Definition store_x : heap :=
  [ OConfig section_x;
    OItem (mkItem (Some "x") (Some TInt) (Some (VInt 5)) None);
    OConfig (mkConfig [("flag", 3); ("f", 3)] (Some 0) (Some "s"));
    OItem (mkItem (Some "flag") (Some TBool) (Some (VBool true))
             (Some (VBool false))) ].

(** What [add_item alias item] stores: the copy of [it] the section keeps,
    and the section's mapping with the copy, the object [copy], bound under
    its name and under [alias]. *)
Definition stored_copy (alias : string) (it : Item) : Item :=
  mkItem (Some (default alias (item_name it))) (item_type it)
    (item_default it) (item_value it).

Definition with_item (alias : string) (it : Item) (copy : ref) (c : Config)
  : Config :=
  mkConfig
    (cfg_set alias copy
       (cfg_set (default alias (item_name it)) copy (_cm__configs c)))
    (_cm__section c) (_cm__section_alias c).

(** What [add_section alias section] leaves in the store [h]: the parent
    [self] binds the section [r] under [alias], and the section records its
    alias and its parent. *)
Definition with_section (alias : string) (r : ref) (c : Config) : Config :=
  mkConfig (cfg_set alias r (_cm__configs c))
    (_cm__section c) (_cm__section_alias c).

Definition attached (alias : string) (self : ref) (s : Config) : Config :=
  mkConfig (_cm__configs s) (Some self) (Some alias).

(** The item [load_values(..., as_defaults=True)] creates for an unknown
    key: named by the key, with the supplied value as its default. *)
Definition declared_item (name : string) (value : pyval) : Item :=
  mkItem (Some name)
    (match value with VNotSet => None | _ => type_of value end)
    (match value with VNotSet => None | _ => Some value end) None.

(** Two stores have the same shape when they hold the same sections and,
    at the same references, items of the same names. *)
Definition same_shape (h h' : heap) : Prop :=
  forall r,
    match h !! r, h' !! r with
    | Some (OConfig c), Some (OConfig c') => c = c'
    | Some (OItem it), Some (OItem it') => item_name it = item_name it'
    | None, None => True
    | _, _ => False
    end.

(** ** Scripts after the tests of the repository

    Runs of [tests/test_config.py] in the model, from the empty store, with
    no handler registered; the tests call [dump_values] [to_dict] and
    [load_values] [read_dict]. *)

(** An attribute assignment that touches nothing of the state kept here,
    as for the adapters [__init__] sets to [None]. *)
Definition untracked_setattr (name : string) (value : pyval) (self : ref)
  : M unit := mret tt.

(** Runs a script and keeps the store it leaves. *)
Definition store_after {A} (script : M A) : heap := (script []).2.

(** [test_assigning_item_with_name_directly_to_config_should_preserve_its_name]:
    [config] is object [0] and [config.dummy] object [1]; the items
    [Item(name='a.b', value='AB')] and [Item(name='www', value=6)] are
    assigned to [config.dummy.a_b] and [config.dummy['w']], and their stored
    copies are the objects [3] and [5]. *)
Definition script_named_items : M unit :=
  config ← Config_init no_hooks VNone;
  dummy ← Config_init no_hooks VNone;
  call_on_section config (setattr no_hooks untracked_setattr "dummy" dummy);;
  ab ← alloc (OItem (mkItem (Some "a.b") (Some TStr) None (Some (VStr "AB"))));
  call_on_section dummy
    (setattr no_hooks untracked_setattr "a_b" (VRef ab));;
  www ← alloc (OItem (mkItem (Some "www") (Some TInt) None (Some (VInt 6))));
  call_on_section dummy (setitem no_hooks (VStr "w") (VRef www)).

(** [test_read_dict_recursively_loads_values_from_a_dictionary], for the
    section [a] with the integer [x] and the boolean [y]: the values ['5']
    and ['no'] are loaded, and the unknown key [e] alongside. *)
Definition script_read_dict : M unit :=
  config ← Config_init no_hooks
    (VDict [(VStr "a", VDict [(VStr "x", VInt 0); (VStr "y", VBool true)])]);
  call_on_section config
    (load_values spec_coerce no_hooks
       (VDict [(VStr "a", VDict [(VStr "x", VStr "5"); (VStr "y", VStr "no")]);
               (VStr "e", VStr "haha")])
       false).

(** ** Further methods of [Config] *)

(** Modelled from the spec: [x.is_section] of a yielded child. *)
Definition is_section (h : heap) (r : ref) : bool :=
  is_config_section (VRef r) h.

(** [Config.iter_sections] (lines 173-195): with [key=None] the bare
    children that are sections, otherwise the pairs whose second component
    is one. *)
Definition iter_sections (fuel : nat) (recursive : bool) (key : iter_key)
    (self : ref) (h : heap) : outcome (list yielded) :=
  match iter_all fuel recursive key self h with
  | Ok xs =>
      Ok (List.filter
            (fun x =>
               match key with
               | KeyNone => is_section h (child_of x)
               | _ => is_section h (child_of x)
               end) xs)
  | Raise e => Raise e
  end.

(** The result of a method that starts with an [assert]: the assertion
    fails, or the body runs. *)
Inductive asserted (A : Type) : Type :=
| AssertionError
| Passed (a : A).
Arguments AssertionError {A}.
Arguments Passed {A} a.

(** The loop of [iter_paths]: [for path, _ in ...: yield path].  A yielded
    value that is not a pair cannot be unpacked. *)
Fixpoint paths_of (xs : list yielded) : outcome (list pyval) :=
  match xs with
  | [] => Ok []
  | Keyed path _ :: rest =>
      match paths_of rest with
      | Ok paths => Ok (path :: paths)
      | Raise e => Raise e
      end
  | Bare _ :: _ => Raise TypeError
  end.

(** [Config.iter_paths] (lines 197-217): [key=None] fails the assertion
    before anything is iterated. *)
Definition iter_paths (fuel : nat) (recursive : bool) (key : iter_key)
    (self : ref) (h : heap) : asserted (outcome (list pyval)) :=
  match key with
  | KeyNone => AssertionError
  | _ =>
      Passed (match iter_all fuel recursive key self h with
              | Ok xs => paths_of xs
              | Raise e => Raise e
              end)
  end.

(** [Config.section] (lines 295-302): the parent recorded when the section
    was attached, [None] for a detached section. *)
Definition section (self : ref) : M pyval :=
  c ← get_config self;
  mret (match _cm__section c with Some parent => VRef parent | None => VNone end).

(** [Config.alias] (lines 304-313). *)
Definition alias (self : ref) : M pyval :=
  c ← get_config self;
  mret (match _cm__section_alias c with Some a => VStr a | None => VNone end).

(** ** Further notions used to state the properties *)

(** The child reached from the section [self] by following the bound names
    [names] one after the other; every object on the way but the last must
    be a section. *)
Fixpoint lookup_path (h : heap) (self : ref) (names : list string)
  : option ref :=
  match names with
  | [] => Some self
  | k :: rest =>
      match h !! self with
      | Some (OConfig c) =>
          match cfg_get k (_cm__configs c) with
          | Some child => lookup_path h child rest
          | None => None
          end
      | _ => None
      end
  end.

(** A handler of the not-found event that supplies, for whatever name is
    missing, the dictionary [{('b',): 7}]. *)
Definition dict_fallback (ev : hook_event) : M pyval :=
  match ev with
  | NOT_FOUND _ _ => mret (VDict [(VTuple [VStr "b"], VInt 7)])
  | _ => mret VNone
  end.

(** A dispatch that supplies children only: what its handlers return for
    the not-found event is [None] or an instance (spec 4.2, "may supply a
    fallback child"). *)
Definition supplies_children (hooks_handle : hook_event -> M pyval) : Prop :=
  forall name section (h h' : heap) result,
    hooks_handle (NOT_FOUND name section) h = (Ok result, h') ->
    result = VNone \/ exists r, result = VRef r.

(** A dispatch whose handlers leave the store as it is. *)
Definition read_only (hooks_handle : hook_event -> M pyval) : Prop :=
  forall ev (h : heap), (hooks_handle ev h).2 = h.

(** A dispatch whose handlers return and leave the store as it is. *)
Definition quiet (hooks_handle : hook_event -> M pyval) : Prop :=
  forall ev (h : heap), exists result, hooks_handle ev h = (Ok result, h).

(** The keys of the entries are strings and no key comes twice, as in a
    dictionary of named values. *)
Fixpoint distinct_names (entries : list (pyval * pyval)) : bool :=
  match entries with
  | [] => true
  | (VStr k, _) :: rest =>
      match py_get (VStr k) rest with
      | None => distinct_names rest
      | Some _ => false
      end
  | _ => false
  end.

(** A value that [load_values(..., as_defaults=True)] declares and
    [dump_values] gives back: a dictionary that is not empty, or data that
    is neither a dictionary, nor [not_set], nor an object. *)
Definition plain_value (plain_dict : pyval -> bool) (v : pyval) : bool :=
  match v with
  | VDict [] => false
  | VDict (_ :: _) => plain_dict v
  | VNotSet | VRef _ => false
  | _ => true
  end.

(** A dictionary of plain data, nested to any depth: the keys are distinct
    strings and every value is plain. *)
Fixpoint plain_dict (v : pyval) : bool :=
  match v with
  | VDict entries =>
      distinct_names entries
      && forallb (fun kv : pyval * pyval => plain_value plain_dict kv.2)
           entries
  | _ => false
  end.

(** The nesting depth of the values of a dictionary's entries, and of a
    dictionary: [1] when no value is a dictionary. *)
Definition entries_depth (depth : pyval -> nat)
    (entries : list (pyval * pyval)) : nat :=
  list_max (map (fun kv => depth kv.2) entries).

Fixpoint dict_depth (v : pyval) : nat :=
  match v with
  | VDict entries => S (entries_depth dict_depth entries)
  | _ => 0
  end.

(** [loads_to h self c entries h']: the store [h'] is the store [h], where
    [self] was the section [c], after the entries were declared in [self].
    New objects were added at the end, no object of [h] but [self]
    changed, [self] has new bindings after those it had, and the dump of
    the new bindings, in any store that agrees with [h'] on the new
    objects, appends the entries to the dictionary built so far when
    defaults are asked for and nothing when they are not. *)
Definition loads_to (h : heap) (self : ref) (c : Config)
    (entries : list (pyval * pyval)) (h' : heap) : Prop :=
  exists bindings : list (string * ref),
    length h <= length h'
    /\ (forall x, x < length h -> x <> self -> h' !! x = h !! x)
    /\ h' !! self
       = Some (OConfig (mkConfig (_cm__configs c ++ bindings)
                          (_cm__section c) (_cm__section_alias c)))
    /\ (forall (h'' : heap) fuel values,
          (forall x, length h <= x < length h' -> h'' !! x = h' !! x) ->
          entries_depth dict_depth entries <= fuel ->
          (forall k v, In (k, v) entries -> py_get k values = None) ->
          dump_entries (fun r => dump_values fuel true r h'') true h''
            bindings values
          = Ok (values ++ entries))
    /\ (forall (h'' : heap) fuel values,
          (forall x, length h <= x < length h' -> h'' !! x = h' !! x) ->
          entries_depth dict_depth entries <= fuel ->
          dump_entries (fun r => dump_values fuel false r h'') false h''
            bindings values
          = Ok values).

(** What [load_values(..., as_defaults=True)] does with a dictionary of
    plain data none of whose keys the section knows. *)
Definition declares (coerce : pytype -> pyval -> option pyval)
    (hooks_handle : hook_event -> M pyval) (v : pyval) : Prop :=
  forall entries,
    v = VDict entries ->
    plain_dict v = true ->
    forall self c (h : heap),
      h !! self = Some (OConfig c) ->
      (forall k x, In (VStr k, x) entries ->
                   cfg_get k (_cm__configs c) = None) ->
      exists h',
        load_values coerce hooks_handle v true self h = (Ok tt, h')
        /\ loads_to h self c entries h'.

(** A store in which every mapping binds each of its keys once and binds
    every item under the item's own name. *)
Definition well_bound (h : heap) : Prop :=
  forall s c k r,
    h !! s = Some (OConfig c) ->
    In (k, r) (_cm__configs c) ->
    cfg_get k (_cm__configs c) = Some r
    /\ forall it,
         h !! r = Some (OItem it) ->
         exists n, item_name it = Some n
                   /\ cfg_get n (_cm__configs c) = Some r.

(** The dictionary that holds the one value [v] under the nested keys
    [names]: [{'a': {'b': v}}] for the names [a], [b]. *)
Fixpoint nested (names : list string) (v : pyval) : pyval :=
  match names with
  | [] => v
  | k :: rest => VDict [(VStr k, nested rest v)]
  end.

(** * Properties *)

(** ** Computations *)

Lemma bind_unfold {A B} (m : M A) (f : A -> M B) (h : heap) :
  (m ≫= f) h =
  match m h with
  | (Ok a, h') => f a h'
  | (Raise e, h') => (Raise e, h')
  end.
Proof. reflexivity. Qed.

Lemma bind_ok {A B} (m : M A) (f : A -> M B) h a h' :
  m h = (Ok a, h') -> (m ≫= f) h = f a h'.
Proof. intros E. rewrite bind_unfold, E. reflexivity. Qed.

Lemma get_obj_some r o (h : heap) : h !! r = Some o -> get_obj r h = (Ok o, h).
Proof. intros E. unfold get_obj. rewrite E. reflexivity. Qed.

Lemma get_config_some self c (h : heap) :
  h !! self = Some (OConfig c) -> get_config self h = (Ok c, h).
Proof.
  intros E. unfold get_config. rewrite (bind_ok _ _ _ _ _ (get_obj_some _ _ _ E)).
  reflexivity.
Qed.

Lemma get_item_some r it (h : heap) :
  h !! r = Some (OItem it) -> get_item r h = (Ok it, h).
Proof.
  intros E. unfold get_item. rewrite (bind_ok _ _ _ _ _ (get_obj_some _ _ _ E)).
  reflexivity.
Qed.

(** ** Resolution of keys and paths *)

Section Resolution.
Variable hooks_handle : hook_event -> M pyval.

Lemma resolve_name_found self c key child (h : heap) :
  h !! self = Some (OConfig c) ->
  cfg_get key (_cm__configs c) = Some child ->
  _resolve_config_key hooks_handle (VStr key) self h = (Ok (VRef child), h).
Proof.
  intros Hs Hk. cbn. unfold resolve_name.
  rewrite (bind_ok _ _ _ _ _ (get_config_some _ _ _ Hs)), Hk. reflexivity.
Qed.

Lemma resolve_name_absent self c key (h : heap) :
  h !! self = Some (OConfig c) ->
  cfg_get key (_cm__configs c) = None ->
  _resolve_config_key hooks_handle (VStr key) self h =
  match hooks_handle (NOT_FOUND key self) h with
  | (Ok result, h') =>
      if is_none result then (Raise (NotFound key self), h')
      else (Ok result, h')
  | (Raise e, h') => (Raise e, h')
  end.
Proof.
  intros Hs Hk. cbn. unfold resolve_name.
  rewrite (bind_ok _ _ _ _ _ (get_config_some _ _ _ Hs)), Hk.
  rewrite bind_unfold. destruct (hooks_handle _ h) as [[result|e] h']; [|reflexivity].
  destruct result; reflexivity.
Qed.

(** An exception raised by a handler of the not-found event passes
    through the resolution. *)
Lemma resolve_name_hook_raises self c key e (h h' : heap) :
  h !! self = Some (OConfig c) ->
  cfg_get key (_cm__configs c) = None ->
  hooks_handle (NOT_FOUND key self) h = (Raise e, h') ->
  _resolve_config_key hooks_handle (VStr key) self h = (Raise e, h').
Proof.
  intros Hs Hk Hh. rewrite (resolve_name_absent _ _ _ _ Hs Hk), Hh. reflexivity.
Qed.

(** C4: single-key resolution.  Whenever the dispatch of the not-found
    event returns [result], resolving the string [key] in a section fails
    with [NotFound(key, section=self)] exactly when the key is absent from
    the section's mapping and [result] is [None]; a bound key resolves to
    its child without consulting the hook; and when the key is absent and
    [result] is not [None], that result is what the resolution returns. *)
Theorem resolve_single_key_not_found self c key result (h h' : heap) :
  h !! self = Some (OConfig c) ->
  hooks_handle (NOT_FOUND key self) h = (Ok result, h') ->
  ((_resolve_config_key hooks_handle (VStr key) self h).1
     = Raise (NotFound key self)
   <-> cfg_get key (_cm__configs c) = None /\ result = VNone)
  /\ (forall child, cfg_get key (_cm__configs c) = Some child ->
      _resolve_config_key hooks_handle (VStr key) self h
      = (Ok (VRef child), h))
  /\ (cfg_get key (_cm__configs c) = None -> result <> VNone ->
      _resolve_config_key hooks_handle (VStr key) self h = (Ok result, h')).
Proof.
  intros Hs Hh. split; [|split].
  - destruct (cfg_get key (_cm__configs c)) as [child|] eqn:Hk.
    + rewrite (resolve_name_found _ _ _ _ _ Hs Hk). cbn.
      split; [discriminate | intros [? _]; discriminate].
    + rewrite (resolve_name_absent _ _ _ _ Hs Hk), Hh.
      destruct result; cbn; split; try discriminate; try (intros [_ ?]; discriminate);
        auto.
  - intros child Hk. exact (resolve_name_found _ _ _ _ _ Hs Hk).
  - intros Hk Hr. rewrite (resolve_name_absent _ _ _ _ Hs Hk), Hh.
    destruct result; try reflexivity. contradiction.
Qed.
Lemma subscript_section x key r c (continue : ref -> M pyval) (h : heap) :
  x = VRef r -> h !! r = Some (OConfig c) ->
  subscript x key continue h = continue r h.
Proof.
  intros -> Hr. unfold subscript.
  rewrite (bind_ok _ _ _ _ _ (get_obj_some _ _ _ Hr)). reflexivity.
Qed.



Lemma subscript_not_section key r (continue : ref -> M pyval) (h : heap) :
  is_config_section (VRef r) h = false ->
  exists e, subscript (VRef r) key continue h = (Raise e, h).
Proof.
  intros Hx. cbn in Hx. unfold subscript, get_obj. rewrite bind_unfold.
  destruct (h !! r) as [[it|c]|]; [| discriminate |].
  - exists TypeError. reflexivity.
  - exists NoSuchObject. reflexivity.
Qed.


Lemma resolve_tuple_cons k0 k1 rest self :
  _resolve_config_key hooks_handle (VTuple (k0 :: k1 :: rest)) self
  = (x ← _resolve_config_key hooks_handle k0 self;
     subscript x (VTuple (k1 :: rest))
       (_resolve_config_key hooks_handle (VTuple (k1 :: rest)))).
Proof. reflexivity. Qed.

Lemma resolve_list_cons k0 k1 rest self :
  _resolve_config_key hooks_handle (VList (k0 :: k1 :: rest)) self
  = (x ← _resolve_config_key hooks_handle k0 self;
     subscript x (VList (k1 :: rest))
       (_resolve_config_key hooks_handle (VList (k1 :: rest)))).
Proof. reflexivity. Qed.


(** C6: a key that is neither a string nor a non-empty tuple or list,
    the empty tuple and the empty list among them, is refused with a
    [TypeError], and the store is left as it was. *)
Theorem resolve_other_key_type_error key self (h : heap) :
  is_str key = false ->
  is_path key = false ->
  _resolve_config_key hooks_handle key self h = (Raise TypeError, h).
Proof.
  intros Hs Hp. destruct key as [| | | | |xs|xs| |]; try reflexivity.
  - discriminate.
  - destruct xs; [reflexivity | discriminate].
  - destruct xs; [reflexivity | discriminate].
Qed.
End Resolution.

(** Witness of [resolve_single_key_not_found]: the key [y] in [store_x]
    with no handler registered. *)
Lemma resolve_single_key_not_found_witness :
  store_x !! 0 = Some (OConfig section_x) /\
  no_hooks (NOT_FOUND "y" 0) store_x = (Ok VNone, store_x) /\
  (_resolve_config_key no_hooks (VStr "y") 0 store_x).1
  = Raise (NotFound "y" 0).
Proof.
  split; [reflexivity|]. split; [reflexivity|].
  apply (resolve_single_key_not_found no_hooks 0 section_x "y" VNone
           store_x store_x eq_refl eq_refl).
  split; reflexivity.
Defined.



(** With the same handler, a path whose rest the dictionary does not hold
    fails with a [KeyError], and a list path with a [TypeError], the rest of
    a list being unhashable. *)
Example dictionary_fallback_errors :
  _resolve_config_key dict_fallback (VTuple [VStr "zz"; VStr "c"]) 0 store_x
  = (Raise (KeyError (VTuple [VStr "c"])), store_x)
  /\ _resolve_config_key dict_fallback (VList [VStr "zz"; VStr "b"]) 0 store_x
     = (Raise TypeError, store_x).
Proof. split; reflexivity. Qed.

(** Witness of [resolve_other_key_type_error]: the empty tuple. *)
Lemma resolve_other_key_type_error_witness :
  is_str (VTuple []) = false /\ is_path (VTuple []) = false /\
  _resolve_config_key no_hooks (VTuple []) 0 store_x
  = (Raise TypeError, store_x).
Proof.
  split; [reflexivity|]. split; [reflexivity|].
  apply (resolve_other_key_type_error no_hooks (VTuple []) 0 store_x);
    reflexivity.
Defined.

(** ** Symbolic runs over an arbitrary store

    A store that extends [h0] is kept in the form [h0 ++ l], with the new
    objects in [l] and their references in the form [length h0 + i]. *)

Lemma lookup_based (h0 l : heap) i : (h0 ++ l) !! (length h0 + i) = l !! i.
Proof. rewrite lookup_app_r by lia. f_equal. lia. Qed.

Lemma length_based (h0 l : heap) : length (h0 ++ l) = length h0 + length l.
Proof. apply length_app. Qed.

Lemma insert_based (h0 l : heap) i o :
  <[length h0 + i := o]> (h0 ++ l) = h0 ++ <[i := o]> l.
Proof. apply insert_app_r. Qed.

Lemma app_based (h0 l l' : heap) : (h0 ++ l) ++ l' = h0 ++ (l ++ l').
Proof. symmetry. apply app_assoc. Qed.

Ltac run_based :=
  repeat (first
    [ rewrite lookup_based | rewrite length_based | rewrite insert_based
    | rewrite app_based | rewrite bind_unfold
    | progress unfold create_item, create_section, add_item, add_section,
        setitem, setattr, getitem, contains, SimpleSection_add_item,
        SimpleSection_add_section, item_set_value, item_set_default,
        call_on_section, get_item, get_config, get_obj, put_obj, alloc, lift,
        write_through_value, raise, resolve_name, no_hooks
    | progress cbn ]).

(** ** Construction and export *)

Lemma Config_init_ab (h0 : heap) :
  Config_init no_hooks declaration_ab h0
  = (Ok (VRef (length h0)), h0 ++ built_ab (length h0)).
Proof.
  rewrite <- (app_nil_r h0) at 1. rewrite <- (Nat.add_0_r (length h0)) at 1.
  unfold Config_init, declaration_ab. run_based. reflexivity.
Qed.

Lemma dump_values_built_ab (h0 : heap) fuel :
  dump_values (S (S fuel)) true (length h0) (h0 ++ built_ab (length h0))
  = Ok [(VStr "a", VInt 1); (VStr "b", VDict [(VStr "c", VInt 2)])].
Proof.
  rewrite <- (Nat.add_0_r (length h0)) at 1.
  unfold built_ab. run_based. reflexivity.
Qed.

(** C1: in whatever store it is built, the section built from the
    declaration [{'a': 1, 'b': {'c': 2}}], with no value set afterwards,
    dumps with defaults to exactly that dictionary, under any recursion
    allowance of two levels or more. *)
Theorem dump_values_roundtrip_declaration (h0 : heap) (fuel : nat) :
  exists self h d,
    Config_init no_hooks declaration_ab h0 = (Ok (VRef self), h)
    /\ dump_values (S (S fuel)) true self h = Ok d
    /\ VDict d = declaration_ab.
Proof.
  exists (length h0), (h0 ++ built_ab (length h0)).
  exists [(VStr "a", VInt 1); (VStr "b", VDict [(VStr "c", VInt 2)])].
  split; [apply Config_init_ab|]. split; [apply dump_values_built_ab|].
  reflexivity.
Qed.

(** ** Dictionaries *)

Section DictFacts.
Context {K V : Type} (eqb : K -> K -> bool).
Hypothesis eqb_spec : forall a b, eqb a b = true <-> a = b.

Lemma eqb_same a : eqb a a = true.
Proof. apply eqb_spec. reflexivity. Qed.

Lemma eqb_other a b : a <> b -> eqb a b = false.
Proof.
  intros N. destruct (eqb a b) eqn:E; [|reflexivity].
  apply eqb_spec in E. contradiction.
Qed.

Lemma dict_get_set_eq k (v : V) d :
  dict_get eqb k (dict_set eqb k v d) = Some v.
Proof.
  induction d as [|[k' v'] d IH]; cbn.
  - rewrite eqb_same. reflexivity.
  - destruct (eqb k k') eqn:E; cbn; rewrite E; [reflexivity | exact IH].
Qed.

Lemma dict_get_set_ne k k' (v : V) d :
  k <> k' -> dict_get eqb k (dict_set eqb k' v d) = dict_get eqb k d.
Proof.
  intros N. induction d as [|[k'' v''] d IH]; cbn.
  - rewrite (eqb_other _ _ N). reflexivity.
  - destruct (eqb k' k'') eqn:E; cbn.
    + apply eqb_spec in E. subst k''. rewrite (eqb_other _ _ N). reflexivity.
    + destruct (eqb k k''); [reflexivity | exact IH].
Qed.

Lemma dict_get_set k k' (v : V) d :
  dict_get eqb k (dict_set eqb k' v d)
  = if eqb k k' then Some v else dict_get eqb k d.
Proof.
  destruct (eqb k k') eqn:E.
  - apply eqb_spec in E. subst. apply dict_get_set_eq.
  - apply dict_get_set_ne. intros ->. rewrite eqb_same in E. discriminate.
Qed.

End DictFacts.

Lemma string_eqb_spec (a b : string) : String.eqb a b = true <-> a = b.
Proof. apply String.eqb_eq. Qed.

Lemma pyval_list_eqb_spec (xs : list pyval) :
  Forall (fun a => forall b, pyval_eqb a b = true <-> a = b) xs ->
  forall ys,
    (fix go (l m : list pyval) {struct l} : bool :=
       match l, m with
       | [], [] => true
       | x :: l', y :: m' => pyval_eqb x y && go l' m'
       | _, _ => false
       end) xs ys = true <-> xs = ys.
Proof.
  induction 1 as [|x xs Hx _ IH]; intros [|y ys]; try (split; [discriminate | discriminate]).
  - split; reflexivity.
  - rewrite andb_true_iff, Hx, IH. split; [intros [-> ->]; reflexivity|].
    intros [= -> ->]. split; reflexivity.
Qed.

Lemma pyval_eqb_spec (a b : pyval) : pyval_eqb a b = true <-> a = b.
Proof.
  revert b. induction a as [ | | x | x | x | xs IH | xs IH | kvs IH | x ]
    using pyval_nested_ind; intros b.
  - destruct b; cbn; split; try discriminate; reflexivity.
  - destruct b; cbn; split; try discriminate; reflexivity.
  - destruct b; cbn; try (split; discriminate).
    rewrite Bool.eqb_true_iff. split; [intros ->; reflexivity | intros [= ->]; reflexivity].
  - destruct b; cbn; try (split; discriminate).
    rewrite Z.eqb_eq. split; [intros ->; reflexivity | intros [= ->]; reflexivity].
  - destruct b; cbn; try (split; discriminate).
    rewrite String.eqb_eq. split; [intros ->; reflexivity | intros [= ->]; reflexivity].
  - destruct b as [ | | | | |ys| | | ]; try (cbn; split; discriminate).
    cbn. rewrite (pyval_list_eqb_spec xs IH ys).
    split; [intros ->; reflexivity | intros [= ->]; reflexivity].
  - destruct b as [ | | | | | |ys| | ]; try (cbn; split; discriminate).
    cbn. rewrite (pyval_list_eqb_spec xs IH ys).
    split; [intros ->; reflexivity | intros [= ->]; reflexivity].
  - destruct b as [ | | | | | | |ys| ]; try (cbn; split; discriminate).
    cbn.
    assert (E : forall ys,
      (fix go (l m : list (pyval * pyval)) {struct l} : bool :=
         match l, m with
         | [], [] => true
         | (k, x) :: l', (k', y) :: m' =>
             pyval_eqb k k' && pyval_eqb x y && go l' m'
         | _, _ => false
         end) kvs ys = true <-> kvs = ys).
    { clear ys. induction IH as [|[k x] kvs [Hk Hx] _ IH']; intros [|[k' y] ys];
        try (split; discriminate).
      - split; reflexivity.
      - cbn in Hk, Hx. rewrite !andb_true_iff, Hk, Hx, IH'.
        split; [intros [[-> ->] ->]; reflexivity|].
        intros [= -> -> ->]. repeat split. }
    rewrite E. split; [intros ->; reflexivity | intros [= ->]; reflexivity].
  - destruct b; cbn; try (split; discriminate).
    rewrite Nat.eqb_eq. split; [intros ->; reflexivity | intros [= ->]; reflexivity].
Qed.

Lemma cfg_get_set_eq {V} k (v : V) d : cfg_get k (cfg_set k v d) = Some v.
Proof. apply (dict_get_set_eq _ string_eqb_spec). Qed.

Lemma py_get_set k k' v d :
  py_get k (py_set k' v d) = if pyval_eqb k k' then Some v else py_get k d.
Proof. apply (dict_get_set _ pyval_eqb_spec). Qed.

(** ** Adding an item *)

Section AddItem.
Variable hooks_handle : hook_event -> M pyval.

Lemma SimpleSection_add_item_run self c a r it (h : heap) :
  h !! self = Some (OConfig c) ->
  h !! r = Some (OItem it) ->
  SimpleSection_add_item (VStr a) (VRef r) self h
  = (Ok tt,
     <[self := OConfig (with_item a it (length h) c)]>
       (h ++ [OItem (stored_copy a it)])).
Proof.
  intros Hs Hr. unfold SimpleSection_add_item.
  rewrite (bind_ok _ _ _ _ _ (get_item_some _ _ _ Hr)).
  rewrite bind_unfold. unfold alloc.
  assert (Hs' : (h ++ [OItem (stored_copy a it)]) !! self = Some (OConfig c))
    by (rewrite lookup_app_l; [exact Hs | exact (lookup_lt_Some _ _ _ Hs)]).
  rewrite (bind_ok _ _ _ _ _ (get_config_some _ _ _ Hs')). reflexivity.
Qed.

Lemma add_item_run self c a r it (h : heap) :
  h !! self = Some (OConfig c) ->
  h !! r = Some (OItem it) ->
  let h1 := <[self := OConfig (with_item a it (length h) c)]>
              (h ++ [OItem (stored_copy a it)]) in
  getitem hooks_handle (VStr a) self h1 = (Ok (VRef (length h)), h1)
  /\ add_item hooks_handle (VStr a) (VRef r) self h
     = (hooks_handle (ITEM_ADDED_TO_SECTION (VStr a) self (VRef (length h)));;
        mret tt) h1.
Proof.
  intros Hs Hr h1.
  assert (Hlt : self < length (h ++ [OItem (stored_copy a it)]))
    by (rewrite length_app; pose proof (lookup_lt_Some _ _ _ Hs); lia).
  assert (Hs1 : h1 !! self = Some (OConfig (with_item a it (length h) c)))
    by (apply list_lookup_insert_eq; exact Hlt).
  assert (Hg : getitem hooks_handle (VStr a) self h1 = (Ok (VRef (length h)), h1)).
  { apply (resolve_name_found _ _ _ _ _ _ Hs1). cbn. apply cfg_get_set_eq. }
  split; [exact Hg|].
  unfold add_item.
  rewrite (bind_ok _ _ _ _ _ (SimpleSection_add_item_run _ _ a _ _ _ Hs Hr)).
  fold h1. rewrite (bind_ok _ _ _ _ _ Hg). reflexivity.
Qed.

End AddItem.

(** C10: [add_item] notifies with the copy it stored.  When [item] is
    added under [alias], the "item added" event is dispatched, in the store
    that already holds the binding, with the object that [self[alias]] then
    resolves to: the newly made copy, an object other than the caller's
    [item], which is itself left as it was.  So when the handlers write to
    nothing but the item they are notified of, the caller's item is the same
    after [add_item] as before; and a handler that sets the value of the
    item it is notified of changes the stored copy and not the caller's
    item. *)
Theorem add_item_notifies_stored_copy
    (hooks_handle : hook_event -> M pyval) self c a r it (h : heap) :
  h !! self = Some (OConfig c) ->
  h !! r = Some (OItem it) ->
  exists copy h1,
    SimpleSection_add_item (VStr a) (VRef r) self h = (Ok tt, h1)
    /\ add_item hooks_handle (VStr a) (VRef r) self h
       = (hooks_handle (ITEM_ADDED_TO_SECTION (VStr a) self (VRef copy));;
          mret tt) h1
    /\ getitem hooks_handle (VStr a) self h1 = (Ok (VRef copy), h1)
    /\ copy <> r
    /\ h1 !! copy = Some (OItem (stored_copy a it))
    /\ h1 !! r = Some (OItem it)
    /\ (writes_subject_only hooks_handle ->
        (add_item hooks_handle (VStr a) (VRef r) self h).2 !! r
        = Some (OItem it))
    /\ (forall coerce v v',
          coerce_to coerce (item_type it) v = Some v' ->
          exists h2 it2,
            add_item (overwrite_subject coerce v) (VStr a) (VRef r) self h
            = (Ok tt, h2)
            /\ h2 !! copy = Some (OItem it2)
            /\ item_value it2 = Some v'
            /\ h2 !! r = Some (OItem it)).
Proof.
  intros Hs Hr.
  pose proof (lookup_lt_Some _ _ _ Hs) as Hls.
  pose proof (lookup_lt_Some _ _ _ Hr) as Hlr.
  assert (Hne : self <> r) by (intros ->; congruence).
  destruct (add_item_run hooks_handle self c a r it h Hs Hr) as [Hg Hrun].
  set (h1 := <[self := OConfig (with_item a it (length h) c)]>
               (h ++ [OItem (stored_copy a it)])) in *.
  assert (Hl1 : length h1 = S (length h))
    by (unfold h1; rewrite length_insert, length_app; cbn; lia).
  assert (Hr1 : h1 !! r = Some (OItem it)).
  { unfold h1. rewrite list_lookup_insert_ne by exact Hne.
    rewrite lookup_app_l by exact Hlr. exact Hr. }
  assert (Hc1 : h1 !! length h = Some (OItem (stored_copy a it))).
  { unfold h1. rewrite list_lookup_insert_ne by lia.
    rewrite lookup_app_r by lia. rewrite Nat.sub_diag. reflexivity. }
  exists (length h), h1.
  split; [exact (SimpleSection_add_item_run _ _ a _ _ _ Hs Hr)|].
  split; [exact Hrun|]. split; [exact Hg|].
  split; [lia|]. split; [exact Hc1|]. split; [exact Hr1|]. split.
  - intros Hw. rewrite Hrun, bind_unfold.
    assert (Hk := Hw (VStr a) self (length h) h1 r ltac:(lia)).
    destruct (hooks_handle _ h1) as [[res|e] h2]; cbn in *; congruence.
  - intros coerce v v' Hv.
    destruct (add_item_run (overwrite_subject coerce v) self c a r it h Hs Hr)
      as [_ Hrun'].
    fold h1 in Hrun'. rewrite Hrun'. cbn [overwrite_subject].
    unfold item_set_value. rewrite !bind_unfold.
    rewrite (get_item_some _ _ _ Hc1). unfold lift, set_value.
    cbn [stored_copy item_type]. rewrite Hv. cbn.
    eexists _, _. split; [reflexivity|]. split.
    + apply list_lookup_insert_eq. lia.
    + split; [reflexivity|].
      rewrite list_lookup_insert_ne by lia. exact Hr1.
Qed.

(** Witness of [add_item_notifies_stored_copy]: the item [x] of [store_x]
    is added to the section [s] under the alias [y], with a handler that
    sets the item it is notified of to [9].  The copy stored under [y],
    object [4], takes the value; the caller's item, object [1], keeps
    none. *)
Lemma add_item_notifies_stored_copy_witness :
  store_x !! 2
  = Some (OConfig (mkConfig [("flag", 3); ("f", 3)] (Some 0) (Some "s")))
  /\ store_x !! 1
     = Some (OItem (mkItem (Some "x") (Some TInt) (Some (VInt 5)) None))
  /\ exists copy h2 it2,
      add_item (overwrite_subject spec_coerce (VInt 9)) (VStr "y") (VRef 1) 2
        store_x = (Ok tt, h2)
      /\ h2 !! copy = Some (OItem it2)
      /\ item_value it2 = Some (VInt 9)
      /\ h2 !! 1
         = Some (OItem (mkItem (Some "x") (Some TInt) (Some (VInt 5)) None)).
Proof.
  split; [reflexivity|]. split; [reflexivity|].
  destruct (add_item_notifies_stored_copy no_hooks 2 _ "y" 1 _ store_x
              eq_refl eq_refl)
    as (copy & h1 & _ & _ & _ & _ & _ & _ & _ & Hover).
  destruct (Hover spec_coerce (VInt 9) (VInt 9) eq_refl)
    as (h2 & it2 & Hrun).
  exists copy, h2, it2. exact Hrun.
Defined.

(** ** Writing to an item slot *)

Section Writes.
Variable coerce : pytype -> pyval -> option pyval.
Variable hooks_handle : hook_event -> M pyval.




End Writes.


(** A reserved name is not a key of the section: the attribute write goes
    to the instance, as when [__init__] sets [_cm__json_adapter] to
    [None], and the section's children are as they were. *)
Example setattr_reserved_name :
  reserved "_cm__json_adapter" = true
  /\ setattr no_hooks untracked_setattr "_cm__json_adapter" VNone 0 store_x
     = (Ok tt, store_x).
Proof. split; reflexivity. Qed.

(** The coercion of the boolean item [flag] of [store_x] refuses the text
    ["maybe"] (spec 8): the write through [.value] raises a [TypeError] and
    the item keeps its value. *)
Example boolean_item_refuses_maybe :
  write_through_value spec_coerce no_hooks (VStr "flag") (VStr "maybe") 2
    store_x
  = (Raise TypeError, store_x).
Proof. reflexivity. Qed.

(** ** Import: [load_values] *)

Section Load.
Variable coerce : pytype -> pyval -> option pyval.
Variable hooks_handle : hook_event -> M pyval.

Lemma contains_run self c k (h : heap) :
  h !! self = Some (OConfig c) ->
  contains (VStr k) self h = (Ok (cfg_mem k (_cm__configs c)), h).
Proof.
  intros Hs. unfold contains.
  rewrite (bind_ok _ _ _ _ _ (get_config_some _ _ _ Hs)). reflexivity.
Qed.

Lemma Item_init_named name value :
  Item_init (VStr name) value = Ok (declared_item name value).
Proof. destruct value; reflexivity. Qed.

Lemma SimpleSection_add_section_run self c a r s (h : heap) :
  h !! self = Some (OConfig c) ->
  h !! r = Some (OConfig s) ->
  self <> r ->
  SimpleSection_add_section (VStr a) (VRef r) self h
  = (Ok tt,
     <[r := OConfig (attached a self s)]>
       (<[self := OConfig (with_section a r c)]> h)).
Proof.
  intros Hs Hr Hne. unfold SimpleSection_add_section.
  rewrite (bind_ok _ _ _ _ _ (get_config_some _ _ _ Hr)).
  rewrite (bind_ok _ _ _ _ _ (get_config_some _ _ _ Hs)).
  rewrite bind_unfold. unfold put_obj at 1.
  assert (Hr' : (<[self := OConfig (with_section a r c)]> h) !! r
                = Some (OConfig s))
    by (rewrite list_lookup_insert_ne; [exact Hr | exact Hne]).
  rewrite (bind_ok _ _ _ _ _ (get_config_some _ _ _ Hr')). reflexivity.
Qed.

Lemma create_item_run name value (h : heap) :
  create_item (VStr name) value h
  = (Ok (VRef (length h)), h ++ [OItem (declared_item name value)]).
Proof.
  unfold create_item. rewrite bind_unfold. unfold lift.
  rewrite Item_init_named. reflexivity.
Qed.

Lemma create_section_run (h : heap) :
  create_section h
  = (Ok (VRef (length h)), h ++ [OConfig (mkConfig [] None None)]).
Proof. reflexivity. Qed.

Lemma setitem_item key r it self (h : heap) :
  h !! r = Some (OItem it) ->
  setitem hooks_handle key (VRef r) self h
  = add_item hooks_handle key (VRef r) self h.
Proof. intros Hr. unfold setitem. cbn. rewrite Hr. reflexivity. Qed.

Lemma setitem_section key r s self (h : heap) :
  h !! r = Some (OConfig s) ->
  setitem hooks_handle key (VRef r) self h
  = add_section hooks_handle key (VRef r) self h.
Proof. intros Hr. unfold setitem. cbn. rewrite Hr. reflexivity. Qed.

Lemma load_values_loop name value rest as_defaults self :
  load_values coerce hooks_handle (VDict ((name, value) :: rest)) as_defaults
    self
  = (load_entry coerce hooks_handle
       (load_values coerce hooks_handle value as_defaults)
       name value as_defaults self;;
     load_values coerce hooks_handle (VDict rest) as_defaults self).
Proof. reflexivity. Qed.

Lemma load_entry_skip recur name value self c (h : heap) :
  h !! self = Some (OConfig c) ->
  cfg_get name (_cm__configs c) = None ->
  load_entry coerce hooks_handle recur (VStr name) value false self h
  = (Ok tt, h).
Proof.
  intros Hs Hk. unfold load_entry.
  rewrite (bind_ok _ _ _ _ _ (contains_run _ _ name _ Hs)).
  unfold cfg_mem, dict_mem. unfold cfg_get in Hk. rewrite Hk. reflexivity.
Qed.

Lemma load_entry_new_item recur name value self c (h : heap) :
  h !! self = Some (OConfig c) ->
  cfg_get name (_cm__configs c) = None ->
  is_dict value = false ->
  let copy := S (length h) in
  let h2 := <[self := OConfig (with_item name (declared_item name value)
                                 copy c)]>
              (h ++ [OItem (declared_item name value);
                     OItem (declared_item name value)]) in
  load_entry coerce hooks_handle recur (VStr name) value true self h
  = (hooks_handle (ITEM_ADDED_TO_SECTION (VStr name) self (VRef copy));;
     mret tt) h2
  /\ getitem hooks_handle (VStr name) self h2 = (Ok (VRef copy), h2)
  /\ h2 !! copy = Some (OItem (declared_item name value)).
Proof.
  intros Hs Hk Hd copy h2.
  pose proof (lookup_lt_Some _ _ _ Hs) as Hlt.
  set (it := declared_item name value) in *.
  assert (Hs' : (h ++ [OItem it]) !! self = Some (OConfig c))
    by (rewrite lookup_app_l; [exact Hs | exact Hlt]).
  assert (Hr' : (h ++ [OItem it]) !! length h = Some (OItem it))
    by (rewrite lookup_app_r by lia; rewrite Nat.sub_diag; reflexivity).
  destruct (add_item_run hooks_handle self c name (length h) it _ Hs' Hr')
    as [Hg Hrun].
  rewrite length_app in Hg, Hrun. cbn [length] in Hg, Hrun.
  replace (length h + 1) with copy in Hg, Hrun by (unfold copy; lia).
  rewrite <- app_assoc in Hg, Hrun. cbn [app] in Hg, Hrun.
  change (stored_copy name it) with it in Hg, Hrun.
  fold h2 in Hg, Hrun.
  split; [|split; [exact Hg|]].
  - unfold load_entry.
    rewrite (bind_ok _ _ _ _ _ (contains_run _ _ name _ Hs)).
    unfold cfg_mem, dict_mem. unfold cfg_get in Hk. rewrite Hk. cbn [negb].
    rewrite Hd. rewrite (bind_ok _ _ _ _ _ (create_item_run name value h)).
    fold it. rewrite (setitem_item _ _ _ _ _ Hr'). exact Hrun.
  - unfold h2. rewrite list_lookup_insert_ne by (unfold copy; lia).
    rewrite lookup_app_r by (unfold copy; lia).
    replace (copy - length h) with 1 by (unfold copy; lia). reflexivity.
Qed.

Lemma load_entry_new_section recur name sub self c (h : heap) :
  h !! self = Some (OConfig c) ->
  cfg_get name (_cm__configs c) = None ->
  let s := length h in
  let h2 := <[s := OConfig (attached name self (mkConfig [] None None))]>
              (<[self := OConfig (with_section name s c)]>
                 (h ++ [OConfig (mkConfig [] None None)])) in
  load_entry coerce hooks_handle recur (VStr name) (VDict sub) true self h
  = ((hooks_handle (SECTION_ADDED_TO_SECTION (VStr name) self (VRef s));;
      mret tt);;
     x ← getitem hooks_handle (VStr name) self;
     call_on_section x recur) h2
  /\ getitem hooks_handle (VStr name) self h2 = (Ok (VRef s), h2)
  /\ h2 !! s = Some (OConfig (attached name self (mkConfig [] None None)))
  /\ (forall result,
        hooks_handle (SECTION_ADDED_TO_SECTION (VStr name) self (VRef s)) h2
        = (Ok result, h2) ->
        load_entry coerce hooks_handle recur (VStr name) (VDict sub) true self h
        = recur s h2).
Proof.
  intros Hs Hk s h2.
  pose proof (lookup_lt_Some _ _ _ Hs) as Hlt.
  set (h1 := h ++ [OConfig (mkConfig [] None None)]).
  assert (Hs1 : h1 !! self = Some (OConfig c))
    by (unfold h1; rewrite lookup_app_l; [exact Hs | exact Hlt]).
  assert (Hr1 : h1 !! s = Some (OConfig (mkConfig [] None None)))
    by (unfold h1, s; rewrite lookup_app_r by lia; rewrite Nat.sub_diag; reflexivity).
  assert (Hne : self <> s) by (unfold s; lia).
  assert (Hl1 : length h1 = S (length h))
    by (unfold h1; rewrite length_app; cbn; lia).
  assert (H2s : h2 !! s = Some (OConfig (attached name self (mkConfig [] None None)))).
  { unfold h2. apply list_lookup_insert_eq. rewrite length_insert.
    fold h1. rewrite Hl1. unfold s. lia. }
  assert (H2self : h2 !! self = Some (OConfig (with_section name s c))).
  { unfold h2. rewrite list_lookup_insert_ne by (intros E; apply Hne; symmetry; exact E).
    apply list_lookup_insert_eq. fold h1. rewrite Hl1. lia. }
  assert (Hg : getitem hooks_handle (VStr name) self h2 = (Ok (VRef s), h2)).
  { apply (resolve_name_found _ _ _ _ _ _ H2self). cbn. apply cfg_get_set_eq. }
  assert (Hrun : load_entry coerce hooks_handle recur (VStr name) (VDict sub) true self h
                 = ((hooks_handle (SECTION_ADDED_TO_SECTION (VStr name) self (VRef s));;
                     mret tt);;
                    x ← getitem hooks_handle (VStr name) self;
                    call_on_section x recur) h2).
  { unfold load_entry.
    rewrite (bind_ok _ _ _ _ _ (contains_run _ _ name _ Hs)).
    unfold cfg_mem, dict_mem. unfold cfg_get in Hk. rewrite Hk. cbn [negb is_dict].
    rewrite (bind_ok _ _ _ _ _ (create_section_run h)). fold h1. fold s.
    rewrite bind_unfold. rewrite (setitem_section _ _ _ _ _ Hr1).
    unfold add_section. rewrite bind_unfold.
    rewrite (SimpleSection_add_section_run _ _ name _ _ _ Hs1 Hr1 Hne).
    rewrite !bind_unfold. unfold h2, h1, s.
    destruct (hooks_handle _ _) as [[res|e] h3]; reflexivity. }
  split; [exact Hrun|]. split; [exact Hg|]. split; [exact H2s|].
  intros result Hq. rewrite Hrun.
  assert (H1 : (hooks_handle (SECTION_ADDED_TO_SECTION (VStr name) self (VRef s));;
                mret tt) h2 = (Ok tt, h2))
    by (rewrite (bind_ok _ _ _ _ _ Hq); reflexivity).
  rewrite (bind_ok _ _ _ _ _ H1), (bind_ok _ _ _ _ _ Hg).
  unfold call_on_section. rewrite (bind_ok _ _ _ _ _ (get_obj_some _ _ _ H2s)).
  reflexivity.
Qed.

Lemma load_entry_known_item recur name value as_defaults self c r it
    (h : heap) :
  h !! self = Some (OConfig c) ->
  cfg_get name (_cm__configs c) = Some r ->
  h !! r = Some (OItem it) ->
  load_entry coerce hooks_handle recur (VStr name) value as_defaults self h
  = match (if as_defaults then set_default coerce value it
           else set_value coerce value it) with
    | Ok it' => (Ok tt, <[r := OItem it']> h)
    | Raise e => (Raise e, h)
    end.
Proof.
  intros Hs Hk Hr. unfold load_entry.
  rewrite (bind_ok _ _ _ _ _ (contains_run _ _ name _ Hs)).
  unfold cfg_mem, dict_mem. pose proof Hk as Hk'. unfold cfg_get in Hk'.
  rewrite Hk'. cbn [negb].
  pose proof (resolve_name_found hooks_handle _ _ _ _ _ Hs Hk) as Hg.
  unfold getitem. rewrite (bind_ok _ _ _ _ _ Hg).
  rewrite bind_unfold. cbn [is_config_item]. rewrite Hr.
  rewrite (bind_ok _ _ _ _ _ Hg).
  destruct as_defaults.
  - unfold item_set_default. rewrite (bind_ok _ _ _ _ _ (get_item_some _ _ _ Hr)).
    rewrite bind_unfold. unfold lift.
    destruct (set_default coerce value it); reflexivity.
  - unfold item_set_value. rewrite (bind_ok _ _ _ _ _ (get_item_some _ _ _ Hr)).
    rewrite bind_unfold. unfold lift.
    destruct (set_value coerce value it); reflexivity.
Qed.

Lemma load_entry_known_section recur name value as_defaults self c r s
    (h : heap) :
  h !! self = Some (OConfig c) ->
  cfg_get name (_cm__configs c) = Some r ->
  h !! r = Some (OConfig s) ->
  load_entry coerce hooks_handle recur (VStr name) value as_defaults self h
  = recur r h.
Proof.
  intros Hs Hk Hr. unfold load_entry.
  rewrite (bind_ok _ _ _ _ _ (contains_run _ _ name _ Hs)).
  unfold cfg_mem, dict_mem. pose proof Hk as Hk'. unfold cfg_get in Hk'.
  rewrite Hk'. cbn [negb].
  pose proof (resolve_name_found hooks_handle _ _ _ _ _ Hs Hk) as Hg.
  unfold getitem. rewrite (bind_ok _ _ _ _ _ Hg).
  rewrite bind_unfold. cbn [is_config_item]. rewrite Hr.
  rewrite (bind_ok _ _ _ _ _ Hg).
  unfold call_on_section. rewrite (bind_ok _ _ _ _ _ (get_obj_some _ _ _ Hr)).
  reflexivity.
Qed.
(** A key that is not a string is bound to nothing: it is skipped when the
    values are not defaults, and refused as a name otherwise. *)
Lemma load_entry_other_key recur name value self c (h : heap) :
  h !! self = Some (OConfig c) ->
  is_str name = false ->
  load_entry coerce hooks_handle recur name value false self h = (Ok tt, h)
  /\ exists h',
      load_entry coerce hooks_handle recur name value true self h
      = (Raise TypeError, h').
Proof.
  intros Hs Hn.
  assert (Hc : contains name self h = (Ok false, h)).
  { unfold contains. rewrite (bind_ok _ _ _ _ _ (get_config_some _ _ _ Hs)).
    destruct name; try reflexivity. discriminate. }
  unfold load_entry. rewrite !(bind_ok _ _ _ _ _ Hc). cbn [negb].
  split; [reflexivity|].
  destruct (is_dict value).
  - rewrite (bind_ok _ _ _ _ _ (create_section_run h)).
    assert (Hr : (h ++ [OConfig (mkConfig [] None None)]) !! length h
                 = Some (OConfig (mkConfig [] None None)))
      by (rewrite lookup_app_r by lia; rewrite Nat.sub_diag; reflexivity).
    rewrite bind_unfold, (setitem_section _ _ _ _ _ Hr).
    unfold add_section, SimpleSection_add_section. rewrite bind_unfold.
    destruct name; try discriminate; eexists; reflexivity.
  - destruct (Item_init name value) as [it|e] eqn:Hi.
    + assert (Hrun : create_item name value h
                     = (Ok (VRef (length h)), h ++ [OItem it]))
        by (unfold create_item; rewrite bind_unfold; unfold lift; rewrite Hi;
            reflexivity).
      assert (Hr : (h ++ [OItem it]) !! length h = Some (OItem it))
        by (rewrite lookup_app_r by lia; rewrite Nat.sub_diag; reflexivity).
      rewrite (bind_ok _ _ _ _ _ Hrun), (setitem_item _ _ _ _ _ Hr).
      unfold add_item, SimpleSection_add_item. rewrite bind_unfold.
      destruct name; try discriminate; eexists; reflexivity.
    + assert (Hrun : create_item name value h = (Raise e, h))
        by (unfold create_item; rewrite bind_unfold; unfold lift; rewrite Hi;
            reflexivity).
      rewrite bind_unfold, Hrun. exists h. f_equal. f_equal.
      unfold Item_init in Hi. destruct name; try discriminate; congruence.
Qed.

(** C3: how [load_values] treats a top-level key.  The entries are loaded
    one after the other.  For the entry [name: value] met with the section
    in the store [h]:
    - a key the section does not know is skipped when the values are not
      defaults: the store is left as it is;
    - when the values are defaults and [value] is not a dictionary, a new
      item named [name] with [value] as its default is bound under [name]
      and the "item added" event is dispatched for it;
    - when the values are defaults and [value] is a dictionary, a new empty
      section is bound under [name], the "section added" event is
      dispatched, and [value] is loaded into what [name] then resolves to:
      the new section, when the handlers leave the store alone;
    - a key bound to an item sets the item's default, or its value when the
      values are not defaults, through the item's coercion;
    - a key bound to a section loads [value] into that section with the
      same [as_defaults]. *)
Theorem load_values_by_key name value rest as_defaults self c (h : heap) :
  h !! self = Some (OConfig c) ->
  load_values coerce hooks_handle (VDict ((VStr name, value) :: rest))
    as_defaults self
  = (load_key coerce hooks_handle name value as_defaults self;;
     load_values coerce hooks_handle (VDict rest) as_defaults self)
  /\ (cfg_get name (_cm__configs c) = None ->
      load_key coerce hooks_handle name value false self h = (Ok tt, h))
  /\ (cfg_get name (_cm__configs c) = None -> is_dict value = false ->
      exists copy h2,
        load_key coerce hooks_handle name value true self h
        = (hooks_handle (ITEM_ADDED_TO_SECTION (VStr name) self (VRef copy));;
           mret tt) h2
        /\ getitem hooks_handle (VStr name) self h2 = (Ok (VRef copy), h2)
        /\ h2 !! copy = Some (OItem (declared_item name value)))
  /\ (cfg_get name (_cm__configs c) = None -> is_dict value = true ->
      exists s h2,
        load_key coerce hooks_handle name value true self h
        = ((hooks_handle (SECTION_ADDED_TO_SECTION (VStr name) self (VRef s));;
            mret tt);;
           x ← getitem hooks_handle (VStr name) self;
           call_on_section x (load_values coerce hooks_handle value true)) h2
        /\ getitem hooks_handle (VStr name) self h2 = (Ok (VRef s), h2)
        /\ h2 !! s
           = Some (OConfig (attached name self (mkConfig [] None None)))
        /\ (forall result,
              hooks_handle (SECTION_ADDED_TO_SECTION (VStr name) self (VRef s))
                h2 = (Ok result, h2) ->
              load_key coerce hooks_handle name value true self h
              = load_values coerce hooks_handle value true s h2))
  /\ (forall r it,
        cfg_get name (_cm__configs c) = Some r -> h !! r = Some (OItem it) ->
        load_key coerce hooks_handle name value as_defaults self h
        = match (if as_defaults then set_default coerce value it
                 else set_value coerce value it) with
          | Ok it' => (Ok tt, <[r := OItem it']> h)
          | Raise e => (Raise e, h)
          end)
  /\ (forall r s,
        cfg_get name (_cm__configs c) = Some r -> h !! r = Some (OConfig s) ->
        load_key coerce hooks_handle name value as_defaults self h
        = load_values coerce hooks_handle value as_defaults r h).
Proof.
  intros Hs. unfold load_key.
  split; [apply load_values_loop|].
  split; [intros Hk; exact (load_entry_skip _ _ _ _ _ _ Hs Hk)|].
  split.
  { intros Hk Hd.
    destruct (load_entry_new_item
                (load_values coerce hooks_handle value true) _ _ _ _ _ Hs Hk Hd)
      as (Hrun & Hg & Hc).
    eexists _, _. split; [exact Hrun|]. split; [exact Hg | exact Hc]. }
  split.
  { intros Hk Hd. destruct value; try discriminate.
    destruct (load_entry_new_section
                (load_values coerce hooks_handle (VDict kvs) true) name kvs _ _ _
                Hs Hk)
      as (Hrun & Hg & H2 & Hq).
    eexists _, _. split; [exact Hrun|]. split; [exact Hg|].
    split; [exact H2 | exact Hq]. }
  split.
  - intros r it Hk Hr. exact (load_entry_known_item _ _ _ _ _ _ _ _ _ Hs Hk Hr).
  - intros r s Hk Hr. exact (load_entry_known_section _ _ _ _ _ _ _ _ _ Hs Hk Hr).
Qed.
End Load.

(** Witness of [load_values_by_key], and the two examples of the spec:
    [load_values({'x': 5})] leaves an empty section empty, and with
    [as_defaults=True] it creates the item [x] with default [5]. *)
Lemma load_values_by_key_witness :
  [OConfig (mkConfig [] None None)] !! 0
  = Some (OConfig (mkConfig [] None None))
  /\ load_key spec_coerce no_hooks "x" (VInt 5) false 0
       [OConfig (mkConfig [] None None)]
     = (Ok tt, [OConfig (mkConfig [] None None)])
  /\ load_values spec_coerce no_hooks (VDict [(VStr "x", VInt 5)]) true 0
       [OConfig (mkConfig [] None None)]
     = (Ok tt,
        [OConfig (mkConfig [("x", 2)] None None);
         OItem (declared_item "x" (VInt 5));
         OItem (declared_item "x" (VInt 5))]).
Proof.
  split; [reflexivity|]. split; [|reflexivity].
  apply (load_values_by_key spec_coerce no_hooks "x" (VInt 5) [] false 0
           (mkConfig [] None None) [OConfig (mkConfig [] None None)] eq_refl).
  reflexivity.
Defined.

(** ** Export: what [dump_values] contains *)

Lemma has_value_get_value it :
  has_value it = true -> exists v, get_value it = Ok v.
Proof.
  unfold has_value, get_value.
  destruct (item_value it) as [v|], (item_default it) as [d|]; eauto.
  discriminate.
Qed.

Lemma items_within_unfold P n (h : heap) r c :
  h !! r = Some (OConfig c) ->
  items_within P (S n) h r
  = forallb (fun kr : string * ref =>
               match h !! kr.2 with
               | Some (OItem it) => P it
               | Some (OConfig _) => items_within P n h kr.2
               | None => false
               end) (_cm__configs c).
Proof. intros Hr. cbn. rewrite Hr. reflexivity. Qed.

Lemma items_within_section P n (h : heap) r :
  items_within P n h r = true -> exists c, h !! r = Some (OConfig c).
Proof.
  destruct n; cbn; [discriminate|].
  destruct (h !! r) as [[it|c]|]; try discriminate. eauto.
Qed.

Lemma dump_entries_total dump_child with_defaults (h : heap) n entries :
  (forall r, tree_within n h r = true -> exists d, dump_child r = Ok d) ->
  forallb (fun kr : string * ref =>
             match h !! kr.2 with
             | Some (OItem it) => true
             | Some (OConfig _) => tree_within n h kr.2
             | None => false
             end) entries = true ->
  forall values,
    exists d, dump_entries dump_child with_defaults h entries values = Ok d.
Proof.
  intros Hchild. induction entries as [|[k r] rest IH]; intros Hall values.
  - cbn. eauto.
  - cbn in Hall. apply andb_true_iff in Hall as [Hr Hrest]. cbn.
    destruct (h !! r) as [[it|c]|]; [| |discriminate].
    + destruct (has_value it) eqn:Hv; [|apply (IH Hrest)].
      destruct (with_defaults || negb (item_is_default it)); [|apply (IH Hrest)].
      destruct (has_value_get_value it Hv) as [v ->]. apply (IH Hrest).
    + destruct (Hchild r Hr) as [d ->]. apply (IH Hrest).
Qed.

Lemma dump_values_total n with_defaults (h : heap) r :
  tree_within n h r = true -> exists d, dump_values n with_defaults r h = Ok d.
Proof.
  revert r. induction n as [|n IH]; intros r Hr; [discriminate|].
  destruct (items_within_section _ _ _ _ Hr) as [c Hc].
  unfold tree_within in Hr. rewrite (items_within_unfold _ _ _ _ _ Hc) in Hr.
  cbn. rewrite Hc.
  exact (dump_entries_total _ with_defaults h n _ IH Hr []).
Qed.

Lemma is_Some_py_get_set key k v d :
  is_Some (py_get key d) -> is_Some (py_get key (py_set k v d)).
Proof.
  intros Hs. rewrite py_get_set. destruct (pyval_eqb key k); [eauto | exact Hs].
Qed.

Lemma dump_entries_contents fuel with_defaults (h : heap) entries :
  forall values d,
    dump_entries (fun r => dump_values fuel with_defaults r h) with_defaults h
      entries values = Ok d ->
    (forall key v,
        py_get key d = Some v ->
        py_get key values = Some v \/
        exists k r,
          In (k, r) entries /\ contributes fuel with_defaults h k r key v)
    /\ (forall key, is_Some (py_get key values) -> is_Some (py_get key d))
    /\ (forall k r key v,
          In (k, r) entries -> contributes fuel with_defaults h k r key v ->
          is_Some (py_get key d)).
Proof.
  induction entries as [|[k r] rest IH]; intros values d Hd.
  - cbn in Hd. injection Hd as <-. split; [|split].
    + intros key v Hg. left. exact Hg.
    + intros key Hg. exact Hg.
    + intros k r key v [].
  - cbn in Hd. destruct (h !! r) as [[it|c]|] eqn:Hr; [| |discriminate].
    + (* an item *)
      assert (Hskip :
        (has_value it = false \/
         (with_defaults = false /\ item_is_default it = true)) ->
        dump_entries (fun r => dump_values fuel with_defaults r h)
          with_defaults h rest values = Ok d ->
        (forall key v,
            py_get key d = Some v ->
            py_get key values = Some v \/
            exists k0 r0, In (k0, r0) ((k, r) :: rest) /\
                          contributes fuel with_defaults h k0 r0 key v)
        /\ (forall key, is_Some (py_get key values) -> is_Some (py_get key d))
        /\ (forall k0 r0 key v,
              In (k0, r0) ((k, r) :: rest) ->
              contributes fuel with_defaults h k0 r0 key v ->
              is_Some (py_get key d))).
      { intros Hno Hd'. destruct (IH _ _ Hd') as (Ha & Hb & Hc).
        split; [|split; [exact Hb|]].
        - intros key v Hg. destruct (Ha key v Hg) as [?|(k0 & r0 & Hin & Hco)];
            [left; assumption|].
          right. exists k0, r0. split; [right; exact Hin | exact Hco].
        - intros k0 r0 key v [[= <- <-]|Hin] Hco; [|exact (Hc _ _ _ _ Hin Hco)].
          destruct Hco as [(it' & Hit & Hv & Hf & _)|(c' & d' & Hc' & _)];
            [|congruence].
          assert (it' = it) by congruence. subst it'.
          destruct Hno as [Hno|[Hw Hdef]]; [congruence|].
          destruct Hf; congruence. }
      destruct (has_value it) eqn:Hv; [|apply Hskip; [left; reflexivity | exact Hd]].
      destruct with_defaults eqn:Hw; cbn [orb] in Hd.
      * destruct (get_value it) as [v0|e] eqn:Hgv; [|discriminate].
        destruct (IH _ _ Hd) as (Ha & Hb & Hc). split; [|split].
        -- intros key v Hg. destruct (Ha key v Hg) as [Hg'|(k0 & r0 & Hin & Hco)].
           ++ rewrite py_get_set in Hg'.
              destruct (pyval_eqb key (name_of it)) eqn:E; [|left; exact Hg'].
              apply pyval_eqb_spec in E. injection Hg' as <-.
              right. exists k, r. split; [left; reflexivity|].
              left. exists it. repeat split; auto.
           ++ right. exists k0, r0. split; [right; exact Hin | exact Hco].
        -- intros key Hg. apply Hb. apply is_Some_py_get_set. exact Hg.
        -- intros k0 r0 key v [[= <- <-]|Hin] Hco; [|exact (Hc _ _ _ _ Hin Hco)].
           destruct Hco as [(it' & Hit & _ & _ & Hkey & _)|(c' & d' & Hc' & _)];
             [|congruence].
           assert (it' = it) by congruence. subst it' key.
           apply Hb. rewrite py_get_set.
           rewrite (proj2 (pyval_eqb_spec _ _) eq_refl). eauto.
      * destruct (item_is_default it) eqn:Hdef; cbn [negb] in Hd;
          [apply Hskip; [right; split; reflexivity | exact Hd]|].
        destruct (get_value it) as [v0|e] eqn:Hgv; [|discriminate].
        destruct (IH _ _ Hd) as (Ha & Hb & Hc). split; [|split].
        -- intros key v Hg. destruct (Ha key v Hg) as [Hg'|(k0 & r0 & Hin & Hco)].
           ++ rewrite py_get_set in Hg'.
              destruct (pyval_eqb key (name_of it)) eqn:E; [|left; exact Hg'].
              apply pyval_eqb_spec in E. injection Hg' as <-.
              right. exists k, r. split; [left; reflexivity|].
              left. exists it. repeat split; auto.
           ++ right. exists k0, r0. split; [right; exact Hin | exact Hco].
        -- intros key Hg. apply Hb. apply is_Some_py_get_set. exact Hg.
        -- intros k0 r0 key v [[= <- <-]|Hin] Hco; [|exact (Hc _ _ _ _ Hin Hco)].
           destruct Hco as [(it' & Hit & _ & _ & Hkey & _)|(c' & d' & Hc' & _)];
             [|congruence].
           assert (it' = it) by congruence. subst it' key.
           apply Hb. rewrite py_get_set.
           rewrite (proj2 (pyval_eqb_spec _ _) eq_refl). eauto.
    + (* a section *)
      destruct (dump_values fuel with_defaults r h) as [sv|e] eqn:Hsv;
        [|discriminate].
      destruct (IH _ _ Hd) as (Ha & Hb & Hc). destruct sv as [|kv sv].
      * cbn [dict_truthy] in *. split; [|split; [exact Hb|]].
        -- intros key v Hg. destruct (Ha key v Hg) as [?|(k0 & r0 & Hin & Hco)];
             [left; assumption|].
           right. exists k0, r0. split; [right; exact Hin | exact Hco].
        -- intros k0 r0 key v [[= <- <-]|Hin] Hco; [|exact (Hc _ _ _ _ Hin Hco)].
           destruct Hco as [(it' & Hit & _)|(c' & d' & _ & Hd' & Hne & _)];
             congruence.
      * cbn [dict_truthy] in *. split; [|split].
        -- intros key v Hg. destruct (Ha key v Hg) as [Hg'|(k0 & r0 & Hin & Hco)].
           ++ rewrite py_get_set in Hg'.
              destruct (pyval_eqb key (VStr k)) eqn:E; [|left; exact Hg'].
              apply pyval_eqb_spec in E. injection Hg' as <-.
              right. exists k, r. split; [left; reflexivity|].
              right. exists c, (kv :: sv). repeat split; auto; discriminate.
           ++ right. exists k0, r0. split; [right; exact Hin | exact Hco].
        -- intros key Hg. apply Hb. apply is_Some_py_get_set. exact Hg.
        -- intros k0 r0 key v [[= <- <-]|Hin] Hco; [|exact (Hc _ _ _ _ Hin Hco)].
           destruct Hco as [(it' & Hit & _)|(c' & d' & _ & _ & _ & Hkey & _)];
             [congruence|]. subst key.
           apply Hb. rewrite py_get_set.
           rewrite (proj2 (pyval_eqb_spec _ _) eq_refl). eauto.
Qed.

Lemma dump_entries_no_override n (h : heap) entries :
  (forall r, items_within item_is_default n h r = true ->
             dump_values n false r h = Ok []) ->
  forallb (fun kr : string * ref =>
             match h !! kr.2 with
             | Some (OItem it) => item_is_default it
             | Some (OConfig _) => items_within item_is_default n h kr.2
             | None => false
             end) entries = true ->
  dump_entries (fun r => dump_values n false r h) false h entries [] = Ok [].
Proof.
  intros Hchild. induction entries as [|[k r] rest IH]; intros Hall;
    [reflexivity|].
  cbn in Hall. apply andb_true_iff in Hall as [Hr Hrest]. cbn.
  destruct (h !! r) as [[it|c]|]; [| |discriminate].
  - rewrite Hr. cbn. destruct (has_value it); exact (IH Hrest).
  - rewrite (Hchild r Hr). cbn. exact (IH Hrest).
Qed.

Lemma dump_values_no_override n (h : heap) r :
  items_within item_is_default n h r = true ->
  dump_values n false r h = Ok [].
Proof.
  revert r. induction n as [|n IH]; intros r Hr; [discriminate|].
  destruct (items_within_section _ _ _ _ Hr) as [c Hc].
  rewrite (items_within_unfold _ _ _ _ _ Hc) in Hr.
  cbn. rewrite Hc. exact (dump_entries_no_override n h _ IH Hr).
Qed.

(** C2: what [dump_values] includes.  For a section whose tree is within
    the recursion allowance, [dump_values] returns a dictionary [d] such
    that: every entry of [d] is contributed by a direct child, and every
    direct child that contributes under a key leaves an entry under that
    key, where an item contributes, under its name, exactly when it has a
    value and either defaults are asked for or it is not at its default,
    and a section contributes, under its key, exactly when its own dump is
    not empty; so, for a child whose key no other child writes to, [d] has
    an entry for an item if and only if the item has a value and either
    defaults are asked for or it is not at its default, and for a section if
    and only if its own dump is not empty; a child section whose dump is
    empty contributes nothing.
    When defaults are not asked for and no item of the tree has an
    override, [d] is the empty dictionary. *)
Theorem dump_values_contributions fuel with_defaults self c (h : heap) :
  h !! self = Some (OConfig c) ->
  tree_within (S fuel) h self = true ->
  exists d,
    dump_values (S fuel) with_defaults self h = Ok d
    /\ (forall key v,
          py_get key d = Some v ->
          exists k r, In (k, r) (_cm__configs c) /\
                      contributes fuel with_defaults h k r key v)
    /\ (forall k r key v,
          In (k, r) (_cm__configs c) ->
          contributes fuel with_defaults h k r key v ->
          is_Some (py_get key d))
    /\ (forall k r it,
          In (k, r) (_cm__configs c) -> h !! r = Some (OItem it) ->
          (forall k' r' v,
              In (k', r') (_cm__configs c) ->
              contributes fuel with_defaults h k' r' (name_of it) v ->
              r' = r) ->
          (is_Some (py_get (name_of it) d) <->
           has_value it = true /\
           (with_defaults = true \/ item_is_default it = false)))
    /\ (forall k r s,
          In (k, r) (_cm__configs c) -> h !! r = Some (OConfig s) ->
          (forall k' r' v,
              In (k', r') (_cm__configs c) ->
              contributes fuel with_defaults h k' r' (VStr k) v -> r' = r) ->
          (is_Some (py_get (VStr k) d) <->
           exists d', dump_values fuel with_defaults r h = Ok d' /\ d' <> []))
    /\ (forall k r s key v,
          h !! r = Some (OConfig s) ->
          dump_values fuel with_defaults r h = Ok [] ->
          ~ contributes fuel with_defaults h k r key v)
    /\ (with_defaults = false ->
        items_within item_is_default (S fuel) h self = true ->
        d = []).
Proof.
  intros Hs Ht.
  destruct (dump_values_total _ with_defaults _ _ Ht) as [d Hd].
  exists d. split; [exact Hd|].
  pose proof Hd as Hd'. cbn in Hd'. rewrite Hs in Hd'.
  destruct (dump_entries_contents _ _ _ _ _ _ Hd') as (Ha & _ & Hc).
  assert (Ha' : forall key v,
             py_get key d = Some v ->
             exists k r, In (k, r) (_cm__configs c) /\
                         contributes fuel with_defaults h k r key v).
  { intros key v Hg. destruct (Ha key v Hg) as [Hn|Hex];
      [discriminate | exact Hex]. }
  split; [exact Ha'|]. split; [exact Hc|]. split; [|split; [|split]].
  - intros k r it Hin Hr Honly. split.
    + intros [v Hg]. destruct (Ha' _ _ Hg) as (k' & r' & Hin' & Hco).
      rewrite (Honly _ _ _ Hin' Hco) in Hco.
      destruct Hco as [(it' & Hit & Hv & Hf & _)|(c' & d' & Hc' & _)];
        [|congruence].
      assert (it' = it) by congruence. subst it'. split; assumption.
    + intros [Hv Hf]. destruct (has_value_get_value it Hv) as [v Hgv].
      apply (Hc k r (name_of it) v Hin). left. exists it.
      repeat split; assumption.
  - intros k r s Hin Hr Honly. split.
    + intros [v Hg]. destruct (Ha' _ _ Hg) as (k' & r' & Hin' & Hco).
      rewrite (Honly _ _ _ Hin' Hco) in Hco.
      destruct Hco as [(it' & Hit & _)|(c' & d' & _ & Hd'' & Hne & _)];
        [congruence|].
      exists d'. split; assumption.
    + intros (d' & Hd'' & Hne).
      apply (Hc k r (VStr k) (VDict d') Hin). right. exists s, d'.
      repeat split; assumption.
  - intros k r s key v Hr He [(it & Hit & _)|(c' & d' & _ & Hd'' & Hne & _)];
      congruence.
  - intros -> Hi. rewrite (dump_values_no_override _ _ _ Hi) in Hd. congruence.
Qed.

(** Witness of [dump_values_contributions]: [store_x] dumped without
    defaults.  Only the item [flag] has an override, so the dump is
    [{'s': {'flag': False}}]. *)
Lemma dump_values_contributions_witness :
  store_x !! 0 = Some (OConfig section_x) /\
  tree_within 2 store_x 0 = true /\
  dump_values 2 false 0 store_x
  = Ok [(VStr "s", VDict [(VStr "flag", VBool false)])] /\
  is_Some (py_get (VStr "s")
             [(VStr "s", VDict [(VStr "flag", VBool false)])]).
Proof.
  split; [reflexivity|]. split; [reflexivity|]. split; [reflexivity|].
  destruct (dump_values_contributions 1 false 0 section_x store_x
              eq_refl eq_refl) as (d & Hd & _ & Hc & _).
  injection Hd as <-.
  apply (Hc "s" 2 (VStr "s") (VDict [(VStr "flag", VBool false)])).
  - right. left. reflexivity.
  - right. eexists _, _. repeat split; discriminate.
Defined.

(** ** Traversal *)

Lemma seen_before_In r seen : seen_before r seen = true <-> In r seen.
Proof.
  unfold seen_before. rewrite existsb_exists. split.
  - intros (x & Hin & E). apply Nat.eqb_eq in E. subst. exact Hin.
  - intros Hin. exists r. split; [exact Hin | apply Nat.eqb_refl].
Qed.

Lemma walk_entries_total walk_child recursive (h : heap) n prefix entries :
  (forall p r, tree_within n h r = true -> exists l, walk_child p r = Ok l) ->
  forallb (fun kr : string * ref =>
             match h !! kr.2 with
             | Some (OItem it) => true
             | Some (OConfig _) => tree_within n h kr.2
             | None => false
             end) entries = true ->
  forall seen,
    exists l, walk_entries walk_child recursive h prefix entries seen = Ok l.
Proof.
  intros Hchild. induction entries as [|[k r] rest IH]; intros Hall seen.
  - cbn. eauto.
  - cbn in Hall. apply andb_true_iff in Hall as [Hr Hrest]. cbn.
    destruct (seen_before r seen); [exact (IH Hrest seen)|].
    destruct (h !! r) as [[it|c]|]; [| |discriminate].
    + destruct (IH Hrest (r :: seen)) as [more ->]. eauto.
    + destruct (IH Hrest (r :: seen)) as [more ->].
      destruct recursive; [|eauto].
      destruct (Hchild (prefix ++ [VStr k]) r Hr) as [below ->]. eauto.
Qed.

Lemma walk_total n recursive (h : heap) prefix r :
  tree_within n h r = true -> exists l, walk n recursive h prefix r = Ok l.
Proof.
  revert prefix r. induction n as [|n IH]; intros prefix r Hr; [discriminate|].
  destruct (items_within_section _ _ _ _ Hr) as [c Hc].
  unfold tree_within in Hr. rewrite (items_within_unfold _ _ _ _ _ Hc) in Hr.
  cbn. rewrite Hc.
  apply (walk_entries_total _ recursive h n); [|exact Hr].
  intros p r' Hr'. exact (IH p r' Hr').
Qed.

Lemma walk_entries_sound walk_child recursive (h : heap) prefix entries :
  (forall p r l, walk_child p r = Ok l ->
                 forall q x, In (q, x) l -> reaches h r x) ->
  forall seen l,
    walk_entries walk_child recursive h prefix entries seen = Ok l ->
    forall q x, In (q, x) l ->
      (exists k, In (k, x) entries)
      \/ (exists k m s, In (k, m) entries /\ h !! m = Some (OConfig s)
                        /\ reaches h m x).
Proof.
  intros Hchild. induction entries as [|[k r] rest IH]; intros seen l Hl q x Hin.
  - cbn in Hl. injection Hl as <-. destruct Hin.
  - assert (Hrest : forall seen' l',
               walk_entries walk_child recursive h prefix rest seen' = Ok l' ->
               In (q, x) l' ->
               (exists k0, In (k0, x) ((k, r) :: rest))
               \/ (exists k0 m s, In (k0, m) ((k, r) :: rest)
                                  /\ h !! m = Some (OConfig s)
                                  /\ reaches h m x)).
    { intros seen' l' Hl' Hin'.
      destruct (IH _ _ Hl' _ _ Hin') as [(k0 & H0)|(k0 & m & s & H0 & H1 & H2)].
      - left. exists k0. right. exact H0.
      - right. exists k0, m, s. split; [right; exact H0 | split; assumption]. }
    cbn in Hl. destruct (seen_before r seen); [exact (Hrest _ _ Hl Hin)|].
    destruct (h !! r) as [[it|c]|] eqn:Hr; [| |discriminate].
    + destruct (walk_entries walk_child recursive h prefix rest (r :: seen))
        as [more|e] eqn:Hm; [|discriminate].
      injection Hl as <-. destruct Hin as [[= <- <-]|Hin].
      * left. exists k. left. reflexivity.
      * exact (Hrest _ _ Hm Hin).
    + destruct (if recursive then walk_child (prefix ++ [VStr k]) r else Ok [])
        as [below|e] eqn:Hb; [|discriminate].
      destruct (walk_entries walk_child recursive h prefix rest (r :: seen))
        as [more|e] eqn:Hm; [|discriminate].
      injection Hl as <-. destruct Hin as [[= <- <-]|Hin].
      * left. exists k. left. reflexivity.
      * apply in_app_or in Hin as [Hin|Hin]; [|exact (Hrest _ _ Hm Hin)].
        right. exists k, r, c. split; [left; reflexivity|]. split; [exact Hr|].
        destruct recursive; [|injection Hb as <-; destruct Hin].
        exact (Hchild _ _ _ Hb _ _ Hin).
Qed.

Lemma walk_sound n recursive (h : heap) prefix r l :
  walk n recursive h prefix r = Ok l ->
  forall q x, In (q, x) l -> reaches h r x.
Proof.
  revert prefix r l. induction n as [|n IH]; intros prefix r l Hl q x Hin;
    [discriminate|].
  cbn in Hl. destruct (h !! r) as [[it|c]|] eqn:Hr; try discriminate.
  destruct (walk_entries_sound _ _ _ _ _ (fun p r l => IH p r l) _ _ Hl _ _ Hin)
    as [(k & Hk)|(k & m & s & Hk & Hm & Hreach)].
  - exact (reaches_child _ _ _ _ _ Hr Hk).
  - exact (reaches_below _ _ _ _ _ _ Hr Hk Hreach).
Qed.

Lemma reaches_from_section (h : heap) m x :
  reaches h m x -> exists s, h !! m = Some (OConfig s).
Proof. intros [s c k r Hs _|s c k m' r Hs _ _]; eauto. Qed.

Lemma walk_entries_complete walk_child (h : heap) n prefix entries :
  (forall p r l,
      tree_within n h r = true -> walk_child p r = Ok l ->
      forall x, reaches h r x -> exists q, In (q, x) l) ->
  forallb (fun kr : string * ref =>
             match h !! kr.2 with
             | Some (OItem it) => true
             | Some (OConfig _) => tree_within n h kr.2
             | None => false
             end) entries = true ->
  forall seen l,
    walk_entries walk_child true h prefix entries seen = Ok l ->
    forall k m,
      In (k, m) entries -> ~ In m seen ->
      (exists q, In (q, m) l)
      /\ (forall x, reaches h m x -> exists q, In (q, x) l).
Proof.
  intros Hchild. induction entries as [|[k0 r0] rest IH];
    intros Hall seen l Hl k m Hin Hns; [destruct Hin|].
  cbn in Hall. apply andb_true_iff in Hall as [Hr0 Hrest]. cbn in Hl.
  destruct (seen_before r0 seen) eqn:Hseen.
  - apply seen_before_In in Hseen.
    destruct Hin as [[= -> ->]|Hin]; [contradiction|].
    exact (IH Hrest _ _ Hl _ _ Hin Hns).
  - assert (Hns0 : ~ In r0 seen)
      by (intros Hc; apply seen_before_In in Hc; congruence).
    destruct (h !! r0) as [[it|c]|] eqn:Hh0; [| |discriminate].
    + destruct (walk_entries walk_child true h prefix rest (r0 :: seen))
        as [more|e] eqn:Hm; [|discriminate].
      injection Hl as <-.
      destruct (Nat.eq_dec m r0) as [->|Hne].
      * split; [eexists; left; reflexivity|].
        intros x Hx. destruct (reaches_from_section _ _ _ Hx) as [s Hs].
        congruence.
      * destruct Hin as [[= _ E]|Hin]; [congruence|].
        assert (Hns' : ~ In m (r0 :: seen))
          by (intros [E|E]; [congruence | contradiction]).
        destruct (IH Hrest _ _ Hm _ _ Hin Hns') as [[q Hq] Hbelow]. split.
        -- exists q. right. exact Hq.
        -- intros x Hx. destruct (Hbelow x Hx) as [q' Hq'].
           exists q'. right. exact Hq'.
    + destruct (walk_child (prefix ++ [VStr k0]) r0) as [below|e] eqn:Hb;
        [|discriminate].
      destruct (walk_entries walk_child true h prefix rest (r0 :: seen))
        as [more|e] eqn:Hm; [|discriminate].
      injection Hl as <-.
      destruct (Nat.eq_dec m r0) as [->|Hne].
      * split; [eexists; left; reflexivity|].
        intros x Hx. destruct (Hchild _ _ _ Hr0 Hb x Hx) as [q Hq].
        exists q. right. apply in_or_app. left. exact Hq.
      * destruct Hin as [[= _ E]|Hin]; [congruence|].
        assert (Hns' : ~ In m (r0 :: seen))
          by (intros [E|E]; [congruence | contradiction]).
        destruct (IH Hrest _ _ Hm _ _ Hin Hns') as [[q Hq] Hbelow]. split.
        -- exists q. right. apply in_or_app. right. exact Hq.
        -- intros x Hx. destruct (Hbelow x Hx) as [q' Hq'].
           exists q'. right. apply in_or_app. right. exact Hq'.
Qed.

Lemma walk_complete n (h : heap) prefix r l :
  tree_within n h r = true ->
  walk n true h prefix r = Ok l ->
  forall x, reaches h r x -> exists q, In (q, x) l.
Proof.
  revert prefix r l. induction n as [|n IH]; intros prefix r l Ht Hl x Hx;
    [discriminate|].
  destruct (items_within_section _ _ _ _ Ht) as [c Hc].
  unfold tree_within in Ht. rewrite (items_within_unfold _ _ _ _ _ Hc) in Ht.
  cbn in Hl. rewrite Hc in Hl.
  pose proof (walk_entries_complete _ h n prefix _
                (fun p r l Hr => IH p r l Hr) Ht _ _ Hl) as Hcomp.
  destruct Hx as [s c' k x Hs Hin|s c' k m x Hs Hin Hx].
  - assert (c' = c) by congruence. subst c'.
    exact (proj1 (Hcomp k x Hin (fun F => F))).
  - assert (c' = c) by congruence. subst c'.
    exact (proj2 (Hcomp k m Hin (fun F => F)) x Hx).
Qed.

(** The walk looks at the shape of the store only. *)
Lemma walk_entries_same_shape walk_child walk_child' recursive (h h' : heap)
    prefix entries :
  same_shape h h' ->
  (forall p r, walk_child' p r = walk_child p r) ->
  forall seen,
    walk_entries walk_child' recursive h' prefix entries seen
    = walk_entries walk_child recursive h prefix entries seen.
Proof.
  intros Hsh Hchild. induction entries as [|[k r] rest IH]; intros seen;
    [reflexivity|].
  cbn. destruct (seen_before r seen); [apply IH|].
  specialize (Hsh r).
  destruct (h !! r) as [[it|c]|], (h' !! r) as [[it'|c']|]; try contradiction;
    try reflexivity.
  - rewrite IH. unfold name_of. rewrite Hsh. reflexivity.
  - rewrite IH, Hchild. reflexivity.
Qed.

Lemma walk_same_shape n recursive (h h' : heap) prefix r :
  same_shape h h' ->
  walk n recursive h' prefix r = walk n recursive h prefix r.
Proof.
  intros Hsh. revert prefix r. induction n as [|n IH]; intros prefix r;
    [reflexivity|].
  cbn. pose proof (Hsh r) as Hr.
  destruct (h !! r) as [[it|c]|], (h' !! r) as [[it'|c']|]; try contradiction;
    try reflexivity.
  subst c'. apply walk_entries_same_shape; [exact Hsh | exact IH].
Qed.

Lemma is_item_same_shape (h h' : heap) r :
  same_shape h h' -> is_item h' r = is_item h r.
Proof.
  intros Hsh. unfold is_item, is_config_item. specialize (Hsh r).
  destruct (h !! r) as [[it|c]|], (h' !! r) as [[it'|c']|];
    try contradiction; reflexivity.
Qed.

Lemma iter_items_same_shape n recursive key self (h h' : heap) :
  same_shape h h' ->
  iter_items n recursive key self h' = iter_items n recursive key self h.
Proof.
  intros Hsh. unfold iter_items, iter_all.
  rewrite (walk_same_shape _ _ _ _ _ _ Hsh).
  destruct (walk n recursive h [] self) as [l|e]; [|reflexivity].
  destruct (key_all key l) as [xs|e]; [|reflexivity].
  f_equal. apply filter_ext. intros x.
  rewrite (is_item_same_shape _ _ _ Hsh). reflexivity.
Qed.

(** ** [reset] and [is_default] *)

Lemma key_all_path l :
  key_all KeyPath l = Ok (map (fun pr => Keyed (VTuple pr.1) pr.2) l).
Proof.
  induction l as [|[p r] l IH]; [reflexivity|]. cbn. rewrite IH. reflexivity.
Qed.

Lemma iter_items_path n recursive (h : heap) self l :
  walk n recursive h [] self = Ok l ->
  iter_items n recursive KeyPath self h
  = Ok (List.filter (fun x => is_item h (child_of x))
          (map (fun pr => Keyed (VTuple pr.1) pr.2) l)).
Proof.
  intros Hl. unfold iter_items, iter_all. rewrite Hl, key_all_path. reflexivity.
Qed.

Lemma reset_each_run xs : forall (h : heap),
  (forall x, In x xs -> exists it, h !! child_of x = Some (OItem it)) ->
  exists h',
    reset_each xs h = (Ok tt, h')
    /\ forall r,
        h' !! r
        = match h !! r with
          | Some (OItem it) =>
              Some (OItem (if seen_before r (map child_of xs)
                           then item_reset it else it))
          | o => o
          end.
Proof.
  induction xs as [|x xs IH]; intros h Hitems.
  - exists h. split; [reflexivity|]. intros r.
    destruct (h !! r) as [[it|c]|]; reflexivity.
  - destruct (Hitems x (or_introl eq_refl)) as [it Hx].
    set (h1 := <[child_of x := OItem (item_reset it)]> h).
    assert (Hitems1 : forall y, In y xs ->
                                exists it', h1 !! child_of y = Some (OItem it')).
    { intros y Hy. destruct (Hitems y (or_intror Hy)) as [ity Hity]. unfold h1.
      destruct (Nat.eq_dec (child_of x) (child_of y)) as [E|N].
      - rewrite <- E. rewrite list_lookup_insert_eq
          by exact (lookup_lt_Some _ _ _ Hx). eauto.
      - rewrite list_lookup_insert_ne by exact N. eauto. }
    destruct (IH h1 Hitems1) as (h' & Hrun & Hh').
    exists h'. split.
    + cbn [reset_each].
      rewrite (bind_ok _ _ _ _ _ (get_item_some _ _ _ Hx)).
      rewrite bind_unfold. unfold put_obj at 1. fold h1. exact Hrun.
    + intros r. rewrite Hh'. unfold h1.
      change (seen_before r (map child_of (x :: xs)))
        with (Nat.eqb r (child_of x) || seen_before r (map child_of xs)).
      destruct (Nat.eq_dec (child_of x) r) as [<-|N].
      * rewrite list_lookup_insert_eq by exact (lookup_lt_Some _ _ _ Hx).
        rewrite Hx, Nat.eqb_refl. cbn [orb].
        destruct (seen_before (child_of x) (map child_of xs)); reflexivity.
      * rewrite list_lookup_insert_ne by exact N.
        assert (E : Nat.eqb r (child_of x) = false)
          by (apply Nat.eqb_neq; intros E; apply N; symmetry; exact E).
        rewrite E. reflexivity.
Qed.

Lemma all_default_run (h : heap) xs :
  (forall x, In x xs -> exists it, h !! child_of x = Some (OItem it)) ->
  exists b,
    all_default h xs = Ok b
    /\ (b = true <->
        forall x it, In x xs -> h !! child_of x = Some (OItem it) ->
                     item_is_default it = true).
Proof.
  induction xs as [|x xs IH]; intros Hitems.
  - exists true. split; [reflexivity|]. split; [intros _ x it []|reflexivity].
  - destruct (Hitems x (or_introl eq_refl)) as [it Hx].
    destruct (IH (fun y Hy => Hitems y (or_intror Hy))) as (b & Hb & Hiff).
    cbn. rewrite Hx. destruct (item_is_default it) eqn:Hd; cbn.
    + exists b. split; [exact Hb|]. rewrite Hiff. split.
      * intros Hall y ity [<-|Hy] Hity; [congruence | exact (Hall y ity Hy Hity)].
      * intros Hall y ity Hy Hity. exact (Hall y ity (or_intror Hy) Hity).
    + exists false. split; [reflexivity|]. split; [discriminate|].
      intros Hall. rewrite (Hall x it (or_introl eq_refl) Hx) in Hd. discriminate.
Qed.

Lemma In_iter_items (h : heap) l x :
  In x (List.filter (fun x => is_item h (child_of x))
          (map (fun pr => Keyed (VTuple pr.1) pr.2) l))
  <-> exists q it, x = Keyed (VTuple q) (child_of x) /\ In (q, child_of x) l
                   /\ h !! child_of x = Some (OItem it).
Proof.
  rewrite filter_In, in_map_iff. unfold is_item, is_config_item. split.
  - intros [([q r] & <- & Hin) Hit]. cbn in *.
    destruct (h !! r) as [[it|c]|] eqn:Hr; try discriminate.
    exists q, it. repeat split; assumption.
  - intros (q & it & Hx & Hin & Hit). split.
    + exists (q, child_of x). split; [symmetry; exact Hx | exact Hin].
    + rewrite Hit. reflexivity.
Qed.

(** C8: [reset] and [is_default] of a section whose tree is within the
    recursion allowance.  [reset] returns, having reset every item
    contained in the section at any depth, and leaves the shape of the
    store as it was; right after it [is_default] returns true.
    [is_default] returns true exactly when every item contained in the
    section, at any depth, is at its default. *)
Theorem reset_then_is_default fuel self (h : heap) :
  tree_within fuel h self = true ->
  (exists h',
      reset fuel self h = (Ok tt, h')
      /\ (forall r it,
            reaches h self r -> h !! r = Some (OItem it) ->
            h' !! r = Some (OItem (item_reset it)))
      /\ same_shape h h'
      /\ is_default fuel self h' = Ok true)
  /\ (exists b,
        is_default fuel self h = Ok b
        /\ (b = true <->
            forall r it,
              reaches h self r -> h !! r = Some (OItem it) ->
              item_is_default it = true)).
Proof.
  intros Ht.
  destruct (walk_total fuel true h [] self Ht) as [l Hl].
  pose proof (iter_items_path _ _ _ _ _ Hl) as Hxs.
  set (xs := List.filter (fun x => is_item h (child_of x))
               (map (fun pr => Keyed (VTuple pr.1) pr.2) l)) in *.
  assert (Hitems : forall x, In x xs -> exists it, h !! child_of x = Some (OItem it)).
  { intros x Hx. apply In_iter_items in Hx as (q & it & _ & _ & Hit). eauto. }
  assert (Hmem : forall r it,
             reaches h self r -> h !! r = Some (OItem it) ->
             exists x, In x xs /\ child_of x = r).
  { intros r it Hr Hit. destruct (walk_complete _ _ _ _ _ Ht Hl r Hr) as [q Hq].
    exists (Keyed (VTuple q) r). split; [|reflexivity].
    apply In_iter_items. exists q, it. repeat split; assumption. }
  split.
  - destruct (reset_each_run xs h Hitems) as (h' & Hrun & Hh').
    assert (Hshape : same_shape h h').
    { intros r. rewrite Hh'. destruct (h !! r) as [[it|c]|]; try reflexivity.
      destruct (seen_before _ _); reflexivity. }
    exists h'. split; [unfold reset; rewrite Hxs; exact Hrun|].
    split; [|split; [exact Hshape|]].
    + intros r it Hr Hit. rewrite Hh', Hit.
      destruct (Hmem r it Hr Hit) as (x & Hx & <-).
      assert (E : seen_before (child_of x) (map child_of xs) = true)
        by (apply seen_before_In, in_map; exact Hx).
      rewrite E. reflexivity.
    + unfold is_default. rewrite (iter_items_same_shape _ _ _ _ _ _ Hshape), Hxs.
      assert (Hitems' : forall x, In x xs ->
                                  exists it, h' !! child_of x = Some (OItem it)).
      { intros x Hx. destruct (Hitems x Hx) as [it Hit].
        rewrite Hh', Hit. eauto. }
      destruct (all_default_run h' xs Hitems') as (b & Hb & Hiff).
      rewrite Hb. f_equal. apply Hiff. intros x it' Hx Hit'.
      destruct (Hitems x Hx) as [it Hit]. rewrite Hh', Hit in Hit'.
      assert (E : seen_before (child_of x) (map child_of xs) = true)
        by (apply seen_before_In, in_map; exact Hx).
      rewrite E in Hit'. injection Hit' as <-. reflexivity.
  - destruct (all_default_run h xs Hitems) as (b & Hb & Hiff).
    exists b. split; [unfold is_default; rewrite Hxs; exact Hb|].
    rewrite Hiff. split.
    + intros Hall r it Hr Hit. destruct (Hmem r it Hr Hit) as (x & Hx & <-).
      exact (Hall x it Hx Hit).
    + intros Hall x it Hx Hit. apply In_iter_items in Hx as (q & _ & _ & Hq & _).
      exact (Hall _ it (walk_sound _ _ _ _ _ _ Hl _ _ Hq) Hit).
Qed.

(** Witness of [reset_then_is_default]: [store_x], where the item [flag]
    has an override, is not at its default, and is after [reset]. *)
Lemma reset_then_is_default_witness :
  tree_within 2 store_x 0 = true /\
  is_default 2 0 store_x = Ok false /\
  is_default 2 0 (reset 2 0 store_x).2 = Ok true.
Proof.
  split; [reflexivity|]. split; [reflexivity|].
  destruct (reset_then_is_default 2 0 store_x eq_refl)
    as [(h' & Hrun & _ & _ & Hdef) _].
  rewrite Hrun. exact Hdef.
Defined.

(** ** Names and aliases in structural output *)

Lemma walk_entries_flat walk_child (h : heap) prefix entries :
  forall seen l,
    walk_entries walk_child false h prefix entries seen = Ok l ->
    (forall q x it,
        In (q, x) l -> h !! x = Some (OItem it) -> q = prefix ++ [name_of it])
    /\ (forall k m, In (k, m) entries -> ~ In m seen -> exists q, In (q, m) l).
Proof.
  induction entries as [|[k0 r0] rest IH]; intros seen l Hl.
  - cbn in Hl. injection Hl as <-. split; [intros q x it []|intros k m []].
  - cbn in Hl. destruct (seen_before r0 seen) eqn:Hseen.
    + destruct (IH _ _ Hl) as [Ha Hb]. split; [exact Ha|].
      intros k m [[= -> ->]|Hin] Hns; [|exact (Hb _ _ Hin Hns)].
      apply seen_before_In in Hseen. contradiction.
    + destruct (h !! r0) as [[it0|c0]|] eqn:Hr0; [| |discriminate].
      * destruct (walk_entries walk_child false h prefix rest (r0 :: seen))
          as [more|e] eqn:Hm; [|discriminate].
        injection Hl as <-. destruct (IH _ _ Hm) as [Ha Hb]. split.
        -- intros q x it [[= <- <-]|Hin] Hx; [congruence | exact (Ha _ _ _ Hin Hx)].
        -- intros k m Hin Hns. destruct (Nat.eq_dec m r0) as [->|N].
           ++ eexists. left. reflexivity.
           ++ destruct Hin as [[= _ E]|Hin]; [congruence|].
              destruct (Hb k m Hin) as [q Hq];
                [intros [E|E]; [congruence | contradiction]|].
              exists q. right. exact Hq.
      * destruct (walk_entries walk_child false h prefix rest (r0 :: seen))
          as [more|e] eqn:Hm; [|discriminate].
        injection Hl as <-. destruct (IH _ _ Hm) as [Ha Hb]. split.
        -- intros q x it [[= <- <-]|Hin] Hx; [congruence | exact (Ha _ _ _ Hin Hx)].
        -- intros k m Hin Hns. destruct (Nat.eq_dec m r0) as [->|N].
           ++ eexists. left. reflexivity.
           ++ destruct Hin as [[= _ E]|Hin]; [congruence|].
              destruct (Hb k m Hin) as [q Hq];
                [intros [E|E]; [congruence | contradiction]|].
              exists q. right. exact Hq.
Qed.

(** C9: an item stored under a key other than its own name.  For a section
    whose tree is within the recursion allowance and which binds, under
    [alias], an item whose name [n] differs from [alias]: [dump_values]
    returns a dictionary in which the item, when it contributes, has its
    entry under [n]; an entry under [alias], if there is one, comes from
    another child; every key of the dictionary is the own name of a child
    item or the key of a child section.  The keys that [iter_items] yields
    are the own names of the items, and the item is yielded under [(n,)]. *)
Theorem dump_values_reports_names fuel with_defaults self c alias r it n
    (h : heap) :
  h !! self = Some (OConfig c) ->
  tree_within (S fuel) h self = true ->
  In (alias, r) (_cm__configs c) ->
  h !! r = Some (OItem it) ->
  item_name it = Some n ->
  n <> alias ->
  (exists d,
      dump_values (S fuel) with_defaults self h = Ok d
      /\ (has_value it = true ->
          with_defaults = true \/ item_is_default it = false ->
          is_Some (py_get (VStr n) d))
      /\ (forall v,
            py_get (VStr alias) d = Some v ->
            exists k' r',
              In (k', r') (_cm__configs c) /\ r' <> r /\
              contributes fuel with_defaults h k' r' (VStr alias) v)
      /\ (forall key v,
            py_get key d = Some v ->
            (exists k' r' it',
                In (k', r') (_cm__configs c) /\ h !! r' = Some (OItem it') /\
                key = name_of it')
            \/ (exists k' r' s,
                  In (k', r') (_cm__configs c) /\ h !! r' = Some (OConfig s) /\
                  key = VStr k')))
  /\ (exists xs,
        iter_items (S fuel) false KeyPath self h = Ok xs
        /\ (forall x, In x xs ->
                      exists it',
                        h !! child_of x = Some (OItem it') /\
                        x = Keyed (VTuple [name_of it']) (child_of x))
        /\ In (Keyed (VTuple [VStr n]) r) xs).
Proof.
  intros Hs Ht Hin Hr Hn Hne. split.
  - destruct (dump_values_total _ with_defaults _ _ Ht) as [d Hd].
    exists d. split; [exact Hd|].
    pose proof Hd as Hd'. cbn in Hd'. rewrite Hs in Hd'.
    destruct (dump_entries_contents _ _ _ _ _ _ Hd') as (Ha & _ & Hc).
    split; [|split].
    + intros Hv Hf. destruct (has_value_get_value it Hv) as [v Hgv].
      apply (Hc alias r (VStr n) v Hin). left. exists it.
      repeat split; try assumption. unfold name_of. rewrite Hn. reflexivity.
    + intros v Hg. destruct (Ha _ _ Hg) as [?|(k' & r' & Hin' & Hco)];
        [discriminate|].
      exists k', r'. split; [exact Hin'|]. split; [|exact Hco].
      intros ->. destruct Hco as [(it' & Hit & _ & _ & Hkey & _)|(c' & d' & Hc' & _)];
        [|congruence].
      assert (it' = it) by congruence. subst it'.
      unfold name_of in Hkey. rewrite Hn in Hkey. congruence.
    + intros key v Hg. destruct (Ha _ _ Hg) as [?|(k' & r' & Hin' & Hco)];
        [discriminate|].
      destruct Hco as [(it' & Hit & _ & _ & Hkey & _)|(c' & d' & Hc' & _ & _ & Hkey & _)].
      * left. exists k', r', it'. repeat split; assumption.
      * right. exists k', r', c'. repeat split; assumption.
  - destruct (walk_total (S fuel) false h [] self Ht) as [l Hl].
    rewrite (iter_items_path _ _ _ _ _ Hl). eexists. split; [reflexivity|].
    pose proof Hl as Hl'. cbn in Hl'. rewrite Hs in Hl'.
    destruct (walk_entries_flat _ _ _ _ _ _ Hl') as [Hnames Hall].
    split.
    + intros x Hx. apply In_iter_items in Hx as (q & it' & Hx & Hq & Hit).
      exists it'. split; [exact Hit|].
      rewrite Hx. rewrite (Hnames _ _ _ Hq Hit). reflexivity.
    + destruct (Hall alias r Hin (fun F => F)) as [q Hq].
      assert (Eq : q = [VStr n])
        by (rewrite (Hnames _ _ _ Hq Hr); unfold name_of; rewrite Hn;
            reflexivity).
      subst q. apply In_iter_items. exists [VStr n], it. cbn [child_of].
      repeat split; assumption.
Qed.

(** Witness of [dump_values_reports_names]: in the section [s] of
    [store_x] the item [flag] is bound under the alias [f] too; the dump has
    the key [flag] and no key [f]. *)
Lemma dump_values_reports_names_witness :
  tree_within 1 store_x 2 = true /\
  In ("f", 3) [("flag", 3); ("f", 3)] /\
  dump_values 1 true 2 store_x = Ok [(VStr "flag", VBool false)] /\
  is_Some (py_get (VStr "flag") [(VStr "flag", VBool false)]) /\
  iter_items 1 false KeyPath 2 store_x = Ok [Keyed (VTuple [VStr "flag"]) 3].
Proof.
  split; [reflexivity|]. split; [right; left; reflexivity|].
  split; [reflexivity|]. split; [|reflexivity].
  destruct (dump_values_reports_names 0 true 2 _ "f" 3 _ "flag" store_x
              eq_refl eq_refl (or_intror (or_introl eq_refl)) eq_refl eq_refl
              ltac:(discriminate))
    as [(d & Hd & Hn & _) _].
  injection Hd as <-. apply Hn; [reflexivity | left; reflexivity].
Defined.

(** ** The tests of the repository, run in the model *)

(** Both the key and the name of an aliased item are members and resolve
    to the same object; the dump and the iteration report the names only. *)
Example test_named_items_preserve_name :
  let h := store_after script_named_items in
  contains (VStr "a_b") 1 h = (Ok true, h)
  /\ contains (VStr "a.b") 1 h = (Ok true, h)
  /\ contains (VStr "www") 1 h = (Ok true, h)
  /\ getitem no_hooks (VStr "w") 1 h = (Ok (VRef 5), h)
  /\ getitem no_hooks (VStr "www") 1 h = (Ok (VRef 5), h)
  /\ (name_of <$> (h !! 5 ≫= fun o =>
                     match o with OItem it => Some it | _ => None end))
     = Some (VStr "www")
  /\ dump_values 2 true 0 h
     = Ok [(VStr "dummy",
            VDict [(VStr "a.b", VStr "AB"); (VStr "www", VInt 6)])]
  /\ iter_items 1 false KeyPath 1 h
     = Ok [Keyed (VTuple [VStr "a.b"]) 3; Keyed (VTuple [VStr "www"]) 5].
Proof. vm_compute. repeat split. Qed.

(** Loaded text is coerced by the items, and the unknown key is ignored. *)
Example test_read_dict_loads_values :
  let h := store_after script_read_dict in
  dump_values 2 true 0 h
  = Ok [(VStr "a", VDict [(VStr "x", VInt 5); (VStr "y", VBool false)])]
  /\ contains (VStr "e") 0 h = (Ok false, h)
  /\ contains (VTuple [VStr "a"]) 0 h = (Ok false, h).
Proof. vm_compute. repeat split. Qed.

(** ** Overrides, [dump_values] and [is_default] *)

Lemma tree_within_child n (h : heap) r c k x :
  tree_within (S n) h r = true ->
  h !! r = Some (OConfig c) ->
  In (k, x) (_cm__configs c) ->
  match h !! x with
  | Some (OItem _) => True
  | Some (OConfig _) => tree_within n h x = true
  | None => False
  end.
Proof.
  intros Ht Hc Hin. unfold tree_within in Ht.
  rewrite (items_within_unfold _ _ _ _ _ Hc) in Ht.
  rewrite forallb_forall in Ht. specialize (Ht (k, x) Hin). cbn in Ht.
  destruct (h !! x) as [[it|s]|]; [exact I | exact Ht | discriminate].
Qed.

Lemma items_within_reaches P n (h : heap) r :
  items_within P n h r = true ->
  forall x it, reaches h r x -> h !! x = Some (OItem it) -> P it = true.
Proof.
  revert r. induction n as [|n IH]; intros r Hr x it Hx Hit; [discriminate|].
  destruct (items_within_section _ _ _ _ Hr) as [c Hc].
  rewrite (items_within_unfold _ _ _ _ _ Hc) in Hr.
  rewrite forallb_forall in Hr.
  destruct Hx as [s c' k x Hs Hin|s c' k m x Hs Hin Hx].
  - assert (c' = c) by congruence. subst c'.
    specialize (Hr (k, x) Hin). cbn in Hr. rewrite Hit in Hr. exact Hr.
  - assert (c' = c) by congruence. subst c'.
    specialize (Hr (k, m) Hin). cbn in Hr.
    destruct (reaches_from_section _ _ _ Hx) as [sm Hsm]. rewrite Hsm in Hr.
    exact (IH m Hr x it Hx Hit).
Qed.

Lemma items_within_intro P n (h : heap) r :
  tree_within n h r = true ->
  (forall x it, reaches h r x -> h !! x = Some (OItem it) -> P it = true) ->
  items_within P n h r = true.
Proof.
  revert r. induction n as [|n IH]; intros r Ht Hall; [discriminate|].
  destruct (items_within_section _ _ _ _ Ht) as [c Hc].
  rewrite (items_within_unfold _ _ _ _ _ Hc).
  apply forallb_forall. intros [k x] Hin. cbn.
  pose proof (tree_within_child _ _ _ _ _ _ Ht Hc Hin) as Hx.
  destruct (h !! x) as [[it|s]|] eqn:Ex; [| |contradiction].
  - exact (Hall x it (reaches_child _ _ _ _ _ Hc Hin) Ex).
  - apply IH; [exact Hx|]. intros y it Hy Hit.
    exact (Hall y it (reaches_below _ _ _ _ _ _ Hc Hin Hy) Hit).
Qed.

Lemma py_get_nil key : py_get key [] = None.
Proof. reflexivity. Qed.

Lemma override_contributes fuel with_defaults (h : heap) k r it :
  h !! r = Some (OItem it) ->
  item_is_default it = false ->
  exists v, contributes fuel with_defaults h k r (name_of it) v.
Proof.
  intros Hr Hd. unfold item_is_default in Hd.
  destruct (item_value it) as [v|] eqn:Hv; [|discriminate].
  exists v. left. exists it. split; [exact Hr|].
  split; [unfold has_value; rewrite Hv; reflexivity|].
  split; [right; unfold item_is_default; rewrite Hv; reflexivity|].
  split; [reflexivity|]. unfold get_value. rewrite Hv. reflexivity.
Qed.

Lemma dump_values_empty_default n (h : heap) r :
  tree_within n h r = true ->
  dump_values n false r h = Ok [] ->
  items_within item_is_default n h r = true.
Proof.
  revert r. induction n as [|n IH]; intros r Ht Hd; [discriminate|].
  destruct (items_within_section _ _ _ _ Ht) as [c Hc].
  rewrite (items_within_unfold _ _ _ _ _ Hc).
  cbn in Hd. rewrite Hc in Hd.
  destruct (dump_entries_contents _ _ _ _ _ _ Hd) as (_ & _ & Hco).
  apply forallb_forall. intros [k x] Hin. cbn.
  pose proof (tree_within_child _ _ _ _ _ _ Ht Hc Hin) as Hx.
  destruct (h !! x) as [[it|s]|] eqn:Ex; [| |contradiction].
  - destruct (item_is_default it) eqn:Hdef; [reflexivity|].
    destruct (override_contributes n false h k x it Ex Hdef) as [v Hv].
    destruct (Hco k x _ v Hin Hv) as [w Hw]. discriminate.
  - destruct (dump_values_total n false h x Hx) as [d' Hd'].
    destruct d' as [|kv d'']; [exact (IH x Hx Hd')|].
    assert (Hv : contributes n false h k x (VStr k) (VDict (kv :: d''))).
    { right. exists s, (kv :: d''). repeat split; try assumption. discriminate. }
    destruct (Hco k x _ _ Hin Hv) as [w Hw]. discriminate.
Qed.

Lemma py_get_head k v (d : pydict) : py_get k ((k, v) :: d) = Some v.
Proof.
  unfold py_get. cbn. rewrite (proj2 (pyval_eqb_spec k k) eq_refl). reflexivity.
Qed.

Lemma dump_values_keys_mono n (h : heap) r d0 d1 :
  tree_within n h r = true ->
  dump_values n false r h = Ok d0 ->
  dump_values n true r h = Ok d1 ->
  forall key, is_Some (py_get key d0) -> is_Some (py_get key d1).
Proof.
  revert r d0 d1. induction n as [|n IH]; intros r d0 d1 Ht H0 H1 key [v Hg];
    [discriminate|].
  destruct (items_within_section _ _ _ _ Ht) as [c Hc].
  cbn in H0, H1. rewrite Hc in H0, H1.
  destruct (dump_entries_contents _ _ _ _ _ _ H0) as (Ha & _ & _).
  destruct (dump_entries_contents _ _ _ _ _ _ H1) as (_ & _ & Hco).
  destruct (Ha key v Hg) as [Hn|(k & x & Hin & Hcon)]; [discriminate|].
  destruct Hcon as [(it & Hit & Hv & _ & Hkey & Hgv)|(s & d & Hs & Hd & Hne & Hkey & _)].
  - apply (Hco k x key v Hin). left. exists it.
    split; [exact Hit|]. split; [exact Hv|]. split; [left; reflexivity|].
    split; assumption.
  - pose proof (tree_within_child _ _ _ _ _ _ Ht Hc Hin) as Hx.
    rewrite Hs in Hx.
    destruct (dump_values_total n true h x Hx) as [d' Hd'].
    apply (Hco k x key (VDict d') Hin). right. exists s, d'.
    split; [exact Hs|]. split; [exact Hd'|]. split; [|split; [exact Hkey | reflexivity]].
    destruct d as [|[k0 v0] d]; [congruence|].
    destruct (IH x _ _ Hx Hd Hd' k0) as [w Hw]; [rewrite py_get_head; eauto|].
    intros ->. discriminate.
Qed.

(** X1: whether [dump_values(with_defaults=False)] is empty.  For a
    section whose tree is within the recursion allowance, the dump without
    defaults is the empty dictionary exactly when no item contained in the
    section, at any depth, has an override. *)
Theorem dump_values_empty_iff_no_override fuel self (h : heap) :
  tree_within fuel h self = true ->
  (dump_values fuel false self h = Ok []
   <-> forall r it,
         reaches h self r -> h !! r = Some (OItem it) ->
         item_is_default it = true).
Proof.
  intros Ht. split.
  - intros Hd. apply (items_within_reaches _ fuel).
    exact (dump_values_empty_default _ _ _ Ht Hd).
  - intros Hall. apply dump_values_no_override.
    exact (items_within_intro _ _ _ _ Ht Hall).
Qed.

(** X2: defaults only add to the export.  For a section whose tree is within
    the recursion allowance both dumps return, and every key of the dump
    without defaults is a key of the dump with defaults; so the dump with
    defaults is not empty when the one without is not. *)
Theorem dump_values_defaults_add_keys fuel self (h : heap) :
  tree_within fuel h self = true ->
  exists d0 d1,
    dump_values fuel false self h = Ok d0
    /\ dump_values fuel true self h = Ok d1
    /\ (forall key, is_Some (py_get key d0) -> is_Some (py_get key d1))
    /\ (d0 <> [] -> d1 <> []).
Proof.
  intros Ht.
  destruct (dump_values_total fuel false h self Ht) as [d0 H0].
  destruct (dump_values_total fuel true h self Ht) as [d1 H1].
  exists d0, d1. split; [exact H0|]. split; [exact H1|].
  pose proof (dump_values_keys_mono _ _ _ _ _ Ht H0 H1) as Hm.
  split; [exact Hm|].
  intros Hne. destruct d0 as [|[k0 v0] d0]; [congruence|].
  destruct (Hm k0) as [w Hw]; [rewrite py_get_head; eauto|].
  intros ->. discriminate.
Qed.

(** ** What [reset] changes *)

Lemma iter_items_reaches fuel self (h : heap) :
  tree_within fuel h self = true ->
  exists xs,
    iter_items fuel true KeyPath self h = Ok xs
    /\ (forall x, In x xs -> exists it, h !! child_of x = Some (OItem it))
    /\ (forall r, In r (map child_of xs)
                  <-> reaches h self r /\ exists it, h !! r = Some (OItem it)).
Proof.
  intros Ht.
  destruct (walk_total fuel true h [] self Ht) as [l Hl].
  rewrite (iter_items_path _ _ _ _ _ Hl). eexists. split; [reflexivity|].
  split.
  - intros x Hx. apply In_iter_items in Hx as (q & it & _ & _ & Hit). eauto.
  - intros r. rewrite in_map_iff. split.
    + intros (x & <- & Hx). apply In_iter_items in Hx as (q & it & _ & Hq & Hit).
      split; [exact (walk_sound _ _ _ _ _ _ Hl _ _ Hq) | eauto].
    + intros [Hr [it Hit]].
      destruct (walk_complete _ _ _ _ _ Ht Hl r Hr) as [q Hq].
      exists (Keyed (VTuple q) r). split; [reflexivity|].
      apply In_iter_items. exists q, it. repeat split; assumption.
Qed.

Lemma reset_run fuel self (h : heap) :
  tree_within fuel h self = true ->
  exists h',
    reset fuel self h = (Ok tt, h')
    /\ forall r,
        match h !! r with
        | Some (OItem it) =>
            (reaches h self r /\ h' !! r = Some (OItem (item_reset it)))
            \/ (~ reaches h self r /\ h' !! r = Some (OItem it))
        | o => h' !! r = o
        end.
Proof.
  intros Ht. destruct (iter_items_reaches _ _ _ Ht) as (xs & Hxs & Hitems & Hmem).
  destruct (reset_each_run xs h Hitems) as (h' & Hrun & Hh').
  exists h'. split; [unfold reset; rewrite Hxs; exact Hrun|].
  intros r. specialize (Hh' r).
  destruct (h !! r) as [[it|c]|] eqn:Hr; try exact Hh'.
  destruct (seen_before r (map child_of xs)) eqn:Hseen.
  - apply seen_before_In, Hmem in Hseen as [Hreach _]. left. split; assumption.
  - right. split; [|exact Hh']. intros Hreach.
    assert (Hin : In r (map child_of xs)) by (apply Hmem; eauto).
    apply seen_before_In in Hin. congruence.
Qed.

Lemma reset_same_shape fuel self (h h' : heap) :
  tree_within fuel h self = true ->
  reset fuel self h = (Ok tt, h') ->
  same_shape h h'.
Proof.
  intros Ht Hrun. destruct (reset_run _ _ _ Ht) as (h1 & Hrun1 & Hh).
  assert (h1 = h') by congruence. subst h1.
  intros r. specialize (Hh r).
  destruct (h !! r) as [[it|c]|].
  - destruct Hh as [[_ ->]|[_ ->]]; reflexivity.
  - rewrite Hh. reflexivity.
  - rewrite Hh. exact I.
Qed.

Lemma same_length_lookup (h h' : heap) :
  (forall r, h' !! r = None <-> h !! r = None) -> length h' = length h.
Proof.
  intros Hn.
  destruct (Nat.lt_trichotomy (length h') (length h)) as [Hlt|[E|Hlt]];
    [|exact E|].
  - pose proof (proj1 (Hn (length h')) (lookup_ge_None_2 _ _ (Nat.le_refl _))) as E.
    apply lookup_ge_None_1 in E. lia.
  - pose proof (proj2 (Hn (length h)) (lookup_ge_None_2 _ _ (Nat.le_refl _))) as E.
    apply lookup_ge_None_1 in E. lia.
Qed.

Lemma same_shape_length (h h' : heap) : same_shape h h' -> length h' = length h.
Proof.
  intros Hsh. apply same_length_lookup. intros r. specialize (Hsh r).
  destruct (h !! r) as [[it|c]|], (h' !! r) as [[it'|c']|];
    try contradiction; split; congruence.
Qed.

Lemma forallb_pointwise {A} (f g : A -> bool) l :
  (forall x, f x = g x) -> forallb f l = forallb g l.
Proof.
  intros E. induction l as [|x l IH]; [reflexivity|]. cbn. rewrite E, IH.
  reflexivity.
Qed.

Lemma reaches_same_shape (h h' : heap) s r :
  same_shape h h' -> reaches h' s r -> reaches h s r.
Proof.
  intros Hsh Hreach.
  induction Hreach as [s c k r Hs Hin|s c k m r Hs Hin _ IH].
  - specialize (Hsh s). rewrite Hs in Hsh.
    destruct (h !! s) as [[it|c0]|] eqn:E; try contradiction. subst c0.
    exact (reaches_child _ _ _ _ _ E Hin).
  - specialize (Hsh s). rewrite Hs in Hsh.
    destruct (h !! s) as [[it|c0]|] eqn:E; try contradiction. subst c0.
    exact (reaches_below _ _ _ _ _ _ E Hin IH).
Qed.

Lemma tree_within_same_shape n (h h' : heap) r :
  same_shape h h' -> tree_within n h' r = tree_within n h r.
Proof.
  intros Hsh. revert r. unfold tree_within.
  induction n as [|n IH]; intros r; [reflexivity|].
  cbn. pose proof (Hsh r) as Hr.
  destruct (h !! r) as [[it|c]|], (h' !! r) as [[it'|c']|]; try contradiction;
    try reflexivity.
  subst c'. apply forallb_pointwise. intros [k x]. cbn.
  pose proof (Hsh x) as Hx.
  destruct (h !! x) as [[it|s]|], (h' !! x) as [[it'|s']|]; try contradiction;
    try reflexivity.
  apply IH.
Qed.

Lemma item_reset_default it : item_is_default it = true -> item_reset it = it.
Proof.
  destruct it as [n t d v]. unfold item_is_default, item_reset. cbn.
  destruct v; [discriminate | reflexivity].
Qed.

Lemma is_default_run fuel self (h : heap) :
  tree_within fuel h self = true ->
  exists b,
    is_default fuel self h = Ok b
    /\ (b = true <->
        forall r it,
          reaches h self r -> h !! r = Some (OItem it) ->
          item_is_default it = true).
Proof.
  intros Ht. destruct (iter_items_reaches _ _ _ Ht) as (xs & Hxs & Hitems & Hmem).
  destruct (all_default_run h xs Hitems) as (b & Hb & Hiff).
  exists b. split; [unfold is_default; rewrite Hxs; exact Hb|].
  rewrite Hiff. split.
  - intros Hall r it Hr Hit.
    assert (Hin : In r (map child_of xs)) by (apply Hmem; eauto).
    apply in_map_iff in Hin as (x & <- & Hx). exact (Hall x it Hx Hit).
  - intros Hall x it Hx Hit.
    assert (Hin : In (child_of x) (map child_of xs)) by (apply in_map; exact Hx).
    apply Hmem in Hin as [Hr _]. exact (Hall _ it Hr Hit).
Qed.

(** X3: [reset] touches overrides only.  For a section whose tree is
    within the recursion allowance [reset] returns, and in the store it
    leaves: no object was added or removed; every section is as it was;
    every item has the name, the type and the default it had; and an object
    that is not contained in the section, at whatever depth, is exactly as
    it was, the items of other sections and their overrides included. *)
Theorem reset_changes_overrides_only fuel self (h : heap) :
  tree_within fuel h self = true ->
  exists h',
    reset fuel self h = (Ok tt, h')
    /\ length h' = length h
    /\ (forall r c, h !! r = Some (OConfig c) -> h' !! r = Some (OConfig c))
    /\ (forall r it,
          h !! r = Some (OItem it) ->
          exists it',
            h' !! r = Some (OItem it')
            /\ item_name it' = item_name it
            /\ item_type it' = item_type it
            /\ item_default it' = item_default it)
    /\ (forall r, ~ reaches h self r -> h' !! r = h !! r).
Proof.
  intros Ht. destruct (reset_run _ _ _ Ht) as (h' & Hrun & Hh).
  exists h'. split; [exact Hrun|].
  split; [exact (same_shape_length _ _ (reset_same_shape _ _ _ _ Ht Hrun))|].
  split; [|split].
  - intros r c Hr. specialize (Hh r). rewrite Hr in Hh. exact Hh.
  - intros r it Hr. specialize (Hh r). rewrite Hr in Hh.
    destruct Hh as [[_ ->]|[_ ->]]; eexists; repeat split.
  - intros r Hn. specialize (Hh r). destruct (h !! r) as [[it|c]|]; try exact Hh.
    destruct Hh as [[Hreach _]|[_ ->]]; [contradiction | reflexivity].
Qed.

(** X4: [reset] is idempotent, and does nothing to a section at its
    defaults.  For a section whose tree is within the recursion allowance, a
    second [reset] right after the first leaves the store exactly as the
    first left it; and when [is_default] holds beforehand, [reset] leaves
    the store exactly as it found it. *)
Theorem reset_idempotent fuel self (h : heap) :
  tree_within fuel h self = true ->
  exists h',
    reset fuel self h = (Ok tt, h')
    /\ reset fuel self h' = (Ok tt, h')
    /\ (is_default fuel self h = Ok true -> h' = h).
Proof.
  intros Ht.
  assert (Hnoop : forall h0 h1,
            tree_within fuel h0 self = true ->
            reset fuel self h0 = (Ok tt, h1) ->
            (forall r it, reaches h0 self r -> h0 !! r = Some (OItem it) ->
                          item_is_default it = true) ->
            h1 = h0).
  { intros h0 h1 Ht0 Hrun0 Hall.
    destruct (reset_run _ _ _ Ht0) as (h2 & Hrun2 & Hh).
    assert (h2 = h1) by congruence. subst h2.
    apply list_eq. intros r. specialize (Hh r).
    destruct (h0 !! r) as [[it|c]|] eqn:Hr; try exact Hh.
    destruct Hh as [[Hreach ->]|[_ ->]]; [|reflexivity].
    rewrite (item_reset_default it (Hall r it Hreach Hr)). reflexivity. }
  destruct (reset_run _ _ _ Ht) as (h' & Hrun & Hh).
  pose proof (reset_same_shape _ _ _ _ Ht Hrun) as Hsh.
  assert (Ht' : tree_within fuel h' self = true)
    by (rewrite (tree_within_same_shape _ _ _ _ Hsh); exact Ht).
  exists h'. split; [exact Hrun|]. split.
  - destruct (reset_run _ _ _ Ht') as (h2 & Hrun2 & _).
    rewrite Hrun2. f_equal. apply (Hnoop h' h2 Ht' Hrun2).
    intros r it' Hreach Hit'.
    pose proof (reaches_same_shape _ _ _ _ Hsh Hreach) as Hreach0.
    specialize (Hh r). destruct (h !! r) as [[it|c]|] eqn:Hr.
    + destruct Hh as [[_ E]|[Hn _]]; [|contradiction].
      rewrite E in Hit'. injection Hit' as <-. reflexivity.
    + congruence.
    + congruence.
  - intros Hdef. apply (Hnoop h h' Ht Hrun).
    destruct (is_default_run _ _ _ Ht) as (b & Hb & Hiff).
    apply Hiff. congruence.
Qed.

(** X5: [is_default] and the export without defaults agree.  For a section
    whose tree is within the recursion allowance, [is_default] is true
    exactly when [dump_values(with_defaults=False)] is the empty dictionary,
    and false exactly when that dump has an entry. *)
Theorem is_default_iff_dump_empty fuel self (h : heap) :
  tree_within fuel h self = true ->
  (is_default fuel self h = Ok true <-> dump_values fuel false self h = Ok [])
  /\ (is_default fuel self h = Ok false
      <-> exists d, dump_values fuel false self h = Ok d /\ d <> []).
Proof.
  intros Ht.
  destruct (is_default_run _ _ _ Ht) as (b & Hb & Hiff).
  destruct (dump_values_total fuel false h self Ht) as [d Hd].
  assert (Hempty : b = true <-> d = []).
  { rewrite Hiff. split.
    - intros Hall.
      pose proof (dump_values_no_override _ _ _
                    (items_within_intro _ _ _ _ Ht Hall)) as E.
      congruence.
    - intros ->. apply (items_within_reaches _ fuel).
      exact (dump_values_empty_default _ _ _ Ht Hd). }
  rewrite Hb, Hd. split.
  - split.
    + intros [= E]. f_equal. apply Hempty. exact E.
    + intros [= E]. f_equal. apply Hempty. exact E.
  - split.
    + intros [= E]. exists d. split; [reflexivity|]. intros E'.
      apply Hempty in E'. congruence.
    + intros (d' & [= <-] & Hne). f_equal. destruct b; [|reflexivity].
      exfalso. apply Hne, Hempty. reflexivity.
Qed.

(** X6: nothing is left to export after [reset].  For a section whose tree
    is within the recursion allowance, [dump_values(with_defaults=False)]
    right after [reset] is the empty dictionary, whatever overrides the
    items had, and the tree is still within the allowance. *)
Theorem reset_then_dump_empty fuel self (h : heap) :
  tree_within fuel h self = true ->
  exists h',
    reset fuel self h = (Ok tt, h')
    /\ tree_within fuel h' self = true
    /\ dump_values fuel false self h' = Ok [].
Proof.
  intros Ht. destruct (reset_run _ _ _ Ht) as (h' & Hrun & Hh).
  pose proof (reset_same_shape _ _ _ _ Ht Hrun) as Hsh.
  assert (Ht' : tree_within fuel h' self = true)
    by (rewrite (tree_within_same_shape _ _ _ _ Hsh); exact Ht).
  exists h'. split; [exact Hrun|]. split; [exact Ht'|].
  apply dump_values_no_override. apply (items_within_intro _ _ _ _ Ht').
  intros r it' Hreach Hit'.
  pose proof (reaches_same_shape _ _ _ _ Hsh Hreach) as Hreach0.
  specialize (Hh r). destruct (h !! r) as [[it|c]|] eqn:Hr.
  - destruct Hh as [[_ E]|[Hn _]]; [|contradiction].
    rewrite E in Hit'. injection Hit' as <-. reflexivity.
  - congruence.
  - congruence.
Qed.

(** ** What [load_values] leaves alone *)

Lemma same_shape_refl (h : heap) : same_shape h h.
Proof. intros r. destruct (h !! r) as [[it|c]|]; reflexivity. Qed.

Lemma same_shape_trans (h1 h2 h3 : heap) :
  same_shape h1 h2 -> same_shape h2 h3 -> same_shape h1 h3.
Proof.
  intros H12 H23 r. specialize (H12 r). specialize (H23 r).
  destruct (h1 !! r) as [[it1|c1]|], (h2 !! r) as [[it2|c2]|],
    (h3 !! r) as [[it3|c3]|]; try contradiction; try exact I; congruence.
Qed.

Lemma same_shape_insert_item (h : heap) r it it' :
  h !! r = Some (OItem it) -> item_name it' = item_name it ->
  same_shape h (<[r := OItem it']> h).
Proof.
  intros Hr Hn x. destruct (Nat.eq_dec r x) as [<-|N].
  - rewrite list_lookup_insert_eq by exact (lookup_lt_Some _ _ _ Hr).
    rewrite Hr. symmetry. exact Hn.
  - rewrite list_lookup_insert_ne by exact N.
    destruct (h !! x) as [[i|c]|]; reflexivity.
Qed.

Lemma set_value_name coerce v it it' :
  set_value coerce v it = Ok it' -> item_name it' = item_name it.
Proof.
  unfold set_value. destruct (coerce_to coerce (item_type it) v);
    [intros [= <-]; reflexivity | discriminate].
Qed.

Lemma set_default_name coerce v it it' :
  set_default coerce v it = Ok it' -> item_name it' = item_name it.
Proof.
  unfold set_default. destruct (coerce_to coerce (item_type it) v);
    [intros [= <-]; reflexivity | discriminate].
Qed.

Lemma contains_not_section name self (h : heap) :
  (forall c, h !! self <> Some (OConfig c)) ->
  exists e, contains name self h = (Raise e, h).
Proof.
  intros Hn. unfold contains, get_config, get_obj. rewrite !bind_unfold.
  destruct (h !! self) as [[it|c]|].
  - exists AttributeError. reflexivity.
  - destruct (Hn c eq_refl).
  - exists NoSuchObject. reflexivity.
Qed.

(** A key bound to a reference that is not in the store. *)
Lemma load_entry_dangling coerce hooks_handle recur name value as_defaults
    self c r (h : heap) :
  h !! self = Some (OConfig c) ->
  cfg_get name (_cm__configs c) = Some r ->
  h !! r = None ->
  load_entry coerce hooks_handle recur (VStr name) value as_defaults self h
  = (Raise NoSuchObject, h).
Proof.
  intros Hs Hk Hr. unfold load_entry.
  rewrite (bind_ok _ _ _ _ _ (contains_run _ _ name _ Hs)).
  unfold cfg_mem, dict_mem. pose proof Hk as Hk'. unfold cfg_get in Hk'.
  rewrite Hk'. cbn [negb].
  pose proof (resolve_name_found hooks_handle _ _ _ _ _ Hs Hk) as Hg.
  unfold getitem. rewrite (bind_ok _ _ _ _ _ Hg).
  rewrite bind_unfold. cbn [is_config_item]. rewrite Hr.
  rewrite (bind_ok _ _ _ _ _ Hg).
  unfold call_on_section, get_obj. rewrite bind_unfold, Hr. reflexivity.
Qed.

(** One turn of the loop without [as_defaults]: it keeps the shape of the
    store and does not depend on the handlers, when the recursive call does
    so. *)
Lemma load_entry_keeps_shape coerce hooks hooks' recur recur' name value self
    (h : heap) :
  (forall r (h0 : heap),
      same_shape h0 (recur r h0).2 /\ recur' r h0 = recur r h0) ->
  same_shape h (load_entry coerce hooks recur name value false self h).2
  /\ load_entry coerce hooks' recur' name value false self h
     = load_entry coerce hooks recur name value false self h.
Proof.
  intros Hrec.
  destruct (h !! self) as [[its|c]|] eqn:Hs.
  1,3: destruct (contains_not_section name self h) as [e He];
    [intros c; congruence|];
    unfold load_entry; rewrite !bind_unfold, He; cbn;
    split; [apply same_shape_refl | reflexivity].
  destruct (is_str name) eqn:Hn.
  - destruct name as [| | | |k| | | |]; try discriminate.
    destruct (cfg_get k (_cm__configs c)) as [r|] eqn:Hk.
    + destruct (h !! r) as [[it|s]|] eqn:Hr.
      * rewrite !(load_entry_known_item _ _ _ _ _ _ _ _ _ _ _ Hs Hk Hr).
        split; [|reflexivity].
        destruct (set_value coerce value it) as [it'|e] eqn:Hv; cbn.
        -- exact (same_shape_insert_item _ _ _ _ Hr (set_value_name _ _ _ _ Hv)).
        -- apply same_shape_refl.
      * rewrite !(load_entry_known_section _ _ _ _ _ _ _ _ _ _ _ Hs Hk Hr).
        apply Hrec.
      * rewrite !(load_entry_dangling _ _ _ _ _ _ _ _ _ _ Hs Hk Hr).
        split; [apply same_shape_refl | reflexivity].
    + rewrite !(load_entry_skip _ _ _ _ _ _ _ _ Hs Hk).
      split; [apply same_shape_refl | reflexivity].
  - rewrite (proj1 (load_entry_other_key coerce hooks recur _ value _ _ _ Hs Hn)).
    rewrite (proj1 (load_entry_other_key coerce hooks' recur' _ value _ _ _ Hs Hn)).
    split; [apply same_shape_refl | reflexivity].
Qed.

Lemma load_values_keeps_shape_all coerce hooks hooks' dictionary :
  forall self (h : heap),
    same_shape h (load_values coerce hooks dictionary false self h).2
    /\ load_values coerce hooks' dictionary false self h
       = load_values coerce hooks dictionary false self h.
Proof.
  induction dictionary as [ | | b | n | s | xs _ | xs _ | kvs IH | r ]
    using pyval_nested_ind; intros self h;
    try (split; [apply same_shape_refl | reflexivity]).
  revert self h. induction IH as [|[name value] rest [_ Hvalue] _ IHrest];
    intros self h.
  - split; [apply same_shape_refl | reflexivity].
  - cbn [fst snd] in Hvalue. rewrite !load_values_loop, !bind_unfold.
    destruct (load_entry_keeps_shape coerce hooks hooks'
                (load_values coerce hooks value false)
                (load_values coerce hooks' value false)
                name value self h Hvalue) as [Hsh ->].
    destruct (load_entry coerce hooks (load_values coerce hooks value false)
                name value false self h) as [[[]|e] h1]; cbn in Hsh.
    + destruct (IHrest self h1) as [Hsh' ->]. split; [|reflexivity].
      exact (same_shape_trans _ _ _ Hsh Hsh').
    + split; [exact Hsh | reflexivity].
Qed.

(** X7: [load_values] without [as_defaults] changes values only.  Whatever
    the dictionary, the section and the store, and whether the call returns
    or raises, the store it leaves holds the same objects: every section has
    the mapping, the parent and the alias it had, and every item its name;
    nothing is added, removed or rebound.  The call does not depend on the
    registered handlers: no hook is dispatched. *)
Theorem load_values_keeps_shape coerce hooks_handle dictionary self
    (h : heap) :
  same_shape h (load_values coerce hooks_handle dictionary false self h).2
  /\ length (load_values coerce hooks_handle dictionary false self h).2
     = length h
  /\ (forall hooks_handle',
        load_values coerce hooks_handle' dictionary false self h
        = load_values coerce hooks_handle dictionary false self h).
Proof.
  destruct (load_values_keeps_shape_all coerce hooks_handle hooks_handle
              dictionary self h) as [Hsh _].
  split; [exact Hsh|]. split; [exact (same_shape_length _ _ Hsh)|].
  intros hooks'.
  exact (proj2 (load_values_keeps_shape_all coerce hooks_handle hooks'
                  dictionary self h)).
Qed.

(** ** Paths *)

Lemma subscript_ref_bind r key key' (f : ref -> M pyval)
    (g : pyval -> M pyval) (k : ref -> M pyval) (h : heap) :
  (forall r (h0 : heap), k r h0 = (f r ≫= g) h0) ->
  subscript (VRef r) key k h = (subscript (VRef r) key' f ≫= g) h.
Proof.
  intros Hk. unfold subscript, get_obj. rewrite !bind_unfold.
  destruct (h !! r) as [[it|c]|]; try reflexivity.
  rewrite Hk, bind_unfold. reflexivity.
Qed.

Lemma subscript_ref_key r key key' (k k' : ref -> M pyval) (h : heap) :
  (forall r (h0 : heap), k r h0 = k' r h0) ->
  subscript (VRef r) key k h = subscript (VRef r) key' k' h.
Proof.
  intros Hk. unfold subscript, get_obj. rewrite !bind_unfold.
  destruct (h !! r) as [[it|c]|]; try reflexivity. apply Hk.
Qed.

Section ChildrenOnly.
Variable hooks_handle : hook_event -> M pyval.
Hypothesis hooks_children : supplies_children hooks_handle.

Lemma resolve_name_gives_ref k self (h h' : heap) x :
  resolve_name hooks_handle k self h = (Ok x, h') -> exists r, x = VRef r.
Proof.
  unfold resolve_name, get_config, get_obj. rewrite !bind_unfold.
  destruct (h !! self) as [[it|c]|]; try discriminate. cbn.
  destruct (cfg_get k (_cm__configs c)) as [child|].
  - intros [= <- _]. eauto.
  - rewrite bind_unfold.
    destruct (hooks_handle (NOT_FOUND k self) h) as [[result|e] h1] eqn:Hh;
      [|discriminate].
    destruct (hooks_children _ _ _ _ _ Hh) as [->|[r ->]]; [discriminate|].
    intros [= <- _]. eauto.
Qed.

Lemma resolve_tuple_gives_ref segments :
  Forall (fun key => forall self (h h' : heap) x,
            _resolve_config_key hooks_handle key self h = (Ok x, h') ->
            exists r, x = VRef r) segments ->
  forall self (h h' : heap) x,
    _resolve_config_key hooks_handle (VTuple segments) self h = (Ok x, h') ->
    exists r, x = VRef r.
Proof.
  induction 1 as [|k0 rest Hk0 _ IH]; intros self h h' x; [discriminate|].
  destruct rest as [|k1 rest]; [exact (Hk0 self h h' x)|].
  rewrite resolve_tuple_cons, bind_unfold.
  destruct (_resolve_config_key hooks_handle k0 self h) as [[y|e] h1] eqn:Hy;
    [|discriminate].
  destruct (Hk0 _ _ _ _ Hy) as [r ->].
  unfold subscript, get_obj. rewrite bind_unfold.
  destruct (h1 !! r) as [[it|c]|]; try discriminate. apply IH.
Qed.

Lemma resolve_list_gives_ref segments :
  Forall (fun key => forall self (h h' : heap) x,
            _resolve_config_key hooks_handle key self h = (Ok x, h') ->
            exists r, x = VRef r) segments ->
  forall self (h h' : heap) x,
    _resolve_config_key hooks_handle (VList segments) self h = (Ok x, h') ->
    exists r, x = VRef r.
Proof.
  induction 1 as [|k0 rest Hk0 _ IH]; intros self h h' x; [discriminate|].
  destruct rest as [|k1 rest]; [exact (Hk0 self h h' x)|].
  rewrite resolve_list_cons, bind_unfold.
  destruct (_resolve_config_key hooks_handle k0 self h) as [[y|e] h1] eqn:Hy;
    [|discriminate].
  destruct (Hk0 _ _ _ _ Hy) as [r ->].
  unfold subscript, get_obj. rewrite bind_unfold.
  destruct (h1 !! r) as [[it|c]|]; try discriminate. apply IH.
Qed.

Lemma resolve_gives_ref key :
  forall self (h h' : heap) x,
    _resolve_config_key hooks_handle key self h = (Ok x, h') ->
    exists r, x = VRef r.
Proof.
  induction key as [ | | b | n | s | xs IH | xs IH | kvs _ | r ]
    using pyval_nested_ind; intros self h h' x; try discriminate.
  - apply resolve_name_gives_ref.
  - exact (resolve_tuple_gives_ref xs IH self h h' x).
  - exact (resolve_list_gives_ref xs IH self h h' x).
Qed.

Lemma resolve_path_app p k1 q :
  forall k0 self (h : heap),
    _resolve_config_key hooks_handle (VTuple (k0 :: p ++ k1 :: q)) self h
    = (x ← _resolve_config_key hooks_handle (VTuple (k0 :: p)) self;
       subscript x (VTuple (k1 :: q))
         (_resolve_config_key hooks_handle (VTuple (k1 :: q)))) h.
Proof.
  induction p as [|k p IH]; intros k0 self h; [reflexivity|].
  cbn [app]. rewrite !resolve_tuple_cons, !bind_unfold.
  destruct (_resolve_config_key hooks_handle k0 self h) as [[x|e] h1] eqn:Hx;
    [|reflexivity].
  destruct (resolve_gives_ref _ _ _ _ _ Hx) as [r ->].
  rewrite <- bind_unfold. apply subscript_ref_bind. intros r' h0. apply IH.
Qed.

Lemma resolve_list_as_tuple segments :
  forall self (h : heap),
    _resolve_config_key hooks_handle (VList segments) self h
    = _resolve_config_key hooks_handle (VTuple segments) self h.
Proof.
  induction segments as [|k0 rest IH]; intros self h; [reflexivity|].
  destruct rest as [|k1 rest]; [reflexivity|].
  rewrite resolve_list_cons, resolve_tuple_cons, !bind_unfold.
  destruct (_resolve_config_key hooks_handle k0 self h) as [[x|e] h1] eqn:Hx;
    [|reflexivity].
  destruct (resolve_gives_ref _ _ _ _ _ Hx) as [r ->].
  apply subscript_ref_key. exact IH.
Qed.
End ChildrenOnly.

(** X8: paths compose.  When the handlers supply children only, resolving
    the concatenation of two non-empty paths is resolving the first and
    subscripting the result with the second: [self[p + q]] is [self[p][q]],
    with the same result, the same exception and the same store in every
    case.  A segment that is itself a path then counts as its segments, and
    a list resolves as the tuple of its elements does. *)
Theorem resolve_path_composes hooks_handle k0 p k1 q self (h : heap) :
  supplies_children hooks_handle ->
  _resolve_config_key hooks_handle (VTuple ((k0 :: p) ++ (k1 :: q))) self h
  = (x ← _resolve_config_key hooks_handle (VTuple (k0 :: p)) self;
     subscript x (VTuple (k1 :: q))
       (_resolve_config_key hooks_handle (VTuple (k1 :: q)))) h
  /\ _resolve_config_key hooks_handle (VTuple (VTuple (k0 :: p) :: k1 :: q))
       self h
     = _resolve_config_key hooks_handle (VTuple ((k0 :: p) ++ (k1 :: q)))
         self h
  /\ _resolve_config_key hooks_handle (VTuple [VTuple (k0 :: p)]) self h
     = _resolve_config_key hooks_handle (VTuple (k0 :: p)) self h
  /\ _resolve_config_key hooks_handle (VList ((k0 :: p) ++ (k1 :: q))) self h
     = _resolve_config_key hooks_handle (VTuple ((k0 :: p) ++ (k1 :: q)))
         self h.
Proof.
  intros Hc.
  split; [exact (resolve_path_app hooks_handle Hc p k1 q k0 self h)|].
  split; [|split; [reflexivity|]].
  - rewrite resolve_tuple_cons. symmetry.
    exact (resolve_path_app hooks_handle Hc p k1 q k0 self h).
  - apply (resolve_list_as_tuple hooks_handle Hc).
Qed.

Lemma supplies_children_no_hooks : supplies_children no_hooks.
Proof. intros name section h h' result [= <- _]. left. reflexivity. Qed.

(** Witness of [resolve_path_composes]: in [store_x], with no handler
    registered, the path [('s', 'flag')] resolves as [self['s']['flag']],
    to the item [flag]. *)
Lemma resolve_path_composes_witness :
  supplies_children no_hooks
  /\ _resolve_config_key no_hooks (VTuple ([VStr "s"] ++ [VStr "flag"])) 0
       store_x
     = (x ← _resolve_config_key no_hooks (VTuple [VStr "s"]) 0;
        subscript x (VTuple [VStr "flag"])
          (_resolve_config_key no_hooks (VTuple [VStr "flag"]))) store_x
  /\ _resolve_config_key no_hooks (VTuple [VStr "s"; VStr "flag"]) 0 store_x
     = (Ok (VRef 3), store_x).
Proof.
  split; [exact supplies_children_no_hooks|]. split; [|reflexivity].
  exact (proj1 (resolve_path_composes no_hooks (VStr "s") [] (VStr "flag") []
                  0 store_x supplies_children_no_hooks)).
Defined.

Lemma lookup_path_cons (h : heap) self c k child rest :
  h !! self = Some (OConfig c) ->
  cfg_get k (_cm__configs c) = Some child ->
  lookup_path h self (k :: rest) = lookup_path h child rest.
Proof. intros Hs Hk. cbn. rewrite Hs, Hk. reflexivity. Qed.

Lemma resolve_bound hooks_handle ks :
  forall k self r (h : heap),
    lookup_path h self (k :: ks) = Some r ->
    _resolve_config_key hooks_handle (VTuple (map VStr (k :: ks))) self h
    = (Ok (VRef r), h).
Proof.
  induction ks as [|k' ks IH]; intros k self r h Hl.
  - cbn in Hl. destruct (h !! self) as [[it|c]|] eqn:Hs; try discriminate.
    destruct (cfg_get k (_cm__configs c)) as [child|] eqn:Hk; [|discriminate].
    injection Hl as <-.
    exact (resolve_name_found hooks_handle _ _ _ _ _ Hs Hk).
  - pose proof Hl as Hl'. cbn [lookup_path] in Hl'.
    destruct (h !! self) as [[it|c]|] eqn:Hs; try discriminate.
    destruct (cfg_get k (_cm__configs c)) as [child|] eqn:Hk; [|discriminate].
    cbn [map]. rewrite resolve_tuple_cons.
    rewrite (bind_ok _ _ _ _ _ (resolve_name_found hooks_handle _ _ _ _ _ Hs Hk)).
    destruct (h !! child) as [[it|s]|] eqn:Hc; try discriminate.
    rewrite (subscript_section _ _ _ _ _ _ eq_refl Hc).
    apply (IH k' child r h). cbn [lookup_path]. rewrite Hc. exact Hl'.
Qed.

Lemma resolve_name_unbound k self (h : heap) :
  lookup_path h self [k] = None ->
  exists e, _resolve_config_key no_hooks (VStr k) self h = (Raise e, h).
Proof.
  intros Hl. cbn in Hl.
  change (_resolve_config_key no_hooks (VStr k) self h)
    with (resolve_name no_hooks k self h).
  unfold resolve_name, get_config, get_obj. rewrite !bind_unfold.
  destruct (h !! self) as [[it|c]|] eqn:Hs;
    [eexists; reflexivity| |eexists; reflexivity].
  cbn. destruct (cfg_get k (_cm__configs c)) as [child|] eqn:Hk; [discriminate|].
  eexists. reflexivity.
Qed.

Lemma resolve_unbound ks :
  forall k self (h : heap),
    lookup_path h self (k :: ks) = None ->
    exists e,
      _resolve_config_key no_hooks (VTuple (map VStr (k :: ks))) self h
      = (Raise e, h).
Proof.
  induction ks as [|k' ks IH]; intros k self h Hl.
  - exact (resolve_name_unbound k self h Hl).
  - cbn [map]. rewrite resolve_tuple_cons, bind_unfold.
    destruct (lookup_path h self [k]) as [child|] eqn:Hhead.
    + pose proof (resolve_bound no_hooks [] k self child h Hhead) as Hg.
      change (_resolve_config_key no_hooks (VTuple (map VStr [k])) self h)
        with (_resolve_config_key no_hooks (VStr k) self h) in Hg.
      rewrite Hg.
      cbn [lookup_path] in Hl, Hhead.
      destruct (h !! self) as [[it|c]|] eqn:Hs; try discriminate.
      destruct (cfg_get k (_cm__configs c)) as [child'|] eqn:Hk; [|discriminate].
      injection Hhead as ->.
      destruct (is_config_section (VRef child) h) eqn:Hsec.
      * cbn in Hsec. destruct (h !! child) as [[it|s]|] eqn:Hc; try discriminate.
        rewrite (subscript_section _ _ _ _ _ _ eq_refl Hc).
        apply (IH k' child h). cbn [lookup_path]. rewrite Hc. exact Hl.
      * exact (subscript_not_section _ _ _ _ Hsec).
    + destruct (resolve_name_unbound k self h Hhead) as [e He].
      rewrite He. exists e. reflexivity.
Qed.

(** X9: a path of names is a chain of lookups.  When following the names
    of a path through the mappings of the sections leads to a child, the path
    resolves to that child, the store is left as it was, and no handler is
    consulted, whichever are registered; so [self['a', 'b']] is the child
    [b] of the child [a].  When the chain breaks, at a missing name or at a
    child that is not a section, and no handler is registered, the
    resolution raises and the store is left as it was. *)
Theorem resolve_path_of_names hooks_handle k ks self (h : heap) :
  (forall r,
      lookup_path h self (k :: ks) = Some r ->
      _resolve_config_key hooks_handle (VTuple (map VStr (k :: ks))) self h
      = (Ok (VRef r), h))
  /\ (lookup_path h self (k :: ks) = None ->
      exists e,
        _resolve_config_key no_hooks (VTuple (map VStr (k :: ks))) self h
        = (Raise e, h)).
Proof.
  split; [intros r; apply resolve_bound | apply resolve_unbound].
Qed.

Lemma subscript_read_only x key (continue : ref -> M pyval) (h : heap) :
  (forall r (h0 : heap), (continue r h0).2 = h0) ->
  (subscript x key continue h).2 = h.
Proof.
  intros Hc. destruct x; try reflexivity.
  unfold subscript, get_obj. rewrite bind_unfold.
  destruct (h !! r) as [[it|c]|]; try reflexivity. apply Hc.
Qed.

Lemma resolve_name_read_only hooks_handle k self (h : heap) :
  read_only hooks_handle -> (resolve_name hooks_handle k self h).2 = h.
Proof.
  intros Hro. unfold resolve_name, get_config, get_obj. rewrite !bind_unfold.
  destruct (h !! self) as [[it|c]|]; try reflexivity. cbn.
  destruct (cfg_get k (_cm__configs c)); [reflexivity|].
  rewrite bind_unfold. specialize (Hro (NOT_FOUND k self) h).
  destruct (hooks_handle (NOT_FOUND k self) h) as [[result|e] h']; cbn in Hro;
    subst h'; [|reflexivity].
  destruct (is_none result); reflexivity.
Qed.

Lemma resolve_segments_read_only hooks_handle segments :
  Forall (fun key => forall self (h : heap),
            (_resolve_config_key hooks_handle key self h).2 = h) segments ->
  forall self (h : heap),
    (_resolve_config_key hooks_handle (VTuple segments) self h).2 = h.
Proof.
  induction 1 as [|k0 rest Hk0 Hrest IH]; intros self h; [reflexivity|].
  destruct rest as [|k1 rest]; [exact (Hk0 self h)|].
  rewrite resolve_tuple_cons, bind_unfold. specialize (Hk0 self h).
  destruct (_resolve_config_key hooks_handle k0 self h) as [[x|e] h1];
    cbn in Hk0; subst h1; [|reflexivity].
  apply subscript_read_only. exact IH.
Qed.

Lemma resolve_list_read_only hooks_handle segments :
  Forall (fun key => forall self (h : heap),
            (_resolve_config_key hooks_handle key self h).2 = h) segments ->
  forall self (h : heap),
    (_resolve_config_key hooks_handle (VList segments) self h).2 = h.
Proof.
  induction 1 as [|k0 rest Hk0 Hrest IH]; intros self h; [reflexivity|].
  destruct rest as [|k1 rest]; [exact (Hk0 self h)|].
  rewrite resolve_list_cons, bind_unfold. specialize (Hk0 self h).
  destruct (_resolve_config_key hooks_handle k0 self h) as [[x|e] h1];
    cbn in Hk0; subst h1; [|reflexivity].
  apply subscript_read_only. exact IH.
Qed.

(** X10: resolution only reads.  When the registered handlers leave the
    store as it is, resolving a key, of whatever form and whether it
    succeeds or raises, leaves the store exactly as it was; the same holds
    for the membership test, whatever the handlers. *)
Theorem resolve_leaves_store hooks_handle key self (h : heap) :
  read_only hooks_handle ->
  (_resolve_config_key hooks_handle key self h).2 = h
  /\ (getitem hooks_handle key self h).2 = h
  /\ (contains key self h).2 = h.
Proof.
  intros Hro.
  assert (Hres : forall key self (h : heap),
             (_resolve_config_key hooks_handle key self h).2 = h).
  { clear key self h.
    induction key as [ | | b | n | s | xs IH | xs IH | kvs _ | r ]
      using pyval_nested_ind; intros self h; try reflexivity.
    - apply resolve_name_read_only. exact Hro.
    - exact (resolve_segments_read_only _ _ IH self h).
    - exact (resolve_list_read_only _ _ IH self h). }
  split; [apply Hres|]. split; [apply Hres|].
  unfold contains, get_config, get_obj. rewrite !bind_unfold.
  destruct (h !! self) as [[it|c]|]; reflexivity.
Qed.

(** ** The filtered iterators *)

Lemma walk_entries_live walk_child recursive (h : heap) prefix entries :
  (forall p r l, walk_child p r = Ok l ->
                 forall q x, In (q, x) l -> is_Some (h !! x)) ->
  forall seen l,
    walk_entries walk_child recursive h prefix entries seen = Ok l ->
    forall q x, In (q, x) l -> is_Some (h !! x).
Proof.
  intros Hchild. induction entries as [|[k r] rest IH]; intros seen l Hl q x Hin.
  - cbn in Hl. injection Hl as <-. destruct Hin.
  - cbn in Hl. destruct (seen_before r seen); [exact (IH _ _ Hl _ _ Hin)|].
    destruct (h !! r) as [[it|c]|] eqn:Hr; [| |discriminate].
    + destruct (walk_entries walk_child recursive h prefix rest (r :: seen))
        as [more|e] eqn:Hm; [|discriminate].
      injection Hl as <-. destruct Hin as [[= <- <-]|Hin];
        [rewrite Hr; eauto | exact (IH _ _ Hm _ _ Hin)].
    + destruct (if recursive then walk_child (prefix ++ [VStr k]) r else Ok [])
        as [below|e] eqn:Hb; [|discriminate].
      destruct (walk_entries walk_child recursive h prefix rest (r :: seen))
        as [more|e] eqn:Hm; [|discriminate].
      injection Hl as <-. destruct Hin as [[= <- <-]|Hin]; [rewrite Hr; eauto|].
      apply in_app_or in Hin as [Hin|Hin]; [|exact (IH _ _ Hm _ _ Hin)].
      destruct recursive; [|injection Hb as <-; destruct Hin].
      exact (Hchild _ _ _ Hb _ _ Hin).
Qed.

Lemma walk_live n recursive (h : heap) prefix r l :
  walk n recursive h prefix r = Ok l ->
  forall q x, In (q, x) l -> is_Some (h !! x).
Proof.
  revert prefix r l. induction n as [|n IH]; intros prefix r l Hl q x Hin;
    [discriminate|].
  cbn in Hl. destruct (h !! r) as [[it|c]|] eqn:Hr; try discriminate.
  exact (walk_entries_live _ _ _ _ _ (fun p r l => IH p r l) _ _ Hl _ _ Hin).
Qed.

Lemma key_all_children key l xs :
  key_all key l = Ok xs -> map child_of xs = map snd l.
Proof.
  revert xs. induction l as [|[path child] l IH]; intros xs Hxs.
  - cbn in Hxs. injection Hxs as <-. reflexivity.
  - cbn in Hxs.
    destruct (result_key key path child) as [x|e] eqn:Hx; [|discriminate].
    destruct (key_all key l) as [xs'|e]; [|discriminate].
    injection Hxs as <-. cbn. rewrite (IH xs' eq_refl). f_equal.
    unfold result_key in Hx. destruct key; try (injection Hx as <-; reflexivity).
    destruct (join_path separator path); [injection Hx as <-; reflexivity|discriminate].
Qed.

Lemma iter_all_live fuel recursive key self (h : heap) all :
  iter_all fuel recursive key self h = Ok all ->
  forall x, In x all -> is_Some (h !! child_of x).
Proof.
  unfold iter_all. intros Hall x Hx.
  destruct (walk fuel recursive h [] self) as [l|e] eqn:Hl; [|discriminate].
  pose proof (key_all_children _ _ _ Hall) as Hc.
  assert (Hin : In (child_of x) (map snd l))
    by (rewrite <- Hc; apply in_map; exact Hx).
  apply in_map_iff in Hin as ([q r] & E & Hin). cbn in E. subst r.
  exact (walk_live _ _ _ _ _ _ Hl _ _ Hin).
Qed.

Lemma iter_items_filter fuel recursive key self (h : heap) all :
  iter_all fuel recursive key self h = Ok all ->
  iter_items fuel recursive key self h
  = Ok (List.filter (fun x => is_item h (child_of x)) all).
Proof. intros Hall. unfold iter_items. rewrite Hall. destruct key; reflexivity. Qed.

Lemma iter_sections_filter fuel recursive key self (h : heap) all :
  iter_all fuel recursive key self h = Ok all ->
  iter_sections fuel recursive key self h
  = Ok (List.filter (fun x => is_section h (child_of x)) all).
Proof.
  intros Hall. unfold iter_sections. rewrite Hall. destruct key; reflexivity.
Qed.

Lemma filter_split_length {A} (f g : A -> bool) l :
  (forall x, In x l -> f x = negb (g x)) ->
  length l = length (List.filter f l) + length (List.filter g l).
Proof.
  induction l as [|x l IH]; intros Hfg; [reflexivity|].
  cbn. rewrite (Hfg x (or_introl eq_refl)).
  specialize (IH (fun y Hy => Hfg y (or_intror Hy))).
  destruct (g x); cbn; lia.
Qed.

Lemma paths_of_length xs paths :
  paths_of xs = Ok paths -> length paths = length xs.
Proof.
  revert paths. induction xs as [|[c|p c] xs IH]; intros paths Hp.
  - injection Hp as <-. reflexivity.
  - discriminate.
  - cbn in Hp. destruct (paths_of xs) as [ps|e]; [|discriminate].
    injection Hp as <-. cbn. rewrite (IH ps eq_refl). reflexivity.
Qed.

Lemma key_all_keyed key l xs :
  key <> KeyNone -> key_all key l = Ok xs ->
  exists paths, paths_of xs = Ok paths.
Proof.
  intros Hk. revert xs. induction l as [|[path child] l IH]; intros xs Hxs.
  - cbn in Hxs. injection Hxs as <-. exists []. reflexivity.
  - cbn in Hxs.
    destruct (result_key key path child) as [x|e] eqn:Hx; [|discriminate].
    destruct (key_all key l) as [xs'|e]; [|discriminate].
    injection Hxs as <-. destruct (IH xs' eq_refl) as [ps Hps].
    unfold result_key in Hx. destruct key; try contradiction.
    + injection Hx as <-. cbn. rewrite Hps. eauto.
    + destruct (join_path separator path); [|discriminate].
      injection Hx as <-. cbn. rewrite Hps. eauto.
    + injection Hx as <-. cbn. rewrite Hps. eauto.
Qed.

(** X11: [iter_items] and [iter_sections] split [iter_all].  Whenever
    [iter_all] yields the list [all], with the same arguments [iter_items]
    and [iter_sections] return, every element of [all] is yielded by exactly
    one of them, neither yields anything else, and together they yield as
    many elements as [iter_all]. *)
Theorem iter_items_sections_split fuel recursive key self (h : heap) all :
  iter_all fuel recursive key self h = Ok all ->
  exists items sections,
    iter_items fuel recursive key self h = Ok items
    /\ iter_sections fuel recursive key self h = Ok sections
    /\ (forall x, In x all <-> In x items \/ In x sections)
    /\ (forall x, ~ (In x items /\ In x sections))
    /\ length all = length items + length sections.
Proof.
  intros Hall. eexists _, _.
  split; [exact (iter_items_filter _ _ _ _ _ _ Hall)|].
  split; [exact (iter_sections_filter _ _ _ _ _ _ Hall)|].
  assert (Hkind : forall x, In x all ->
            is_item h (child_of x) = negb (is_section h (child_of x))).
  { intros x Hx. destruct (iter_all_live _ _ _ _ _ _ Hall x Hx) as [o Ho].
    unfold is_item, is_section, is_config_item, is_config_section.
    rewrite Ho. destruct o; reflexivity. }
  split; [|split].
  - intros x. rewrite !filter_In. split.
    + intros Hx. rewrite (Hkind x Hx).
      destruct (is_section h (child_of x)); [right | left]; split; auto.
    + intros [[Hx _]|[Hx _]]; exact Hx.
  - intros x. rewrite !filter_In. intros [[Hx Hi] [_ Hs]].
    rewrite (Hkind x Hx), Hs in Hi. discriminate.
  - exact (filter_split_length _ _ _ Hkind).
Qed.

(** X12: [iter_paths].  With [key=None] the assertion fails before the
    section is looked at, whatever the store.  With any other key mode the
    method fails exactly as [iter_all] does, and when [iter_all] yields it
    returns one path for each pair yielded. *)
Theorem iter_paths_of_iter_all fuel recursive key self (h : heap) :
  iter_paths fuel recursive KeyNone self h = AssertionError
  /\ (key <> KeyNone ->
      (forall e, iter_all fuel recursive key self h = Raise e ->
                 iter_paths fuel recursive key self h = Passed (Raise e))
      /\ (forall all, iter_all fuel recursive key self h = Ok all ->
            exists paths,
              iter_paths fuel recursive key self h = Passed (Ok paths)
              /\ paths_of all = Ok paths
              /\ length paths = length all)).
Proof.
  split; [reflexivity|]. intros Hk. split.
  - intros e He. unfold iter_paths. rewrite He. destruct key; try reflexivity.
    contradiction.
  - intros all Hall.
    assert (Hp : exists paths, paths_of all = Ok paths).
    { unfold iter_all in Hall.
      destruct (walk fuel recursive h [] self) as [l|e]; [|discriminate].
      exact (key_all_keyed _ _ _ Hk Hall). }
    destruct Hp as [paths Hp]. exists paths.
    split; [|split; [exact Hp | exact (paths_of_length _ _ Hp)]].
    unfold iter_paths. rewrite Hall, Hp. destruct key; try reflexivity.
    contradiction.
Qed.

(** ** Attaching a section; the empty section *)

Lemma alias_run self c (h : heap) :
  h !! self = Some (OConfig c) ->
  alias self h
  = (Ok (match _cm__section_alias c with Some a => VStr a | None => VNone end),
     h).
Proof.
  intros Hs. unfold alias.
  rewrite (bind_ok _ _ _ _ _ (get_config_some _ _ _ Hs)). reflexivity.
Qed.

Lemma section_run self c (h : heap) :
  h !! self = Some (OConfig c) ->
  section self h
  = (Ok (match _cm__section c with Some p => VRef p | None => VNone end), h).
Proof.
  intros Hs. unfold section.
  rewrite (bind_ok _ _ _ _ _ (get_config_some _ _ _ Hs)). reflexivity.
Qed.

(** X13: [add_section] attaches the section itself.  Adding the section
    [r] to another section [self] under the alias [a] makes no copy: the
    store keeps its size, [self[a]] is the object [r] with the children it
    had, [r.alias] is [a] and [r.section] is [self], and no other object
    changes.  The "section added" event is dispatched after that, in the
    store that holds the binding, with the caller's section as its
    subject. *)
Theorem add_section_attaches_by_reference hooks_handle self c a r s
    (h : heap) :
  h !! self = Some (OConfig c) ->
  h !! r = Some (OConfig s) ->
  self <> r ->
  exists h1,
    SimpleSection_add_section (VStr a) (VRef r) self h = (Ok tt, h1)
    /\ add_section hooks_handle (VStr a) (VRef r) self h
       = (hooks_handle (SECTION_ADDED_TO_SECTION (VStr a) self (VRef r));;
          mret tt) h1
    /\ length h1 = length h
    /\ getitem hooks_handle (VStr a) self h1 = (Ok (VRef r), h1)
    /\ h1 !! r = Some (OConfig (attached a self s))
    /\ alias r h1 = (Ok (VStr a), h1)
    /\ section r h1 = (Ok (VRef self), h1)
    /\ (forall x, x <> self -> x <> r -> h1 !! x = h !! x).
Proof.
  intros Hs Hr Hne.
  pose proof (SimpleSection_add_section_run self c a r s h Hs Hr Hne) as Hrun.
  set (h1 := <[r := OConfig (attached a self s)]>
               (<[self := OConfig (with_section a r c)]> h)) in *.
  assert (Hr1 : h1 !! r = Some (OConfig (attached a self s))).
  { unfold h1. apply list_lookup_insert_eq. rewrite length_insert.
    exact (lookup_lt_Some _ _ _ Hr). }
  assert (Hs1 : h1 !! self = Some (OConfig (with_section a r c))).
  { unfold h1. rewrite list_lookup_insert_ne by (intros E; apply Hne; symmetry; exact E).
    apply list_lookup_insert_eq. exact (lookup_lt_Some _ _ _ Hs). }
  exists h1. split; [exact Hrun|]. split.
  { unfold add_section. rewrite (bind_ok _ _ _ _ _ Hrun). reflexivity. }
  split; [unfold h1; rewrite !length_insert; reflexivity|].
  split.
  { apply (resolve_name_found _ _ _ _ _ _ Hs1). cbn. apply cfg_get_set_eq. }
  split; [exact Hr1|].
  split; [rewrite (alias_run _ _ _ Hr1); reflexivity|].
  split; [rewrite (section_run _ _ _ Hr1); reflexivity|].
  intros x Hx1 Hx2. unfold h1.
  rewrite !list_lookup_insert_ne by (intros E; symmetry in E; contradiction).
  reflexivity.
Qed.

Lemma truthy_app declaration (h l : heap) :
  truthy declaration h = false -> truthy declaration (h ++ l) = false.
Proof.
  destruct declaration; cbn; try (intros E; exact E).
  destruct (h !! r) as [[it|c]|] eqn:Hr; try discriminate.
  rewrite (lookup_app_l_Some _ _ _ _ Hr). intros E. exact E.
Qed.

(** X14: the empty section.  A declaration that is false as a truth value
    ([None], [{}], [[]], a section without children and the like) is not
    handed to the parser:
    [Config(declaration)] builds, as a new object and touching no other, a
    detached section without children.  Such a section dumps to the empty
    dictionary with and without defaults, is at its defaults, yields nothing
    to the iterators, is left as it is by [reset] and by loading any
    dictionary without [as_defaults], has no member, and answers every name
    with [NotFound] when no handler is registered. *)
Theorem Config_init_empty hooks_handle declaration (h : heap) :
  truthy declaration h = false ->
  let self := length h in
  let h' := h ++ [OConfig (mkConfig [] None None)] in
  Config_init hooks_handle declaration h = (Ok (VRef self), h')
  /\ alias self h' = (Ok VNone, h')
  /\ section self h' = (Ok VNone, h')
  /\ (forall fuel with_defaults,
        dump_values (S fuel) with_defaults self h' = Ok [])
  /\ (forall fuel, is_default (S fuel) self h' = Ok true)
  /\ (forall fuel recursive key,
        iter_all (S fuel) recursive key self h' = Ok []
        /\ iter_items (S fuel) recursive key self h' = Ok []
        /\ iter_sections (S fuel) recursive key self h' = Ok [])
  /\ (forall fuel, reset (S fuel) self h' = (Ok tt, h'))
  /\ (forall coerce entries,
        load_values coerce hooks_handle (VDict entries) false self h'
        = (Ok tt, h'))
  /\ (forall name, contains name self h' = (Ok false, h'))
  /\ (forall name,
        getitem no_hooks (VStr name) self h'
        = (Raise (NotFound name self), h')).
Proof.
  intros Hf self h'.
  assert (Hs : h' !! self = Some (OConfig (mkConfig [] None None))).
  { unfold h', self. rewrite lookup_app_r by lia. rewrite Nat.sub_diag.
    reflexivity. }
  split.
  { pose proof (truthy_app _ _ [OConfig (mkConfig [] None None)] Hf) as Hf'.
    fold h' in Hf'. cbv [Config_init mbind M_bind alloc mret M_ret].
    fold self h'. rewrite Hf'. reflexivity. }
  split; [rewrite (alias_run _ _ _ Hs); reflexivity|].
  split; [rewrite (section_run _ _ _ Hs); reflexivity|].
  split; [intros fuel wd; cbn; rewrite Hs; reflexivity|].
  assert (Hall : forall fuel recursive key,
            iter_all (S fuel) recursive key self h' = Ok []).
  { intros fuel recursive key. unfold iter_all. cbn [walk]. rewrite Hs.
    reflexivity. }
  assert (Hitems : forall fuel recursive key,
            iter_items (S fuel) recursive key self h' = Ok []).
  { intros fuel recursive key. unfold iter_items. rewrite Hall.
    destruct key; reflexivity. }
  split; [intros fuel; unfold is_default; rewrite Hitems; reflexivity|].
  split.
  { intros fuel recursive key. split; [apply Hall|]. split; [apply Hitems|].
    unfold iter_sections. rewrite Hall. destruct key; reflexivity. }
  split; [intros fuel; unfold reset; rewrite Hitems; reflexivity|].
  assert (Hc : forall name, contains name self h' = (Ok false, h')).
  { intros name. unfold contains.
    rewrite (bind_ok _ _ _ _ _ (get_config_some _ _ _ Hs)).
    destruct name; reflexivity. }
  split; [|split; [exact Hc|]].
  - intros coerce entries. induction entries as [|[name value] rest IH];
      [reflexivity|].
    rewrite load_values_loop.
    assert (He : load_entry coerce hooks_handle
                   (load_values coerce hooks_handle value false) name value
                   false self h' = (Ok tt, h')).
    { unfold load_entry. rewrite (bind_ok _ _ _ _ _ (Hc name)). reflexivity. }
    rewrite (bind_ok _ _ _ _ _ He). exact IH.
  - intros name. unfold getitem.
    rewrite (resolve_name_absent no_hooks _ _ _ _ Hs eq_refl). reflexivity.
Qed.

(** ** Instances on the stores of the examples *)

(** Witness of [dump_values_empty_iff_no_override]: the section built from
    [{'a': 1, 'b': {'c': 2}}] dumps to nothing without defaults, so none of
    its items has an override. *)
Lemma dump_values_empty_iff_no_override_witness :
  tree_within 2 (built_ab 0) 0 = true
  /\ forall r it,
       reaches (built_ab 0) 0 r -> built_ab 0 !! r = Some (OItem it) ->
       item_is_default it = true.
Proof.
  split; [reflexivity|].
  apply (proj1 (dump_values_empty_iff_no_override 2 0 (built_ab 0) eq_refl)).
  reflexivity.
Defined.

(** Witness of [dump_values_defaults_add_keys]: [store_x]. *)
Lemma dump_values_defaults_add_keys_witness :
  tree_within 2 store_x 0 = true
  /\ exists d0 d1,
       dump_values 2 false 0 store_x = Ok d0
       /\ dump_values 2 true 0 store_x = Ok d1
       /\ (forall key, is_Some (py_get key d0) -> is_Some (py_get key d1))
       /\ (d0 <> [] -> d1 <> []).
Proof.
  split; [reflexivity|].
  exact (dump_values_defaults_add_keys 2 0 store_x eq_refl).
Defined.

(** Witness of [reset_changes_overrides_only]: resetting the section [s] of
    [store_x] leaves the item [x] of the parent, object [1], as it is. *)
Lemma reset_changes_overrides_only_witness :
  tree_within 1 store_x 2 = true
  /\ exists h',
       reset 1 2 store_x = (Ok tt, h')
       /\ length h' = length store_x
       /\ h' !! 0 = Some (OConfig section_x).
Proof.
  split; [reflexivity|].
  destruct (reset_changes_overrides_only 1 2 store_x eq_refl)
    as (h' & Hrun & Hlen & Hsec & _).
  exists h'. split; [exact Hrun|]. split; [exact Hlen|].
  apply Hsec. reflexivity.
Defined.

(** Witness of [reset_idempotent]: [store_x]. *)
Lemma reset_idempotent_witness :
  tree_within 2 store_x 0 = true
  /\ exists h',
       reset 2 0 store_x = (Ok tt, h') /\ reset 2 0 h' = (Ok tt, h').
Proof.
  split; [reflexivity|].
  destruct (reset_idempotent 2 0 store_x eq_refl) as (h' & H1 & H2 & _).
  exists h'. split; assumption.
Defined.

(** Witness of [is_default_iff_dump_empty]: [store_x], where [flag] has an
    override. *)
Lemma is_default_iff_dump_empty_witness :
  tree_within 2 store_x 0 = true
  /\ is_default 2 0 store_x = Ok false
  /\ exists d, dump_values 2 false 0 store_x = Ok d /\ d <> [].
Proof.
  split; [reflexivity|]. split; [reflexivity|].
  apply (proj2 (is_default_iff_dump_empty 2 0 store_x eq_refl)). reflexivity.
Defined.

(** Witness of [reset_then_dump_empty]: [store_x]. *)
Lemma reset_then_dump_empty_witness :
  tree_within 2 store_x 0 = true
  /\ exists h',
       reset 2 0 store_x = (Ok tt, h')
       /\ tree_within 2 h' 0 = true
       /\ dump_values 2 false 0 h' = Ok [].
Proof.
  split; [reflexivity|]. exact (reset_then_dump_empty 2 0 store_x eq_refl).
Defined.

Lemma read_only_no_hooks : read_only no_hooks.
Proof. intros ev h. reflexivity. Qed.

(** Witness of [resolve_leaves_store]: the path [('s', 'nope')] in
    [store_x] with no handler registered. *)
Lemma resolve_leaves_store_witness :
  read_only no_hooks
  /\ (_resolve_config_key no_hooks (VTuple [VStr "s"; VStr "nope"]) 0
        store_x).2 = store_x.
Proof.
  split; [exact read_only_no_hooks|].
  exact (proj1 (resolve_leaves_store no_hooks
                  (VTuple [VStr "s"; VStr "nope"]) 0 store_x
                  read_only_no_hooks)).
Defined.

(** Witness of [iter_items_sections_split]: the recursive iteration of
    [store_x]. *)
Lemma iter_items_sections_split_witness :
  iter_all 2 true KeyPath 0 store_x
  = Ok [Keyed (VTuple [VStr "x"]) 1; Keyed (VTuple [VStr "s"]) 2;
        Keyed (VTuple [VStr "s"; VStr "flag"]) 3]
  /\ exists items sections,
       iter_items 2 true KeyPath 0 store_x = Ok items
       /\ iter_sections 2 true KeyPath 0 store_x = Ok sections
       /\ 3 = length items + length sections.
Proof.
  split; [reflexivity|].
  destruct (iter_items_sections_split 2 true KeyPath 0 store_x _ eq_refl)
    as (items & sections & Hi & Hs & _ & _ & Hlen).
  exists items, sections. split; [exact Hi|]. split; [exact Hs | exact Hlen].
Defined.

(** Witness of [add_section_attaches_by_reference]: a detached empty section,
    object [4], is added to [store_x] under the alias [t]. *)
Lemma add_section_attaches_by_reference_witness :
  (store_x ++ [OConfig (mkConfig [] None None)]) !! 0
  = Some (OConfig section_x)
  /\ (store_x ++ [OConfig (mkConfig [] None None)]) !! 4
     = Some (OConfig (mkConfig [] None None))
  /\ 0 <> 4
  /\ exists h1,
       add_section no_hooks (VStr "t") (VRef 4) 0
         (store_x ++ [OConfig (mkConfig [] None None)]) = (Ok tt, h1)
       /\ getitem no_hooks (VStr "t") 0 h1 = (Ok (VRef 4), h1)
       /\ alias 4 h1 = (Ok (VStr "t"), h1).
Proof.
  split; [reflexivity|]. split; [reflexivity|]. split; [lia|].
  destruct (add_section_attaches_by_reference no_hooks 0 section_x "t" 4
              (mkConfig [] None None)
              (store_x ++ [OConfig (mkConfig [] None None)])
              eq_refl eq_refl ltac:(lia))
    as (h1 & _ & Hrun & _ & Hg & _ & Ha & _).
  exists h1. split; [exact Hrun|]. split; [exact Hg | exact Ha].
Defined.

(** Witness of [Config_init_empty]: [Config({})] in the empty store. *)
Lemma Config_init_empty_witness :
  truthy (VDict []) [] = false
  /\ Config_init no_hooks (VDict []) []
     = (Ok (VRef 0), [OConfig (mkConfig [] None None)])
  /\ dump_values 1 true 0 [OConfig (mkConfig [] None None)] = Ok [].
Proof.
  split; [reflexivity|].
  destruct (Config_init_empty no_hooks (VDict []) [] eq_refl)
    as (Hinit & _ & _ & Hdump & _).
  split; [exact Hinit | exact (Hdump 0 true)].
Defined.

(** ** Declaring with [load_values] and exporting with [dump_values] *)

Section DictAppend.
Context {K V : Type} (eqb : K -> K -> bool).
Hypothesis eqb_spec : forall a b, eqb a b = true <-> a = b.

Lemma dict_set_new k (v : V) d :
  dict_get eqb k d = None -> dict_set eqb k v d = d ++ [(k, v)].
Proof.
  induction d as [|[k' v'] d IH]; cbn; [reflexivity|].
  destruct (eqb k k'); [discriminate|]. intros Hn. rewrite (IH Hn). reflexivity.
Qed.

Lemma dict_set_again k (v : V) d :
  dict_get eqb k d = None ->
  dict_set eqb k v (d ++ [(k, v)]) = d ++ [(k, v)].
Proof.
  induction d as [|[k' v'] d IH]; cbn.
  - rewrite (eqb_same eqb eqb_spec). reflexivity.
  - destruct (eqb k k'); [discriminate|]. intros Hn. rewrite (IH Hn).
    reflexivity.
Qed.

Lemma dict_get_app_none k k' (v : V) d :
  dict_get eqb k d = None -> k <> k' ->
  dict_get eqb k (d ++ [(k', v)]) = None.
Proof.
  intros Hn Hne. induction d as [|[k0 v0] d IH]; cbn in *.
  - rewrite (eqb_other eqb eqb_spec _ _ Hne). reflexivity.
  - destruct (eqb k k0); [discriminate | exact (IH Hn)].
Qed.

Lemma dict_get_In_none k d :
  dict_get eqb k d = None -> forall (v : V), ~ In (k, v) d.
Proof.
  induction d as [|[k0 v0] d IH]; cbn; intros Hn v; [tauto|].
  destruct (eqb k k0) eqn:E; [discriminate|].
  intros [[= -> ->]|Hin]; [|exact (IH Hn v Hin)].
  rewrite (eqb_same eqb eqb_spec) in E. discriminate.
Qed.
End DictAppend.

Lemma with_item_new k it copy c :
  item_name it = Some k ->
  cfg_get k (_cm__configs c) = None ->
  with_item k it copy c
  = mkConfig (_cm__configs c ++ [(k, copy)]) (_cm__section c)
      (_cm__section_alias c).
Proof.
  intros Hn Hk. unfold with_item. rewrite Hn. cbn [default]. f_equal.
  unfold cfg_set, cfg_get in *.
  rewrite (dict_set_new _ _ _ _ Hk).
  exact (dict_set_again _ string_eqb_spec _ _ _ Hk).
Qed.

Lemma with_section_new k r c :
  cfg_get k (_cm__configs c) = None ->
  with_section k r c
  = mkConfig (_cm__configs c ++ [(k, r)]) (_cm__section c)
      (_cm__section_alias c).
Proof.
  intros Hk. unfold with_section. f_equal. exact (dict_set_new _ _ _ _ Hk).
Qed.

Section Declare.
Variable coerce : pytype -> pyval -> option pyval.
Variable hooks_handle : hook_event -> M pyval.
Hypothesis hooks_quiet : quiet hooks_handle.

Lemma load_entry_declares_item recur k v self c (h : heap) :
  h !! self = Some (OConfig c) ->
  cfg_get k (_cm__configs c) = None ->
  is_dict v = false ->
  load_entry coerce hooks_handle recur (VStr k) v true self h
  = (Ok tt,
     <[self := OConfig (mkConfig (_cm__configs c ++ [(k, S (length h))])
                          (_cm__section c) (_cm__section_alias c))]>
       (h ++ [OItem (declared_item k v); OItem (declared_item k v)])).
Proof.
  intros Hs Hk Hd.
  destruct (load_entry_new_item coerce hooks_handle recur k v self c h Hs Hk Hd)
    as (Hrun & _ & _).
  rewrite Hrun, (with_item_new k (declared_item k v) _ c eq_refl Hk).
  destruct (hooks_quiet (ITEM_ADDED_TO_SECTION (VStr k) self (VRef (S (length h))))
              (<[self := OConfig (mkConfig (_cm__configs c ++ [(k, S (length h))])
                            (_cm__section c) (_cm__section_alias c))]>
                 (h ++ [OItem (declared_item k v); OItem (declared_item k v)])))
    as [result Hres].
  rewrite (bind_ok _ _ _ _ _ Hres). reflexivity.
Qed.

Lemma load_entry_declares_section recur k sub self c (h : heap) :
  h !! self = Some (OConfig c) ->
  cfg_get k (_cm__configs c) = None ->
  load_entry coerce hooks_handle recur (VStr k) (VDict sub) true self h
  = recur (length h)
      (<[length h := OConfig (mkConfig [] (Some self) (Some k))]>
         (<[self := OConfig (mkConfig (_cm__configs c ++ [(k, length h)])
                              (_cm__section c) (_cm__section_alias c))]>
            (h ++ [OConfig (mkConfig [] None None)]))).
Proof.
  intros Hs Hk.
  destruct (load_entry_new_section coerce hooks_handle recur k sub self c h Hs Hk)
    as (_ & _ & _ & Hq).
  rewrite (with_section_new _ _ _ Hk) in Hq.
  destruct (hooks_quiet (SECTION_ADDED_TO_SECTION (VStr k) self (VRef (length h)))
              (<[length h := OConfig (attached k self (mkConfig [] None None))]>
                 (<[self := OConfig (mkConfig (_cm__configs c ++ [(k, length h)])
                                      (_cm__section c) (_cm__section_alias c))]>
                    (h ++ [OConfig (mkConfig [] None None)]))))
    as [result Hres].
  exact (Hq result Hres).
Qed.

Lemma loads_to_nil (h : heap) self c :
  h !! self = Some (OConfig c) -> loads_to h self c [] h.
Proof.
  intros Hs. exists []. split; [lia|]. split; [reflexivity|].
  split; [|split].
  - rewrite app_nil_r. destruct c; exact Hs.
  - intros h'' fuel values _ _ _. cbn. rewrite app_nil_r. reflexivity.
  - intros h'' fuel values _ _. reflexivity.
Qed.

Lemma py_set_new k v (values : pydict) :
  py_get k values = None -> py_set k v values = values ++ [(k, v)].
Proof. apply dict_set_new. Qed.

Lemma fresh_after k v rest (values : pydict) :
  py_get (VStr k) rest = None ->
  (forall k' v', In (k', v') ((VStr k, v) :: rest) -> py_get k' values = None) ->
  forall k' v', In (k', v') rest ->
                py_get k' (values ++ [(VStr k, v)]) = None.
Proof.
  intros Hk Hfresh k' v' Hin.
  apply (dict_get_app_none _ pyval_eqb_spec).
  - exact (Hfresh k' v' (or_intror Hin)).
  - intros ->. exact (dict_get_In_none _ pyval_eqb_spec _ _ Hk v' Hin).
Qed.

Lemma entries_depth_cons k v rest :
  entries_depth dict_depth ((k, v) :: rest)
  = Nat.max (dict_depth v) (entries_depth dict_depth rest).
Proof. reflexivity. Qed.

Lemma loads_to_item k v rest self c (h h' : heap) :
  h !! self = Some (OConfig c) ->
  plain_value plain_dict v = true ->
  is_dict v = false ->
  py_get (VStr k) rest = None ->
  loads_to
    (<[self := OConfig (mkConfig (_cm__configs c ++ [(k, S (length h))])
                          (_cm__section c) (_cm__section_alias c))]>
       (h ++ [OItem (declared_item k v); OItem (declared_item k v)]))
    self
    (mkConfig (_cm__configs c ++ [(k, S (length h))])
       (_cm__section c) (_cm__section_alias c))
    rest h' ->
  loads_to h self c ((VStr k, v) :: rest) h'.
Proof.
  intros Hs Hplain Hd Hk.
  set (c2 := mkConfig (_cm__configs c ++ [(k, S (length h))])
               (_cm__section c) (_cm__section_alias c)).
  set (h2 := <[self := OConfig c2]>
               (h ++ [OItem (declared_item k v); OItem (declared_item k v)])).
  intros (bs & Hlen & Hframe & Hself & Hdump & Hdump0).
  pose proof (lookup_lt_Some _ _ _ Hs) as Hlt.
  assert (Hl2 : length h2 = S (S (length h)))
    by (unfold h2; rewrite length_insert, length_app; cbn; lia).
  assert (Hcopy : h2 !! S (length h) = Some (OItem (declared_item k v))).
  { unfold h2. rewrite list_lookup_insert_ne by lia.
    rewrite lookup_app_r by lia.
    replace (S (length h) - length h) with 1 by lia. reflexivity. }
  exists ((k, S (length h)) :: bs).
  split; [lia|]. split; [|split; [|split]].
  - intros x Hx Hne. rewrite (Hframe x ltac:(lia) Hne). unfold h2.
    rewrite list_lookup_insert_ne by (intros E; apply Hne; symmetry; exact E).
    apply lookup_app_l. exact Hx.
  - rewrite Hself. cbn [_cm__configs _cm__section _cm__section_alias c2].
    rewrite <- app_assoc. reflexivity.
  - intros h'' fuel values Hagree Hdepth Hfresh.
    cbn [dump_entries].
    rewrite (Hagree (S (length h)) ltac:(lia)),
      (Hframe (S (length h)) ltac:(lia) ltac:(lia)), Hcopy.
    rewrite entries_depth_cons in Hdepth.
    assert (Hrest : dump_entries (fun r => dump_values fuel true r h'') true h''
                      bs (values ++ [(VStr k, v)])
                    = Ok ((values ++ [(VStr k, v)]) ++ rest)).
    { apply Hdump.
      - intros x Hx. apply Hagree. lia.
      - lia.
      - exact (fresh_after _ _ _ _ Hk Hfresh). }
    rewrite <- app_assoc in Hrest. cbn [app] in Hrest.
    pose proof (py_set_new (VStr k) v values
                  (Hfresh _ _ (or_introl eq_refl))) as Hset.
    destruct v; try discriminate; cbn; cbn in Hset; rewrite Hset; exact Hrest.
  - intros h'' fuel values Hagree Hdepth.
    cbn [dump_entries].
    rewrite (Hagree (S (length h)) ltac:(lia)),
      (Hframe (S (length h)) ltac:(lia) ltac:(lia)), Hcopy.
    rewrite entries_depth_cons in Hdepth.
    assert (Hrest : dump_entries (fun r => dump_values fuel false r h'') false
                      h'' bs values = Ok values).
    { apply Hdump0; [intros x Hx; apply Hagree; lia | lia]. }
    destruct v; try discriminate; exact Hrest.
Qed.

Lemma loads_to_section k sub rest self c (h h3 h' : heap) :
  h !! self = Some (OConfig c) ->
  sub <> [] ->
  py_get (VStr k) rest = None ->
  loads_to
    (<[length h := OConfig (mkConfig [] (Some self) (Some k))]>
       (<[self := OConfig (mkConfig (_cm__configs c ++ [(k, length h)])
                            (_cm__section c) (_cm__section_alias c))]>
          (h ++ [OConfig (mkConfig [] None None)])))
    (length h) (mkConfig [] (Some self) (Some k)) sub h3 ->
  loads_to h3 self
    (mkConfig (_cm__configs c ++ [(k, length h)])
       (_cm__section c) (_cm__section_alias c))
    rest h' ->
  loads_to h self c ((VStr k, VDict sub) :: rest) h'.
Proof.
  intros Hs Hsub Hk.
  set (c2 := mkConfig (_cm__configs c ++ [(k, length h)])
               (_cm__section c) (_cm__section_alias c)).
  set (cs := mkConfig [] (Some self) (Some k)).
  set (h2 := <[length h := OConfig cs]>
               (<[self := OConfig c2]> (h ++ [OConfig (mkConfig [] None None)]))).
  intros (bss & Hlens & Hframes & Hselfs & Hdumps & Hdumps0)
         (bs & Hlen & Hframe & Hself & Hdump & Hdump0).
  pose proof (lookup_lt_Some _ _ _ Hs) as Hlt.
  assert (Hl2 : length h2 = S (length h))
    by (unfold h2; rewrite !length_insert, length_app; cbn; lia).
  exists ((k, length h) :: bs).
  assert (Hsec : forall h'' : heap,
            (forall x, length h <= x < length h' -> h'' !! x = h' !! x) ->
            h'' !! length h
            = Some (OConfig (mkConfig bss (Some self) (Some k)))).
  { intros h'' Hagree.
    rewrite (Hagree (length h) ltac:(lia)),
      (Hframe (length h) ltac:(lia) ltac:(lia)), Hselfs. reflexivity. }
  assert (Hinner : forall (h'' : heap) x,
            (forall x, length h <= x < length h' -> h'' !! x = h' !! x) ->
            length h2 <= x < length h3 -> h'' !! x = h3 !! x).
  { intros h'' x Hagree Hx. rewrite (Hagree x ltac:(lia)).
    apply Hframe; lia. }
  split; [lia|]. split; [|split; [|split]].
  - intros x Hx Hne. rewrite (Hframe x ltac:(lia) Hne).
    rewrite (Hframes x ltac:(lia) ltac:(lia)). unfold h2.
    rewrite list_lookup_insert_ne by lia.
    rewrite list_lookup_insert_ne by (intros E; apply Hne; symmetry; exact E).
    apply lookup_app_l. exact Hx.
  - rewrite Hself. cbn [_cm__configs _cm__section _cm__section_alias c2].
    rewrite <- app_assoc. reflexivity.
  - intros h'' fuel values Hagree Hdepth Hfresh.
    cbn [dump_entries]. rewrite (Hsec h'' Hagree).
    rewrite entries_depth_cons in Hdepth. cbn [dict_depth] in Hdepth.
    destruct fuel as [|fuel]; [lia|].
    assert (Hchild : dump_values (S fuel) true (length h) h'' = Ok sub).
    { cbn [dump_values]. rewrite (Hsec h'' Hagree). cbn [_cm__configs].
      apply (Hdumps h'' fuel []).
      - intros x Hx. exact (Hinner h'' x Hagree Hx).
      - lia.
      - intros k' v' _. reflexivity. }
    rewrite Hchild.
    assert (Htruthy : dict_truthy sub = true)
      by (destruct sub; [contradiction | reflexivity]).
    rewrite Htruthy.
    rewrite (py_set_new (VStr k) (VDict sub) values
               (Hfresh _ _ (or_introl eq_refl))).
    assert (Hrest : dump_entries (fun r => dump_values (S fuel) true r h'') true
                      h'' bs (values ++ [(VStr k, VDict sub)])
                    = Ok ((values ++ [(VStr k, VDict sub)]) ++ rest)).
    { apply Hdump.
      - intros x Hx. apply Hagree. lia.
      - lia.
      - exact (fresh_after _ _ _ _ Hk Hfresh). }
    rewrite <- app_assoc in Hrest. exact Hrest.
  - intros h'' fuel values Hagree Hdepth.
    cbn [dump_entries]. rewrite (Hsec h'' Hagree).
    rewrite entries_depth_cons in Hdepth. cbn [dict_depth] in Hdepth.
    destruct fuel as [|fuel]; [lia|].
    assert (Hchild : dump_values (S fuel) false (length h) h'' = Ok []).
    { cbn [dump_values]. rewrite (Hsec h'' Hagree). cbn [_cm__configs].
      apply (Hdumps0 h'' fuel []).
      - intros x Hx. exact (Hinner h'' x Hagree Hx).
      - lia. }
    rewrite Hchild. cbn [dict_truthy].
    apply Hdump0; [intros x Hx; apply Hagree; lia | lia].
Qed.


Lemma load_values_declares_entries entries :
  Forall (fun kv : pyval * pyval =>
            declares coerce hooks_handle kv.1
            /\ declares coerce hooks_handle kv.2) entries ->
  distinct_names entries = true ->
  forallb (fun kv : pyval * pyval => plain_value plain_dict kv.2) entries
  = true ->
  forall self c (h : heap),
    h !! self = Some (OConfig c) ->
    (forall k x, In (VStr k, x) entries ->
                 cfg_get k (_cm__configs c) = None) ->
    exists h',
      load_values coerce hooks_handle (VDict entries) true self h = (Ok tt, h')
      /\ loads_to h self c entries h'.
Proof.
  induction 1 as [|[name v] rest [_ Hv] _ IH]; intros Hnames Hplain self c h Hs Hun.
  - exists h. split; [reflexivity | exact (loads_to_nil _ _ _ Hs)].
  - cbn [fst snd] in Hv. cbn [distinct_names] in Hnames.
    destruct name as [| | | |k| | | |]; try discriminate.
    destruct (py_get (VStr k) rest) eqn:Hk; [discriminate|].
    cbn [forallb snd] in Hplain. apply andb_true_iff in Hplain as [Hpv Hprest].
    pose proof (Hun k v (or_introl eq_refl)) as Hkc.
    pose proof (lookup_lt_Some _ _ _ Hs) as Hlt.
    assert (Hun2 : forall r k' x, In (VStr k', x) rest ->
              cfg_get k' (_cm__configs c ++ [(k, r)]) = None).
    { intros r k' x Hin. apply (dict_get_app_none _ string_eqb_spec).
      - exact (Hun k' x (or_intror Hin)).
      - intros ->. exact (dict_get_In_none _ pyval_eqb_spec _ _ Hk x Hin). }
    rewrite load_values_loop.
    destruct (is_dict v) eqn:Hd.
    + destruct v as [| | | | | | |sub|]; try discriminate.
      destruct sub as [|kv sub]; [discriminate|]. cbn [plain_value] in Hpv.
      rewrite (bind_unfold _ _ h).
      rewrite (load_entry_declares_section _ k (kv :: sub) self c h Hs Hkc).
      set (c2 := mkConfig (_cm__configs c ++ [(k, length h)])
                   (_cm__section c) (_cm__section_alias c)).
      set (cs := mkConfig [] (Some self) (Some k)).
      set (h2 := <[length h := OConfig cs]>
                   (<[self := OConfig c2]>
                      (h ++ [OConfig (mkConfig [] None None)]))).
      assert (Hl2 : length h2 = S (length h))
        by (unfold h2; rewrite !length_insert, length_app; cbn; lia).
      assert (Hs2 : h2 !! length h = Some (OConfig cs)).
      { unfold h2. apply list_lookup_insert_eq.
        rewrite length_insert, length_app. cbn. lia. }
      destruct (Hv (kv :: sub) eq_refl Hpv (length h) cs h2 Hs2
                  (fun _ _ _ => eq_refl)) as (h3 & Hrun3 & Hto3).
      rewrite Hrun3.
      assert (Hs3 : h3 !! self = Some (OConfig c2)).
      { destruct Hto3 as (bss & _ & Hframes & _).
        rewrite (Hframes self ltac:(lia) ltac:(lia)). unfold h2.
        rewrite list_lookup_insert_ne by lia.
        apply list_lookup_insert_eq. rewrite length_app. lia. }
      destruct (IH Hnames Hprest self c2 h3 Hs3 (Hun2 (length h)))
        as (h' & Hrun & Hto).
      exists h'. split; [exact Hrun|].
      exact (loads_to_section k (kv :: sub) rest self c h h3 h' Hs
               ltac:(discriminate) Hk Hto3 Hto).
    + rewrite (bind_ok _ _ _ _ _
                 (load_entry_declares_item _ k v self c h Hs Hkc Hd)).
      set (c2 := mkConfig (_cm__configs c ++ [(k, S (length h))])
                   (_cm__section c) (_cm__section_alias c)).
      set (h2 := <[self := OConfig c2]>
                   (h ++ [OItem (declared_item k v); OItem (declared_item k v)])).
      assert (Hs2 : h2 !! self = Some (OConfig c2)).
      { unfold h2. apply list_lookup_insert_eq. rewrite length_app. lia. }
      destruct (IH Hnames Hprest self c2 h2 Hs2 (Hun2 (S (length h))))
        as (h' & Hrun & Hto).
      exists h'. split; [exact Hrun|].
      exact (loads_to_item k v rest self c h h' Hs Hpv Hd Hk Hto).
Qed.

Lemma load_values_declares v : declares coerce hooks_handle v.
Proof.
  induction v as [ | | b | n | s | xs _ | xs _ | kvs IH | r ]
    using pyval_nested_ind; intros entries E; try discriminate.
  injection E as <-. intros Hplain self c h Hs Hun.
  cbn [plain_dict] in Hplain. apply andb_true_iff in Hplain as [Hnames Hvalues].
  exact (load_values_declares_entries kvs IH Hnames Hvalues self c h Hs Hun).
Qed.
End Declare.

(** X15: what [load_values] declares, [dump_values] gives back.  Let the
    dictionary be of plain data: string keys, and values that are non-empty
    dictionaries of the same kind or data other than a dictionary, [not_set]
    or an object.  When the handlers return and leave the store alone,
    loading it with [as_defaults=True] into a section without children
    succeeds, and [dump_values] of that section then returns the very
    dictionary, entry for entry and in the same order, at every level, under
    any recursion allowance that covers its depth; only defaults were
    declared, so the dump without defaults is empty. *)
Theorem load_values_then_dump_values coerce hooks_handle entries self c
    (h : heap) :
  quiet hooks_handle ->
  plain_dict (VDict entries) = true ->
  h !! self = Some (OConfig c) ->
  _cm__configs c = [] ->
  exists h',
    load_values coerce hooks_handle (VDict entries) true self h = (Ok tt, h')
    /\ forall fuel,
         dict_depth (VDict entries) <= fuel ->
         dump_values fuel true self h' = Ok entries
         /\ dump_values fuel false self h' = Ok [].
Proof.
  intros Hq Hplain Hs Hc.
  destruct (load_values_declares coerce hooks_handle Hq (VDict entries) entries
              eq_refl Hplain self c h Hs)
    as (h' & Hrun & bs & _ & _ & Hself & Hdump & Hdump0).
  { intros k x _. rewrite Hc. reflexivity. }
  exists h'. split; [exact Hrun|].
  intros fuel Hfuel. cbn [dict_depth] in Hfuel.
  destruct fuel as [|fuel]; [lia|].
  cbn [dump_values]. rewrite Hself, Hc. cbn [_cm__configs app]. split.
  - apply (Hdump h' fuel []).
    + reflexivity.
    + lia.
    + intros k v _. reflexivity.
  - apply (Hdump0 h' fuel []); [reflexivity | lia].
Qed.

Lemma quiet_no_hooks : quiet no_hooks.
Proof. intros ev h. exists VNone. reflexivity. Qed.

(** Witness of [load_values_then_dump_values]: the dictionary
    [{'a': 1, 'b': {'c': 2}}] declared in an empty section. *)
Lemma load_values_then_dump_values_witness :
  quiet no_hooks
  /\ plain_dict declaration_ab = true
  /\ exists h',
       load_values spec_coerce no_hooks declaration_ab true 0
         [OConfig (mkConfig [] None None)] = (Ok tt, h')
       /\ dump_values 2 true 0 h'
          = Ok [(VStr "a", VInt 1); (VStr "b", VDict [(VStr "c", VInt 2)])].
Proof.
  split; [exact quiet_no_hooks|]. split; [reflexivity|].
  destruct (load_values_then_dump_values spec_coerce no_hooks
              [(VStr "a", VInt 1); (VStr "b", VDict [(VStr "c", VInt 2)])]
              0 (mkConfig [] None None) [OConfig (mkConfig [] None None)]
              quiet_no_hooks eq_refl eq_refl eq_refl) as (h' & Hrun & Hdump).
  exists h'. split; [exact Hrun|]. apply (Hdump 2). cbn. lia.
Defined.

(** ** Iterated paths resolve *)

Lemma walk_entries_paths walk_child recursive (h : heap) prefix self c
    entries :
  well_bound h ->
  h !! self = Some (OConfig c) ->
  (forall p r l,
      walk_child p r = Ok l ->
      forall q x, In (q, x) l ->
        exists k ks, q = p ++ map VStr (k :: ks)
                     /\ lookup_path h r (k :: ks) = Some x) ->
  (forall kr, In kr entries -> In kr (_cm__configs c)) ->
  forall seen l,
    walk_entries walk_child recursive h prefix entries seen = Ok l ->
    forall q x, In (q, x) l ->
      exists k ks, q = prefix ++ map VStr (k :: ks)
                   /\ lookup_path h self (k :: ks) = Some x.
Proof.
  intros Hwb Hs Hchild. induction entries as [|[k r] rest IH];
    intros Hincl seen l Hl q x Hin.
  - cbn in Hl. injection Hl as <-. destruct Hin.
  - assert (Hincl' : forall kr, In kr rest -> In kr (_cm__configs c))
      by (intros kr Hkr; apply Hincl; right; exact Hkr).
    destruct (Hwb self c k r Hs (Hincl _ (or_introl eq_refl))) as [Hk Hname].
    cbn in Hl. destruct (seen_before r seen); [exact (IH Hincl' _ _ Hl _ _ Hin)|].
    destruct (h !! r) as [[it|cr]|] eqn:Hr; [| |discriminate].
    + destruct (walk_entries walk_child recursive h prefix rest (r :: seen))
        as [more|e] eqn:Hm; [|discriminate].
      injection Hl as <-. destruct Hin as [[= <- <-]|Hin];
        [|exact (IH Hincl' _ _ Hm _ _ Hin)].
      destruct (Hname it eq_refl) as (n & Hn & Hbound).
      exists n, []. split.
      * unfold name_of. rewrite Hn. reflexivity.
      * cbn. rewrite Hs, Hbound. reflexivity.
    + destruct (if recursive then walk_child (prefix ++ [VStr k]) r else Ok [])
        as [below|e] eqn:Hb; [|discriminate].
      destruct (walk_entries walk_child recursive h prefix rest (r :: seen))
        as [more|e] eqn:Hm; [|discriminate].
      injection Hl as <-. destruct Hin as [[= <- <-]|Hin].
      * exists k, []. split; [reflexivity|]. cbn. rewrite Hs, Hk. reflexivity.
      * apply in_app_or in Hin as [Hin|Hin]; [|exact (IH Hincl' _ _ Hm _ _ Hin)].
        destruct recursive; [|injection Hb as <-; destruct Hin].
        destruct (Hchild _ _ _ Hb _ _ Hin) as (k' & ks & -> & Hlook).
        exists k, (k' :: ks). split.
        -- rewrite <- app_assoc. reflexivity.
        -- rewrite (lookup_path_cons _ _ _ _ _ _ Hs Hk). exact Hlook.
Qed.

Lemma walk_paths n recursive (h : heap) prefix r l :
  well_bound h ->
  walk n recursive h prefix r = Ok l ->
  forall q x, In (q, x) l ->
    exists k ks, q = prefix ++ map VStr (k :: ks)
                 /\ lookup_path h r (k :: ks) = Some x.
Proof.
  intros Hwb. revert prefix r l.
  induction n as [|n IH]; intros prefix r l Hl q x Hin; [discriminate|].
  cbn in Hl. destruct (h !! r) as [[it|c]|] eqn:Hr; try discriminate.
  exact (walk_entries_paths _ _ _ _ _ _ _ Hwb Hr (fun p r l => IH p r l)
           (fun kr H => H) _ _ Hl _ _ Hin).
Qed.

Lemma paths_of_In xs paths path :
  paths_of xs = Ok paths -> In path paths ->
  exists child, In (Keyed path child) xs.
Proof.
  revert paths. induction xs as [|[c|p c] xs IH]; intros paths Hp Hin.
  - injection Hp as <-. destruct Hin.
  - discriminate.
  - cbn in Hp. destruct (paths_of xs) as [ps|e]; [|discriminate].
    injection Hp as <-. destruct Hin as [<-|Hin].
    + exists c. left. reflexivity.
    + destruct (IH ps eq_refl Hin) as [child Hchild]. exists child. right.
      exact Hchild.
Qed.

(** X16: the paths of the iterators resolve.  In a store where every
    mapping binds each key once and every item under its own name, each
    pair that [iter_all] yields with [key='path'], and so each pair that
    [iter_items] and [iter_sections] yield, has a path that resolves, from
    the section iterated, to the child it is paired with: [self[path]] is
    that child, whatever handlers are registered, and the store is left as
    it was.  Every path that [iter_paths] yields resolves to a child in the
    same way. *)
Theorem iterated_paths_resolve hooks_handle fuel recursive self (h : heap)
    all :
  well_bound h ->
  iter_all fuel recursive KeyPath self h = Ok all ->
  (forall path child,
      In (Keyed path child) all ->
      getitem hooks_handle path self h = (Ok (VRef child), h))
  /\ (forall items path child,
        iter_items fuel recursive KeyPath self h = Ok items ->
        In (Keyed path child) items ->
        getitem hooks_handle path self h = (Ok (VRef child), h))
  /\ (forall sections path child,
        iter_sections fuel recursive KeyPath self h = Ok sections ->
        In (Keyed path child) sections ->
        getitem hooks_handle path self h = (Ok (VRef child), h))
  /\ (forall paths path,
        iter_paths fuel recursive KeyPath self h = Passed (Ok paths) ->
        In path paths ->
        exists child,
          getitem hooks_handle path self h = (Ok (VRef child), h)).
Proof.
  intros Hwb Hall.
  assert (Hres : forall path child,
            In (Keyed path child) all ->
            getitem hooks_handle path self h = (Ok (VRef child), h)).
  { intros path child Hin. unfold iter_all in Hall.
    destruct (walk fuel recursive h [] self) as [l|e] eqn:Hl; [|discriminate].
    rewrite key_all_path in Hall. injection Hall as <-.
    apply in_map_iff in Hin as ([q x] & [= <- <-] & Hin).
    destruct (walk_paths _ _ _ _ _ _ Hwb Hl _ _ Hin) as (k & ks & -> & Hlook).
    exact (resolve_bound hooks_handle ks k self x h Hlook). }
  split; [exact Hres|]. split; [|split].
  - intros items path child Hitems Hin.
    rewrite (iter_items_filter _ _ _ _ _ _ Hall) in Hitems.
    injection Hitems as <-. apply filter_In in Hin as [Hin _].
    exact (Hres _ _ Hin).
  - intros sections path child Hsections Hin.
    rewrite (iter_sections_filter _ _ _ _ _ _ Hall) in Hsections.
    injection Hsections as <-. apply filter_In in Hin as [Hin _].
    exact (Hres _ _ Hin).
  - intros paths path Hpaths Hin. unfold iter_paths in Hpaths.
    rewrite Hall in Hpaths. injection Hpaths as Hpaths.
    destruct (paths_of_In _ _ _ Hpaths Hin) as [child Hchild].
    exists child. exact (Hres _ _ Hchild).
Qed.

Lemma well_bound_store_x : well_bound store_x.
Proof.
  intros s c k r Hs Hin.
  destruct s as [|[|[|[|s]]]]; cbn in Hs; try discriminate;
    injection Hs as <-; cbn in Hin;
    destruct Hin as [[= <- <-]|[[= <- <-]|[]]];
    (split; [reflexivity|]); intros it Hit; cbn in Hit;
    try discriminate; injection Hit as <-; eexists; split; reflexivity.
Qed.

(** Witness of [iterated_paths_resolve]: the path [('s', 'flag')] that the
    recursive iteration of [store_x] yields with the item [flag]. *)
Lemma iterated_paths_resolve_witness :
  well_bound store_x
  /\ iter_all 2 true KeyPath 0 store_x
     = Ok [Keyed (VTuple [VStr "x"]) 1; Keyed (VTuple [VStr "s"]) 2;
           Keyed (VTuple [VStr "s"; VStr "flag"]) 3]
  /\ getitem no_hooks (VTuple [VStr "s"; VStr "flag"]) 0 store_x
     = (Ok (VRef 3), store_x).
Proof.
  split; [exact well_bound_store_x|]. split; [reflexivity|].
  apply (proj1 (iterated_paths_resolve no_hooks 2 true 0 store_x _
                  well_bound_store_x eq_refl)).
  right. right. left. reflexivity.
Defined.

(** ** Loading along a path, and in parts *)

Section LoadPath.
Variable coerce : pytype -> pyval -> option pyval.
Variable hooks_handle : hook_event -> M pyval.

Lemma load_values_single name value as_defaults self (h : heap) :
  load_values coerce hooks_handle (VDict [(name, value)]) as_defaults self h
  = load_entry coerce hooks_handle
      (load_values coerce hooks_handle value as_defaults) name value
      as_defaults self h.
Proof.
  rewrite load_values_loop, bind_unfold.
  destruct (load_entry _ _ _ _ _ _ _ _) as [[[]|e] h']; reflexivity.
Qed.

Lemma load_values_nested ks :
  forall k self r it v as_defaults (h : heap),
    lookup_path h self (k :: ks) = Some r ->
    h !! r = Some (OItem it) ->
    load_values coerce hooks_handle (nested (k :: ks) v) as_defaults self h
    = match (if as_defaults then set_default coerce v it
             else set_value coerce v it) with
      | Ok it' => (Ok tt, <[r := OItem it']> h)
      | Raise e => (Raise e, h)
      end.
Proof.
  induction ks as [|k' ks IH]; intros k self r it v as_defaults h Hl Hr.
  - cbn in Hl. destruct (h !! self) as [[its|c]|] eqn:Hs; try discriminate.
    destruct (cfg_get k (_cm__configs c)) as [child|] eqn:Hk; [|discriminate].
    injection Hl as ->. cbn [nested]. rewrite load_values_single.
    exact (load_entry_known_item _ _ _ _ _ _ _ _ _ _ _ Hs Hk Hr).
  - pose proof Hl as Hl'. cbn [lookup_path] in Hl'.
    destruct (h !! self) as [[its|c]|] eqn:Hs; try discriminate.
    destruct (cfg_get k (_cm__configs c)) as [child|] eqn:Hk; [|discriminate].
    destruct (h !! child) as [[itc|s]|] eqn:Hc; try discriminate.
    change (nested (k :: k' :: ks) v)
      with (VDict [(VStr k, nested (k' :: ks) v)]).
    rewrite load_values_single.
    rewrite (load_entry_known_section _ _ _ _ _ _ _ _ _ _ _ Hs Hk Hc).
    apply (IH k' child r it v as_defaults h); [|exact Hr].
    cbn [lookup_path]. rewrite Hc. exact Hl'.
Qed.

(** X17: loading a nested dictionary writes through the path.  When the
    names [k, ...] lead from the section to an item, loading the dictionary
    that nests one value under these names is the write of that value to the
    item: with [as_defaults=False], [load_values({k: {...: v}})] does what
    [self[k, ...].value = v] does, the coerced value becomes the override of
    that one object and nothing else changes, or the item's coercion raises
    and nothing changes; with [as_defaults=True] the item's default is
    written instead. *)
Theorem load_values_writes_through_path k ks self r it v (h : heap) :
  lookup_path h self (k :: ks) = Some r ->
  h !! r = Some (OItem it) ->
  load_values coerce hooks_handle (nested (k :: ks) v) false self h
  = match set_value coerce v it with
    | Ok it' => (Ok tt, <[r := OItem it']> h)
    | Raise e => (Raise e, h)
    end
  /\ load_values coerce hooks_handle (nested (k :: ks) v) false self h
     = write_through_value coerce hooks_handle (VTuple (map VStr (k :: ks))) v
         self h
  /\ load_values coerce hooks_handle (nested (k :: ks) v) true self h
     = match set_default coerce v it with
       | Ok it' => (Ok tt, <[r := OItem it']> h)
       | Raise e => (Raise e, h)
       end.
Proof.
  intros Hl Hr.
  pose proof (load_values_nested ks k self r it v false h Hl Hr) as Hv.
  split; [exact Hv|]. split; [|exact (load_values_nested ks k self r it v true h Hl Hr)].
  rewrite Hv. unfold write_through_value, getitem.
  rewrite (bind_ok _ _ _ _ _ (resolve_bound hooks_handle ks k self r h Hl)).
  unfold item_set_value.
  rewrite (bind_ok _ _ _ _ _ (get_item_some _ _ _ Hr)).
  rewrite bind_unfold. unfold lift.
  destruct (set_value coerce v it); reflexivity.
Qed.

Lemma load_values_app l1 l2 as_defaults self (h : heap) :
  load_values coerce hooks_handle (VDict (l1 ++ l2)) as_defaults self h
  = (load_values coerce hooks_handle (VDict l1) as_defaults self;;
     load_values coerce hooks_handle (VDict l2) as_defaults self) h.
Proof.
  revert h. induction l1 as [|[name value] l1 IH]; intros h; [reflexivity|].
  cbn [app]. rewrite !load_values_loop, !bind_unfold.
  destruct (load_entry _ _ _ _ _ _ _ _) as [[[]|e] h1]; [|reflexivity].
  rewrite IH, bind_unfold. reflexivity.
Qed.

(** X18: [load_values] works through the entries in order and does not
    roll back.  Loading a dictionary is loading a first part of its entries
    and then the rest, in the store the first part left.  So when the first
    part raises, the rest is not looked at and the call raises the same
    exception; and whenever the call raises, what the entries before the
    failing one wrote stays written.  A [dictionary] that is not one raises
    an [AttributeError] and leaves the store as it was. *)
Theorem load_values_in_order l1 l2 as_defaults self (h : heap) :
  load_values coerce hooks_handle (VDict (l1 ++ l2)) as_defaults self h
  = (load_values coerce hooks_handle (VDict l1) as_defaults self;;
     load_values coerce hooks_handle (VDict l2) as_defaults self) h
  /\ (forall e h1,
        load_values coerce hooks_handle (VDict l1) as_defaults self h
        = (Raise e, h1) ->
        load_values coerce hooks_handle (VDict (l1 ++ l2)) as_defaults self h
        = (Raise e, h1))
  /\ (forall h1 e h2,
        load_values coerce hooks_handle (VDict l1) as_defaults self h
        = (Ok tt, h1) ->
        load_values coerce hooks_handle (VDict l2) as_defaults self h1
        = (Raise e, h2) ->
        load_values coerce hooks_handle (VDict (l1 ++ l2)) as_defaults self h
        = (Raise e, h2))
  /\ (forall dictionary,
        is_dict dictionary = false ->
        load_values coerce hooks_handle dictionary as_defaults self h
        = (Raise AttributeError, h)).
Proof.
  split; [apply load_values_app|]. split; [|split].
  - intros e h1 H1. rewrite load_values_app, bind_unfold, H1. reflexivity.
  - intros h1 e h2 H1 H2. rewrite load_values_app, bind_unfold, H1. exact H2.
  - intros dictionary Hd. destruct dictionary; try reflexivity. discriminate.
Qed.
End LoadPath.

(** Witness of [load_values_writes_through_path]: the text ['no'] loaded
    for the item [flag] of the section [s] of [store_x]. *)
Lemma load_values_writes_through_path_witness :
  lookup_path store_x 0 ["s"; "flag"] = Some 3
  /\ load_values spec_coerce no_hooks (nested ["s"; "flag"] (VStr "no")) false
       0 store_x
     = write_through_value spec_coerce no_hooks
         (VTuple [VStr "s"; VStr "flag"]) (VStr "no") 0 store_x.
Proof.
  split; [reflexivity|].
  exact (proj1 (proj2 (load_values_writes_through_path spec_coerce no_hooks
                         "s" ["flag"] 0 3 _ (VStr "no") store_x
                         eq_refl eq_refl))).
Defined.

(** Witness of [load_values_in_order] in [store_x]: the entry for [x] is
    loaded, the entry for [flag] is refused, and [x] keeps the value [7]. *)
Lemma load_values_in_order_witness :
  let h1 := <[1 := OItem (mkItem (Some "x") (Some TInt) (Some (VInt 5))
                            (Some (VInt 7)))]> store_x in
  load_values spec_coerce no_hooks (VDict [(VStr "x", VStr "7")]) false 0
    store_x = (Ok tt, h1)
  /\ load_values spec_coerce no_hooks
       (VDict ([(VStr "x", VStr "7")]
               ++ [(VStr "s", VDict [(VStr "flag", VStr "maybe")])]))
       false 0 store_x
     = (Raise TypeError, h1).
Proof.
  intros h1. split; [reflexivity|].
  apply (proj1 (proj2 (proj2 (load_values_in_order spec_coerce no_hooks
                                [(VStr "x", VStr "7")]
                                [(VStr "s", VDict [(VStr "flag", VStr "maybe")])]
                                false 0 store_x))) h1 TypeError h1);
    reflexivity.
Defined.
